(** * Stroke-geometry core of the sketcher: a shallow embedding

    The C++ translation unit [native/src/calligraphy_native.cpp] is embedded
    function by function.

    - [double] is IEEE-754 binary64, modelled by Rocq's primitive floats; the
      comparisons are the IEEE ones, so every test involving a NaN is false.
      A primitive float has one NaN, so NaN payloads are not distinguished.
    - [int] is modelled by [Z].  The index arithmetic of the source
      ([i + 1], [vcount + 4], ...) adds at most 6 to a count that is at most
      a capacity, so it stays inside the range of [int] for capacities
      below [INT_MAX - 6]; larger ones are outside of the model.
    - A pointer to an array is [option (list A)]: [None] is the null pointer,
      [Some l] an allocated array with the contents [l].  Reading or writing
      through a null pointer or outside of the array is undefined behaviour
      and is modelled by the outcome [Fault].
    - A function with out-buffers returns its [int] result together with the
      final contents of the buffers it was given. *)

From Stdlib Require Import ZArith List Bool Lia Floats.
Import ListNotations.

Set Warnings "-inexact-float".

Local Open Scope Z_scope.

(* ------------------------------------------------------------------ *)
(** ** Outcomes: a result or undefined behaviour *)

Inductive outcome (A : Type) : Type :=
| Done (a : A)
| Fault.

Arguments Done {A} a.
Arguments Fault {A}.

Definition bind {A B : Type} (c : outcome A) (k : A -> outcome B) : outcome B :=
  match c with
  | Done a => k a
  | Fault => Fault
  end.

Notation "x <- c ;; k" := (bind c (fun x => k))
  (at level 100, c at next level, right associativity).

(* ------------------------------------------------------------------ *)
(** ** Arrays behind pointers *)

Definition ptr (A : Type) : Type := option (list A).

Definition is_null {A : Type} (p : ptr A) : bool :=
  match p with
  | None => true
  | Some _ => false
  end.

Fixpoint update {A : Type} (l : list A) (n : nat) (v : A) : option (list A) :=
  match l, n with
  | [], _ => None
  | _ :: tl, O => Some (v :: tl)
  | h :: tl, S n' =>
      match update tl n' v with
      | Some tl' => Some (h :: tl')
      | None => None
      end
  end.

(** [p[i]] as an rvalue. *)
Definition load {A : Type} (p : ptr A) (i : Z) : outcome A :=
  match p with
  | None => Fault
  | Some l =>
      if i <? 0 then Fault
      else match nth_error l (Z.to_nat i) with
           | Some v => Done v
           | None => Fault
           end
  end.

(** [p[i] = v]. *)
Definition store {A : Type} (p : ptr A) (i : Z) (v : A) : outcome (ptr A) :=
  match p with
  | None => Fault
  | Some l =>
      if i <? 0 then Fault
      else match update l (Z.to_nat i) v with
           | Some l' => Done (Some l')
           | None => Fault
           end
  end.

(** [p[at_index + 0] = v0; p[at_index + 1] = v1; ...]. *)
Fixpoint store_run {A : Type} (p : ptr A) (at_index : Z) (vs : list A)
    : outcome (ptr A) :=
  match vs with
  | [] => Done p
  | v :: vs' =>
      p' <- store p at_index v ;;
      store_run p' (at_index + 1) vs'
  end.

(* ------------------------------------------------------------------ *)
(** ** The FFI structures of [sketcher_native.h] *)

Record PointData : Type := mkPoint {
  p_x : float;
  p_y : float;
  p_pressure : float;
  p_timestamp : float;
  p_tiltX : float;
  p_tiltY : float
}.

Record CalligraphySegment : Type := mkSegment {
  s_x1 : float;
  s_y1 : float;
  s_x2 : float;
  s_y2 : float;
  s_thickness : float;
  s_alpha : float
}.

Record Vertex2D : Type := mkVertex {
  v_x : float;
  v_y : float;
  v_alpha : float
}.

(* ------------------------------------------------------------------ *)
(** ** [double] helpers: the <algorithm> templates and conversions *)

(** [std::max(a, b)] is [(a < b) ? b : a]. *)
Definition std_max (a b : float) : float := if (a <? b)%float then b else a.

(** [std::min(a, b)] is [(b < a) ? b : a]. *)
Definition std_min (a b : float) : float := if (b <? a)%float then b else a.

(** [std::clamp(v, lo, hi)] is [(v < lo) ? lo : (hi < v) ? hi : v]. *)
Definition std_clamp (v lo hi : float) : float :=
  if (v <? lo)%float then lo else if (hi <? v)%float then hi else v.

(** [std::min] on [int]. *)
Definition int_min (a b : Z) : Z := if b <? a then b else a.

Definition INT_MIN : Z := - 2147483648.
Definition INT_MAX : Z := 2147483647.

(** The integral part of a finite [double], rounding toward zero. *)
Definition truncate (d : float) : option Z :=
  match Prim2SF d with
  | S754_zero _ => Some 0
  | S754_finite s m e =>
      let a := if 0 <=? e then Z.pos m * 2 ^ e else Z.pos m / 2 ^ (- e) in
      Some (if s then - a else a)
  | S754_infinity _ => None
  | S754_nan => None
  end.

(** [static_cast<int>(d)]: the truncated value when an [int] can hold it,
    undefined behaviour otherwise (NaN and infinities included). *)
Definition static_cast_int (d : float) : outcome Z :=
  match truncate d with
  | Some z => if (INT_MIN <=? z) && (z <=? INT_MAX) then Done z else Fault
  | None => Fault
  end.

(** The conversion of an [int] to [double], which is exact. *)
Definition int_to_double (i : Z) : float :=
  if i <? 0 then (- of_uint63 (Uint63.of_Z (- i)))%float
  else of_uint63 (Uint63.of_Z i).

Definition M_PI : float := 3.14159265358979323846%float.

(* ------------------------------------------------------------------ *)
(** ** [Vector2D] *)

Module Vector2D.

Record t : Type := make { x : float; y : float }.

Definition sub (a b : t) : t := make (x a - x b)%float (y a - y b)%float.
Definition add (a b : t) : t := make (x a + x b)%float (y a + y b)%float.
Definition mul (a : t) (scalar : float) : t :=
  make (x a * scalar)%float (y a * scalar)%float.
Definition div (a : t) (scalar : float) : t :=
  make (x a / scalar)%float (y a / scalar)%float.
Definition length_squared (a : t) : float := (x a * x a + y a * y a)%float.
Definition length (a : t) : float := sqrt (x a * x a + y a * y a)%float.
Definition normalized (a : t) : t :=
  let len := length a in
  if (1e-10 <? len)%float then make (x a / len)%float (y a / len)%float
  else make 0 0.
Definition dot (a b : t) : float := (x a * x b + y a * y b)%float.
Definition cross (a b : t) : float := (x a * y b - y a * x b)%float.

End Vector2D.

(** [dist2]: the squared distance between two positions. *)
Definition dist2 (x1 y1 x2 y2 : float) : float :=
  let dx := (x2 - x1)%float in
  let dy := (y2 - y1)%float in
  (dx * dx + dy * dy)%float.

(* ------------------------------------------------------------------ *)
(** ** [resample_stroke_points] *)

Section Resample.

Variable input_points : ptr PointData.
Variable spacing2 : float.
Variable max_output : Z.

(** The loop [for (i = 1; i < input_count && out < max_output; i++)],
    entered at index [i] with [n = input_count - i] indices left. *)
Fixpoint resample_loop (n : nat) (i : Z) (out : Z) (last : PointData)
    (output_points : ptr PointData) : outcome (Z * ptr PointData) :=
  match n with
  | O => Done (out, output_points)
  | S n' =>
      if out <? max_output then
        p <- load input_points i ;;
        if (spacing2 <=? dist2 (p_x last) (p_y last) (p_x p) (p_y p))%float
        then
          output_points' <- store output_points out p ;;
          resample_loop n' (i + 1) (out + 1) p output_points'
        else resample_loop n' (i + 1) out last output_points
      else Done (out, output_points)
  end.

End Resample.

Definition resample_stroke_points (input_points : ptr PointData)
    (input_count : Z) (spacing : float) (output_points : ptr PointData)
    (max_output : Z) : outcome (Z * ptr PointData) :=
  if is_null input_points || is_null output_points
     || (input_count <=? 0) || (max_output <=? 0)
  then Done (0, output_points)
  else if input_count =? 1 then
    p0 <- load input_points 0 ;;
    output_points <- store output_points 0 p0 ;;
    Done (1, output_points)
  else
    let spacing2 := (spacing * spacing)%float in
    last <- load input_points 0 ;;
    output_points <- store output_points 0 last ;;
    r <- resample_loop input_points spacing2 max_output
           (Z.to_nat (input_count - 1)) 1 1 last output_points ;;
    let '(out, output_points) := r in
    if out <? max_output then
      pN <- load input_points (input_count - 1) ;;
      output_points <- store output_points out pN ;;
      Done (out + 1, output_points)
    else Done (out, output_points).

(* ------------------------------------------------------------------ *)
(** ** [smooth_stroke_points] *)

Section Smooth.

Variable input_points : ptr PointData.
Variable max_output : Z.

(** [for (i = 0; i < copy_count; i++) output_points[i] = input_points[i]],
    entered at index [i] with [n = copy_count - i] indices left. *)
Fixpoint copy_loop (n : nat) (i : Z) (output_points : ptr PointData)
    : outcome (ptr PointData) :=
  match n with
  | O => Done output_points
  | S n' =>
      p <- load input_points i ;;
      output_points' <- store output_points i p ;;
      copy_loop n' (i + 1) output_points'
  end.

Variable factor : float.
Variable inv_factor : float.

(** The weighted average written for the interior sample [curr]. *)
Definition smooth_point (prev curr next : PointData) : PointData :=
  let smooth_x :=
    (factor * (p_x prev + p_x next) * 0.5 + inv_factor * p_x curr)%float in
  let smooth_y :=
    (factor * (p_y prev + p_y next) * 0.5 + inv_factor * p_y curr)%float in
  let smooth_pressure :=
    (factor * (p_pressure prev + p_pressure next) * 0.5
     + inv_factor * p_pressure curr)%float in
  mkPoint smooth_x smooth_y smooth_pressure
          (p_timestamp curr) (p_tiltX curr) (p_tiltY curr).

(** [for (i = 1; i < input_count - 1 && output_count < max_output; i++)],
    entered at index [i] with [n = input_count - 1 - i] indices left. *)
Fixpoint smooth_loop (n : nat) (i : Z) (output_count : Z)
    (output_points : ptr PointData) : outcome (Z * ptr PointData) :=
  match n with
  | O => Done (output_count, output_points)
  | S n' =>
      if output_count <? max_output then
        prev <- load input_points (i - 1) ;;
        curr <- load input_points i ;;
        next <- load input_points (i + 1) ;;
        output_points' <-
          store output_points output_count (smooth_point prev curr next) ;;
        smooth_loop n' (i + 1) (output_count + 1) output_points'
      else Done (output_count, output_points)
  end.

End Smooth.

Definition smooth_stroke_points (input_points : ptr PointData)
    (input_count : Z) (smoothing_factor : float)
    (output_points : ptr PointData) (max_output : Z)
    : outcome (Z * ptr PointData) :=
  if (input_count <? 3) || (max_output <=? 0) then
    let copy_count := int_min input_count max_output in
    output_points <-
      copy_loop input_points (Z.to_nat copy_count) 0 output_points ;;
    Done (copy_count, output_points)
  else
    let factor := std_clamp smoothing_factor 0 1 in
    let inv_factor := (1 - factor)%float in
    p0 <- load input_points 0 ;;
    output_points <- store output_points 0 p0 ;;
    r <- smooth_loop input_points max_output factor inv_factor
           (Z.to_nat (input_count - 2)) 1 1 output_points ;;
    let '(output_count, output_points) := r in
    if output_count <? max_output then
      pN <- load input_points (input_count - 1) ;;
      output_points <- store output_points output_count pN ;;
      Done (output_count + 1, output_points)
    else Done (output_count, output_points).

(* ------------------------------------------------------------------ *)
(** ** [compute_stroke_velocity] *)

Section Velocity.

Variable points : ptr PointData.
Variable max_output : Z.

(** [for (i = 1; i < point_count && out < max_output; i++)]. *)
Fixpoint velocity_loop (n : nat) (i : Z) (out : Z)
    (out_velocities : ptr float) : outcome (Z * ptr float) :=
  match n with
  | O => Done (out, out_velocities)
  | S n' =>
      if out <? max_output then
        a <- load points (i - 1) ;;
        b <- load points i ;;
        let d := sqrt (dist2 (p_x a) (p_y a) (p_x b) (p_y b)) in
        let dt := std_max 1e-6 (p_timestamp b - p_timestamp a)%float in
        out_velocities' <- store out_velocities out (d / dt)%float ;;
        velocity_loop n' (i + 1) (out + 1) out_velocities'
      else Done (out, out_velocities)
  end.

End Velocity.

Definition compute_stroke_velocity (points : ptr PointData) (point_count : Z)
    (out_velocities : ptr float) (max_output : Z) : outcome (Z * ptr float) :=
  if is_null points || is_null out_velocities
     || (point_count <? 2) || (max_output <=? 0)
  then Done (0, out_velocities)
  else velocity_loop points max_output
         (Z.to_nat (point_count - 1)) 1 0 out_velocities.

(* ------------------------------------------------------------------ *)
(** ** [rdp] and [simplify_stroke_rdp] *)

(** [pts[i]] on a [std::vector]: unchecked, so out of range is undefined. *)
Definition at_ (pts : list PointData) (i : Z) : outcome PointData :=
  load (Some pts) i.

Section Rdp.

Variable pts : list PointData.
Variable eps2 : float.

(** Lines 283-287: the squared distance from [P] to its projection on
    the chord that starts at [A] with direction [(vx, vy)], the projection
    parameter clamped to [0, 1]. *)
Definition chord_dist2 (A : PointData) (vx vy vlen2 : float)
    (P : PointData) : float :=
  let t := 0%float in
  let t :=
    if (1e-12 <? vlen2)%float
    then (((p_x P - p_x A) * vx + (p_y P - p_y A) * vy) / vlen2)%float
    else t in
  let t := std_max 0 (std_min 1 t) in
  let projx := (p_x A + t * vx)%float in
  let projy := (p_y A + t * vy)%float in
  dist2 (p_x P) (p_y P) projx projy.

(** The scan [for (i = s + 1; i < e; i++)] for the sample that deviates
    most from the chord; the state is [(idx, maxd)]. *)
Fixpoint rdp_scan (A : PointData) (vx vy vlen2 : float) (n : nat) (i : Z)
    (idx : Z) (maxd : float) : outcome (Z * float) :=
  match n with
  | O => Done (idx, maxd)
  | S n' =>
      P <- at_ pts i ;;
      let d2 := chord_dist2 A vx vy vlen2 P in
      if (maxd <? d2)%float
      then rdp_scan A vx vy vlen2 n' (i + 1) i d2
      else rdp_scan A vx vy vlen2 n' (i + 1) idx maxd
  end.

(** [rdp(pts, s, e, eps2, out)]; [out] is the vector appended to.  The
    recursion is on [fuel], which bounds the depth of the calls: a split
    index lies strictly between [s] and [e], so [e - s] is enough. *)
Fixpoint rdp (fuel : nat) (s e : Z) (out : list PointData)
    : outcome (list PointData) :=
  match fuel with
  | O => Done out
  | S fuel' =>
      if e <=? s + 1 then Done out
      else
        A <- at_ pts s ;;
        B <- at_ pts e ;;
        let vx := (p_x B - p_x A)%float in
        let vy := (p_y B - p_y A)%float in
        let vlen2 := (vx * vx + vy * vy)%float in
        r <- rdp_scan A vx vy vlen2 (Z.to_nat (e - (s + 1))) (s + 1)
               (-1) 0%float ;;
        let '(idx, maxd) := r in
        if (eps2 <? maxd)%float && negb (idx =? -1) then
          out <- rdp fuel' s idx out ;;
          P <- at_ pts idx ;;
          rdp fuel' idx e (out ++ [P])
        else Done out
  end.

End Rdp.

(** [for (i = 0; i < c; i++) output_points[i] = out[i]]. *)
Definition copy_out (src : list PointData) (c : Z)
    (output_points : ptr PointData) : outcome (ptr PointData) :=
  copy_loop (Some src) (Z.to_nat c) 0 output_points.

Definition simplify_stroke_rdp (input_points : ptr PointData)
    (input_count : Z) (epsilon : float) (output_points : ptr PointData)
    (max_output : Z) : outcome (Z * ptr PointData) :=
  if is_null input_points || is_null output_points
     || (input_count =? 0) || (max_output <=? 0)
  then Done (0, output_points)
  else if input_count <=? 2 then
    let c := int_min input_count max_output in
    output_points <-
      copy_loop input_points (Z.to_nat c) 0 output_points ;;
    Done (c, output_points)
  else
    match input_points with
    | None => Fault
    | Some l =>
        (* std::vector<PointData> pts(input_count), filled from the input *)
        if Z.of_nat (length l) <? input_count then Fault
        else
          let pts := firstn (Z.to_nat input_count) l in
          front <- at_ pts 0 ;;
          out <- rdp pts (epsilon * epsilon)%float (Z.to_nat input_count)
                   0 (input_count - 1) [front] ;;
          back <- at_ pts (input_count - 1) ;;
          let out := out ++ [back] in
          let c := int_min (Z.of_nat (length out)) max_output in
          output_points <- copy_out out c output_points ;;
          Done (c, output_points)
    end.

(* ------------------------------------------------------------------ *)
(** ** [FastTrig]: the sine and cosine tables

    [sin] and [cos] of <cmath> are taken as parameters.  [initialize] fills
    the tables once and every lookup calls it first, so a lookup always sees
    the filled table: entry [i] holds the library value at [table_angle i]. *)

Module FastTrig.
Section Tables.

Variable libm_sin : float -> float.
Variable libm_cos : float -> float.

Definition TABLE_SIZE : Z := 3600.

(** [(i * M_PI) / (TABLE_SIZE / 2.0)]. *)
Definition table_angle (i : Z) : float :=
  ((int_to_double i * M_PI) / (int_to_double TABLE_SIZE / 2.0))%float.

Definition sin_table (i : Z) : float := libm_sin (table_angle i).
Definition cos_table (i : Z) : float := libm_cos (table_angle i).

(** [static_cast<int>((angle_rad * TABLE_SIZE) / (2.0 * M_PI)) % TABLE_SIZE],
    moved into [0, TABLE_SIZE) when negative; [%] truncates toward zero. *)
Definition table_index (angle_rad : float) : outcome Z :=
  q <- static_cast_int
         ((angle_rad * int_to_double TABLE_SIZE) / (2.0 * M_PI))%float ;;
  let index := Z.rem q TABLE_SIZE in
  Done (if index <? 0 then index + TABLE_SIZE else index).

Definition fast_sin (angle_rad : float) : outcome float :=
  index <- table_index angle_rad ;;
  Done (sin_table index).

Definition fast_cos (angle_rad : float) : outcome float :=
  index <- table_index angle_rad ;;
  Done (cos_table index).

(** [Vector2D nib_dir(fast_cos(nib_angle_rad), fast_sin(nib_angle_rad))]
    with [nib_angle_rad = nib_angle_deg * M_PI / 180.0]. *)
Definition nib_direction (nib_angle_deg : float) : outcome Vector2D.t :=
  let nib_angle_rad := (nib_angle_deg * M_PI / 180.0)%float in
  c <- fast_cos nib_angle_rad ;;
  s <- fast_sin nib_angle_rad ;;
  Done (Vector2D.make c s).

End Tables.
End FastTrig.

(* ------------------------------------------------------------------ *)
(** ** [calculate_calligraphy_segments] *)

Section Segments.

Variable points : ptr PointData.
Variable max_segments : Z.
Variable nib_dir : Vector2D.t.
Variable thickness_base : float.
Variable opacity : float.

Definition min_thickness : float := 0.6%float.
Definition thickness_range : float := 0.9%float.
Definition thickness_offset : float := 0.35%float.

(** Lines 137-150: the thickness of the segment [seg] from [a] to [b],
    whose squared length is [length_sq]. *)
Definition segment_thickness (seg : Vector2D.t) (length_sq : float)
    (a b : PointData) : float :=
  let length := sqrt length_sq in
  let tangent := Vector2D.div seg length in
  let cross_product := abs (Vector2D.cross tangent nib_dir) in
  let avg_pressure := ((p_pressure a + p_pressure b) * 0.5)%float in
  std_max min_thickness
    (thickness_base
     * (thickness_offset + thickness_range * cross_product)
     * avg_pressure)%float.

(** [for (i = 0; i < point_count - 1 && segment_count < max_segments; i++)],
    entered at index [i] with [n = point_count - 1 - i] indices left. *)
Fixpoint segments_loop (n : nat) (i : Z) (segment_count : Z)
    (output_segments : ptr CalligraphySegment)
    : outcome (Z * ptr CalligraphySegment) :=
  match n with
  | O => Done (segment_count, output_segments)
  | S n' =>
      if segment_count <? max_segments then
        a <- load points i ;;
        b <- load points (i + 1) ;;
        let seg := Vector2D.make (p_x b - p_x a)%float (p_y b - p_y a)%float in
        let length_sq := Vector2D.length_squared seg in
        if (length_sq <? 1e-12)%float
        then segments_loop n' (i + 1) segment_count output_segments
        else
          let thickness := segment_thickness seg length_sq a b in
          output_segments' <-
            store output_segments segment_count
              (mkSegment (p_x a) (p_y a) (p_x b) (p_y b) thickness opacity) ;;
          segments_loop n' (i + 1) (segment_count + 1) output_segments'
      else Done (segment_count, output_segments)
  end.

End Segments.

Section Exported.

Variable libm_sin : float -> float.
Variable libm_cos : float -> float.

Definition calculate_calligraphy_segments (points : ptr PointData)
    (point_count : Z) (stroke_width opacity nib_angle_deg
    nib_width_factor : float) (output_segments : ptr CalligraphySegment)
    (max_segments : Z) : outcome (Z * ptr CalligraphySegment) :=
  if (point_count <? 2) || (max_segments <=? 0)
  then Done (0, output_segments)
  else
    nib_dir <- FastTrig.nib_direction libm_sin libm_cos nib_angle_deg ;;
    let clamped_width_factor := std_clamp nib_width_factor 0.3 2.5 in
    let thickness_base := (stroke_width * clamped_width_factor)%float in
    segments_loop points max_segments nib_dir thickness_base opacity
      (Z.to_nat (point_count - 1)) 0 0 output_segments.

End Exported.

(* ------------------------------------------------------------------ *)
(** ** [build_calligraphy_mesh] *)

(** The three out-parameters: the vertex array, the index array of
    [unsigned int], and the [int] cell that [out_index_count] points to
    ([None] when that pointer is null). *)
Record mesh_out : Type := mkMeshOut {
  out_vertices : ptr Vertex2D;
  out_indices : ptr Z;
  out_index_count : option Z
}.

(** Arithmetic of [unsigned int] wraps around modulo [2^32]. *)
Definition to_unsigned (v : Z) : Z := v mod 2 ^ 32.
Definition unsigned_add (a b : Z) : Z := (a + b) mod 2 ^ 32.

Section Mesh.

Variable points : ptr PointData.
Variable max_vertices : Z.
Variable max_indices : Z.
Variable nib_dir : Vector2D.t.
Variable thickness_base : float.
Variable opacity : float.

(** Lines 359-361: the thickness of the quad around the segment with unit
    tangent [t], under the averaged [pressure]. *)
Definition quad_thickness (t : Vector2D.t) (pressure : float) : float :=
  let thickness_range := 0.9%float in
  let thickness_offset := 0.35%float in
  let cross_p := abs (Vector2D.cross t nib_dir) in
  std_max 0.6
    (thickness_base * (thickness_offset + thickness_range * cross_p)
     * pressure)%float.

(** Lines 362-381: the four corners around [a] and [b], in the order
    start-left, start-right, end-left, end-right, all with alpha [va]. *)
Definition quad_vertices (a b : PointData) (t : Vector2D.t)
    (thickness va : float) : list Vertex2D :=
  let half_w := (0.5 * thickness)%float in
  let n := Vector2D.make (- Vector2D.y t)%float (Vector2D.x t) in
  let pa := Vector2D.make (p_x a) (p_y a) in
  let pb := Vector2D.make (p_x b) (p_y b) in
  let a_l := Vector2D.sub pa (Vector2D.mul n half_w) in
  let a_r := Vector2D.add pa (Vector2D.mul n half_w) in
  let b_l := Vector2D.sub pb (Vector2D.mul n half_w) in
  let b_r := Vector2D.add pb (Vector2D.mul n half_w) in
  [ mkVertex (Vector2D.x a_l) (Vector2D.y a_l) va;
    mkVertex (Vector2D.x a_r) (Vector2D.y a_r) va;
    mkVertex (Vector2D.x b_l) (Vector2D.y b_l) va;
    mkVertex (Vector2D.x b_r) (Vector2D.y b_r) va ].

(** Lines 384-390: the two triangles (0,2,1) and (1,2,3) over [base]. *)
Definition quad_indices (base : Z) : list Z :=
  [ unsigned_add base 0; unsigned_add base 2; unsigned_add base 1;
    unsigned_add base 1; unsigned_add base 2; unsigned_add base 3 ].

(** [for (i = 0; i < point_count - 1; i++)], entered at index [i] with
    [n = point_count - 1 - i] indices left; [break] leaves the loop. *)
Fixpoint mesh_loop (n : nat) (i : Z) (vcount icount : Z)
    (vertices : ptr Vertex2D) (indices : ptr Z)
    : outcome (Z * Z * ptr Vertex2D * ptr Z) :=
  match n with
  | O => Done (vcount, icount, vertices, indices)
  | S n' =>
      a <- load points i ;;
      b <- load points (i + 1) ;;
      let seg := Vector2D.make (p_x b - p_x a)%float (p_y b - p_y a)%float in
      let len2 := Vector2D.length_squared seg in
      if (len2 <? 1e-12)%float
      then mesh_loop n' (i + 1) vcount icount vertices indices
      else
        let len := sqrt len2 in
        let t := Vector2D.div seg len in
        let pressure := ((p_pressure a + p_pressure b) * 0.5)%float in
        let thickness := quad_thickness t pressure in
        if (max_vertices <? vcount + 4) || (max_indices <? icount + 6)
        then Done (vcount, icount, vertices, indices)
        else
          let va := std_clamp (opacity * pressure)%float 0 1 in
          vertices' <-
            store_run vertices vcount (quad_vertices a b t thickness va) ;;
          let base := to_unsigned vcount in
          indices' <- store_run indices icount (quad_indices base) ;;
          mesh_loop n' (i + 1) (vcount + 4) (icount + 6) vertices' indices'
  end.

End Mesh.

Section ExportedMesh.

Variable libm_sin : float -> float.
Variable libm_cos : float -> float.

Definition build_calligraphy_mesh (points : ptr PointData)
    (point_count : Z) (stroke_width opacity nib_angle_deg
    nib_width_factor : float) (max_vertices max_indices : Z)
    (m : mesh_out) : outcome (Z * mesh_out) :=
  if is_null points || is_null (out_vertices m) || is_null (out_indices m)
     || match out_index_count m with None => true | Some _ => false end
  then Done (0, m)
  else if (point_count <? 2) || (max_vertices <? 4) || (max_indices <? 6)
  then Done (0, mkMeshOut (out_vertices m) (out_indices m) (Some 0))
  else
    nib_dir <- FastTrig.nib_direction libm_sin libm_cos nib_angle_deg ;;
    let clamped_width_factor := std_clamp nib_width_factor 0.3 2.5 in
    let thickness_base := (stroke_width * clamped_width_factor)%float in
    r <- mesh_loop points max_vertices max_indices nib_dir thickness_base
           opacity (Z.to_nat (point_count - 1)) 0 0 0
           (out_vertices m) (out_indices m) ;;
    let '(vcount, icount, vertices, indices) := r in
    Done (vcount, mkMeshOut vertices indices (Some icount)).

End ExportedMesh.

(* ------------------------------------------------------------------ *)
(** ** Sample data

    [sin_near_zero] and [cos_near_zero] stand in for <cmath> when the model
    is run on concrete inputs.  They are exact at the argument [0], as the
    functions of an IEEE-754 conforming library are, and the runs below read
    the tables at entry 0 only (nib angle 0). *)

Definition sin_near_zero (a : float) : float := (a - a * a * a / 6)%float.
Definition cos_near_zero (a : float) : float := (1 - a * a / 2)%float.

(** What the results below need of <cmath>: [sin(0.0)] is [0.0] and
    [cos(0.0)] is [1.0]. *)
Definition exact_at_zero (libm_sin libm_cos : float -> float) : Prop :=
  libm_sin 0%float = 0%float /\ libm_cos 0%float = 1%float.

Definition pt (x y pr t : float) : PointData := mkPoint x y pr t 0 0.
Definition zero_point : PointData := pt 0 0 0 0.
Definition zero_segment : CalligraphySegment := mkSegment 0 0 0 0 0 0.
Definition zero_vertex : Vertex2D := mkVertex 0 0 0.

Definition three_on_axis : list PointData :=
  [pt 0 0 1 0; pt 10 0 1 1; pt 20 0 1 2].

Definition two_on_axis : list PointData := [pt 0 0 1 0; pt 10 0 1 1].

(* ------------------------------------------------------------------ *)
(** ** Functional views

    What each loop writes, as a function on lists: the lemmas further down
    show that the loops above compute exactly these lists into their
    buffers, and the properties of the operations are then read off the
    lists. *)

(** The samples the spacing walk keeps: [last] is the sample kept most
    recently, [rem] the samples still to visit, [room] the free slots. *)
Fixpoint spaced_walk (spacing2 : float) (last : PointData)
    (rem : list PointData) (room : nat) : list PointData :=
  match rem, room with
  | p :: rem', S room' =>
      if (spacing2 <=? dist2 (p_x last) (p_y last) (p_x p) (p_y p))%float
      then p :: spaced_walk spacing2 p rem' room'
      else spaced_walk spacing2 last rem' room
  | _, _ => []
  end.

(** Every sample of [l] is at least the spacing away from the one before
    it, the first of them from [last]. *)
Fixpoint spaced_from (spacing2 : float) (last : PointData)
    (l : list PointData) : Prop :=
  match l with
  | [] => True
  | p :: l' =>
      (spacing2 <=? dist2 (p_x last) (p_y last) (p_x p) (p_y p))%float = true
      /\ spaced_from spacing2 p l'
  end.

(** What [resample_stroke_points] writes for an input of two or more
    samples [p0 :: rest]: [p0], the samples the walk keeps, and the last
    sample once more if a slot is left. *)
Definition resampled (spacing : float) (p0 : PointData)
    (rest : list PointData) (max_output : Z) : list PointData :=
  let walk :=
    spaced_walk (spacing * spacing)%float p0 rest (Z.to_nat (max_output - 1)) in
  p0 :: walk
     ++ (if Z.of_nat (S (length walk)) <? max_output
         then [last rest p0] else []).

(** The smoothed interior samples of [rem], at most [room] of them: one for
    every sample that has both a predecessor and a successor. *)
Fixpoint smoothed (factor inv_factor : float) (rem : list PointData)
    (room : nat) : list PointData :=
  match rem, room with
  | prev :: ((curr :: next :: _) as tl), S room' =>
      smooth_point factor inv_factor prev curr next
        :: smoothed factor inv_factor tl room'
  | _, _ => []
  end.

(** What [smooth_stroke_points] writes for three or more samples
    [p0 :: rest]: [p0], the smoothed interior samples, and the last sample
    if a slot is left. *)
Definition smoothed_stroke (smoothing_factor : float) (p0 : PointData)
    (rest : list PointData) (max_output : Z) : list PointData :=
  let factor := std_clamp smoothing_factor 0 1 in
  let inv_factor := (1 - factor)%float in
  let interior :=
    smoothed factor inv_factor (p0 :: rest) (Z.to_nat (max_output - 1)) in
  p0 :: interior
     ++ (if Z.of_nat (S (length interior)) <? max_output
         then [last rest p0] else []).

(** The consecutive pairs of a stroke, in order. *)
Fixpoint pairs (l : list PointData) : list (PointData * PointData) :=
  match l with
  | a :: ((b :: _) as tl) => (a, b) :: pairs tl
  | _ => []
  end.

(** The test both builders use to skip a near-zero-length segment. *)
Definition degenerate (a b : PointData) : bool :=
  (Vector2D.length_squared
     (Vector2D.make (p_x b - p_x a)%float (p_y b - p_y a)%float)
   <? 1e-12)%float.

(** The pairs that are not skipped. *)
Definition live_pairs (l : list PointData) : list (PointData * PointData) :=
  filter (fun ab => negb (degenerate (fst ab) (snd ab))) (pairs l).

(** The descriptor [calculate_calligraphy_segments] stores for a pair. *)
Definition descriptor (nib_dir : Vector2D.t) (thickness_base opacity : float)
    (ab : PointData * PointData) : CalligraphySegment :=
  let a := fst ab in
  let b := snd ab in
  let seg := Vector2D.make (p_x b - p_x a)%float (p_y b - p_y a)%float in
  let length_sq := Vector2D.length_squared seg in
  mkSegment (p_x a) (p_y a) (p_x b) (p_y b)
    (segment_thickness nib_dir thickness_base seg length_sq a b) opacity.

(** The descriptors [calculate_calligraphy_segments] writes. *)
Definition descriptors (nib_dir : Vector2D.t) (stroke_width opacity
    nib_width_factor : float) (l : list PointData) (point_count
    max_segments : Z) : list CalligraphySegment :=
  let thickness_base :=
    (stroke_width * std_clamp nib_width_factor 0.3 2.5)%float in
  map (descriptor nib_dir thickness_base opacity)
    (firstn (Z.to_nat max_segments)
       (live_pairs (firstn (Z.to_nat point_count) l))).

(** The thickness [build_calligraphy_mesh] computes for the pair [ab]. *)
Definition mesh_thickness (nib_dir : Vector2D.t) (thickness_base : float)
    (ab : PointData * PointData) : float :=
  let a := fst ab in
  let b := snd ab in
  let seg := Vector2D.make (p_x b - p_x a)%float (p_y b - p_y a)%float in
  let len := sqrt (Vector2D.length_squared seg) in
  quad_thickness nib_dir thickness_base (Vector2D.div seg len)
    ((p_pressure a + p_pressure b) * 0.5)%float.

(** The four vertices [build_calligraphy_mesh] writes for a pair. *)
Definition quad (nib_dir : Vector2D.t) (thickness_base opacity : float)
    (ab : PointData * PointData) : list Vertex2D :=
  let a := fst ab in
  let b := snd ab in
  let seg := Vector2D.make (p_x b - p_x a)%float (p_y b - p_y a)%float in
  let len := sqrt (Vector2D.length_squared seg) in
  let t := Vector2D.div seg len in
  let pressure := ((p_pressure a + p_pressure b) * 0.5)%float in
  let thickness := mesh_thickness nib_dir thickness_base ab in
  let va := std_clamp (opacity * pressure)%float 0 1 in
  quad_vertices a b t thickness va.

(** The indices of [k] quads in a row, the first over the vertex [vcount]. *)
Fixpoint index_run (vcount : Z) (k : nat) : list Z :=
  match k with
  | O => []
  | S k' => quad_indices (to_unsigned vcount) ++ index_run (vcount + 4) k'
  end.

(** How many more quads fit when [vcount] vertices and [icount] indices
    are in use. *)
Definition mesh_room (max_vertices max_indices vcount icount : Z) : nat :=
  Z.to_nat (Z.min ((max_vertices - vcount) / 4) ((max_indices - icount) / 6)).

(** The pairs [build_calligraphy_mesh] emits a quad for. *)
Definition mesh_pairs (l : list PointData) (point_count max_vertices
    max_indices : Z) : list (PointData * PointData) :=
  firstn (mesh_room max_vertices max_indices 0 0)
    (live_pairs (firstn (Z.to_nat point_count) l)).

(** Some pointer argument of [build_calligraphy_mesh] is null. *)
Definition some_null (points : ptr PointData) (m : mesh_out) : Prop :=
  points = None \/ out_vertices m = None \/ out_indices m = None
  \/ out_index_count m = None.

(** The alpha of a vertex [v] of the quad around the segment from [a] to
    [b] is the clamped product of [opacity] and the averaged pressure of
    [a] and [b]; it lies in [0, 1] unless that product is NaN, and is NaN
    when the product is. *)
Definition clamped_alpha (opacity : float) (a b : PointData)
    (v : Vertex2D) : Prop :=
  let product := (opacity * ((p_pressure a + p_pressure b) * 0.5))%float in
  v_alpha v = std_clamp product 0 1
  /\ (is_nan product = false ->
      (0 <=? v_alpha v)%float = true /\ (v_alpha v <=? 1)%float = true)
  /\ (is_nan product = true -> is_nan (v_alpha v) = true).

(** A thickness that is at least the floor 0.6 and is not NaN. *)
Definition floored (thickness : float) : Prop :=
  (0.6 <=? thickness)%float = true /\ is_nan thickness = false.

(** The corners of the quad around the segment of the descriptor [s], at
    half the thickness recorded in [s] to either side. *)
Definition corners_of_descriptor (s : CalligraphySegment)
    : list (float * float) :=
  let seg := Vector2D.make (s_x2 s - s_x1 s)%float (s_y2 s - s_y1 s)%float in
  let len := sqrt (Vector2D.length_squared seg) in
  let t := Vector2D.div seg len in
  let half_w := (0.5 * s_thickness s)%float in
  let n := Vector2D.make (- Vector2D.y t)%float (Vector2D.x t) in
  let pa := Vector2D.make (s_x1 s) (s_y1 s) in
  let pb := Vector2D.make (s_x2 s) (s_y2 s) in
  map (fun c => (Vector2D.x c, Vector2D.y c))
    [ Vector2D.sub pa (Vector2D.mul n half_w);
      Vector2D.add pa (Vector2D.mul n half_w);
      Vector2D.sub pb (Vector2D.mul n half_w);
      Vector2D.add pb (Vector2D.mul n half_w) ].

Definition position (v : Vertex2D) : float * float := (v_x v, v_y v).



(** The velocity [compute_stroke_velocity] writes for a pair: the distance
    over the elapsed time, the elapsed time floored to 1e-6. *)
Definition velocity_of (ab : PointData * PointData) : float :=
  let a := fst ab in
  let b := snd ab in
  let d := sqrt (dist2 (p_x a) (p_y a) (p_x b) (p_y b)) in
  let dt := std_max 1e-6 (p_timestamp b - p_timestamp a)%float in
  (d / dt)%float.

(** [s] is [l] with some elements left out, the order kept. *)
Inductive subsequence {A : Type} : list A -> list A -> Prop :=
| subsequence_nil (l : list A) : subsequence [] l
| subsequence_keep (x : A) (s l : list A) :
    subsequence s l -> subsequence (x :: s) (x :: l)
| subsequence_skip (x : A) (s l : list A) :
    subsequence s l -> subsequence s (x :: l).

(** The six indices of quad number [j] when nothing wraps around. *)
Definition triangles (j : nat) : list Z :=
  let base := 4 * Z.of_nat j in
  [base; base + 2; base + 1; base + 1; base + 2; base + 3].

(** The four vertices [q] carry one alpha, and lie at the two end points
    [a] and [b] moved by one and the same offset to either side. *)
Definition ribbon_quad (a b : PointData) (q : list Vertex2D) : Prop :=
  exists (ox oy va : float),
    q = [ mkVertex (p_x a - ox) (p_y a - oy) va;
          mkVertex (p_x a + ox) (p_y a + oy) va;
          mkVertex (p_x b - ox) (p_y b - oy) va;
          mkVertex (p_x b + ox) (p_y b + oy) va ]%float.

(** The fields smoothing leaves alone. *)
Definition same_time_and_tilt (p q : PointData) : Prop :=
  p_timestamp q = p_timestamp p
  /\ p_tiltX q = p_tiltX p /\ p_tiltY q = p_tiltY p.

(* ------------------------------------------------------------------ *)
(** ** The class [FastTrig] with its static storage

    [FastTrig.sin_table] and [FastTrig.cos_table] above give the tables as
    functions of the entry.  Here the class is modelled with its storage:
    two arrays of [TABLE_SIZE] doubles and the flag [initialized], filled
    by [initialize] on first use. *)

Module TrigCache.
Section Cache.

Variable libm_sin : float -> float.
Variable libm_cos : float -> float.

Record t : Type := make {
  sin_table : list float;
  cos_table : list float;
  initialized : bool
}.

(** Static storage is zero-initialised and [initialized] starts [false]. *)
Definition startup : t :=
  make (repeat 0%float (Z.to_nat FastTrig.TABLE_SIZE))
       (repeat 0%float (Z.to_nat FastTrig.TABLE_SIZE)) false.

(** [table[i] = v] on an array that is not behind a pointer. *)
Definition assign (table : list float) (i : Z) (v : float)
    : outcome (list float) :=
  p <- store (Some table) i v ;;
  match p with
  | Some table' => Done table'
  | None => Fault
  end.

(** The loop of [initialize], with [todo] iterations left. *)
Fixpoint fill_loop (todo : nat) (i : Z) (sines cosines : list float)
    : outcome (list float * list float) :=
  match todo with
  | O => Done (sines, cosines)
  | S todo' =>
      let angle := FastTrig.table_angle i in
      sines' <- assign sines i (libm_sin angle) ;;
      cosines' <- assign cosines i (libm_cos angle) ;;
      fill_loop todo' (i + 1) sines' cosines'
  end.

Definition initialize (c : t) : outcome t :=
  if initialized c then Done c
  else
    r <- fill_loop (Z.to_nat FastTrig.TABLE_SIZE) 0
           (sin_table c) (cos_table c) ;;
    Done (make (fst r) (snd r) true).

Definition fast_sin (c : t) (angle_rad : float) : outcome (t * float) :=
  c' <- initialize c ;;
  index <- FastTrig.table_index angle_rad ;;
  v <- load (Some (sin_table c')) index ;;
  Done (c', v).

Definition fast_cos (c : t) (angle_rad : float) : outcome (t * float) :=
  c' <- initialize c ;;
  index <- FastTrig.table_index angle_rad ;;
  v <- load (Some (cos_table c')) index ;;
  Done (c', v).

(** [FastTrig::initialize()] followed by
    [Vector2D nib_dir(fast_cos(nib_angle_rad), fast_sin(nib_angle_rad))].
    The two arguments of the constructor are evaluated in either order;
    [cos_first] says which. *)
Definition nib_direction (cos_first : bool) (c : t) (nib_angle_deg : float)
    : outcome (t * Vector2D.t) :=
  c0 <- initialize c ;;
  let nib_angle_rad := (nib_angle_deg * M_PI / 180.0)%float in
  if cos_first then
    rc <- fast_cos c0 nib_angle_rad ;;
    rs <- fast_sin (fst rc) nib_angle_rad ;;
    Done (fst rs, Vector2D.make (snd rc) (snd rs))
  else
    rs <- fast_sin c0 nib_angle_rad ;;
    rc <- fast_cos (fst rs) nib_angle_rad ;;
    Done (fst rc, Vector2D.make (snd rc) (snd rs)).

(** The first [n] entries of a table of the function [f]. *)
Definition filled (f : float -> float) (n : nat) : list float :=
  map (fun k => f (FastTrig.table_angle (Z.of_nat k))) (seq 0 n).

(** The storage has its declared size, and holds the tables once the flag
    is set. *)
Definition well_formed (c : t) : Prop :=
  length (sin_table c) = Z.to_nat FastTrig.TABLE_SIZE
  /\ length (cos_table c) = Z.to_nat FastTrig.TABLE_SIZE
  /\ (initialized c = true ->
      sin_table c = filled libm_sin (Z.to_nat FastTrig.TABLE_SIZE)
      /\ cos_table c = filled libm_cos (Z.to_nat FastTrig.TABLE_SIZE)).

End Cache.
End TrigCache.

(** The product both builders floor at 0.6 to get the thickness of the
    segment [ab] (lines 137-150 and 359-361):
    [thickness_base * (0.35 + 0.9 * cross) * pressure], with [cross] the
    absolute cross product of the unit tangent and the nib direction and
    [pressure] the average of the two pressures. *)
Definition thickness_product (nib_dir : Vector2D.t) (thickness_base : float)
    (ab : PointData * PointData) : float :=
  let a := fst ab in
  let b := snd ab in
  let seg := Vector2D.make (p_x b - p_x a)%float (p_y b - p_y a)%float in
  let tangent := Vector2D.div seg (sqrt (Vector2D.length_squared seg)) in
  let cross := abs (Vector2D.cross tangent nib_dir) in
  (thickness_base * (0.35 + 0.9 * cross)
   * ((p_pressure a + p_pressure b) * 0.5))%float.

(** The thickness [th] is the product [p] floored at 0.6: it is at least
    0.6 and not NaN, it is +infinity exactly when the product is, and it
    is finite otherwise. *)
Definition floored_product (p th : float) : Prop :=
  th = std_max 0.6 p
  /\ floored th
  /\ (th = infinity <-> p = infinity)
  /\ (p <> infinity -> is_finite th = true).

(** A value that is NaN or has a clear sign bit: [+0], a positive number
    or +infinity. *)
Definition sign_clear (v : spec_float) : Prop :=
  match v with
  | S754_zero s | S754_infinity s | S754_finite s _ _ => s = false
  | S754_nan => True
  end.

(* ------------------------------------------------------------------ *)
(** ** The exact value of a finite double

    A finite double is an integer multiple of [2^-1074], the smallest
    positive double.  [units v] is that integer; the infinities and NaN
    have none.  The value 1.0 is [unit_one] units. *)


(** The magnitude [m * 2^e] in units of [2^-1074]. *)
Definition magnitude (m : positive) (e : Z) : Z := Z.pos m * 2 ^ (e + 1074).

Definition SF_units (v : spec_float) : option Z :=
  match v with
  | S754_zero _ => Some 0
  | S754_finite s m e => Some (cond_Zopp s (magnitude m e))
  | S754_infinity _ => None
  | S754_nan => None
  end.

Definition units (v : float) : option Z := SF_units (Prim2SF v).





(** The samples [A], [P], [B] are collinear and [P] lies on the closed
    segment from [A] to [B], in exact arithmetic on the coordinates: the
    cross product of [P - A] and [B - A] is zero, and their dot product
    lies between zero and the squared length of [B - A]. *)
Definition on_segment (A P B : PointData) : Prop :=
  exists ax ay px py bx by_ : Z,
    units (p_x A) = Some ax /\ units (p_y A) = Some ay
    /\ units (p_x P) = Some px /\ units (p_y P) = Some py
    /\ units (p_x B) = Some bx /\ units (p_y B) = Some by_
    /\ (px - ax) * (by_ - ay) = (py - ay) * (bx - ax)
    /\ 0 <= (px - ax) * (bx - ax) + (py - ay) * (by_ - ay)
         <= (bx - ax) * (bx - ax) + (by_ - ay) * (by_ - ay).



(* ------------------------------------------------------------------ *)
(** ** Runs of the model on the examples of the specification *)

(** With capacity 3 the three samples on the axis come back as they are. *)
Example resample_three_on_axis_capacity_three :
  resample_stroke_points (Some three_on_axis) 3 5
    (Some (repeat zero_point 3)) 3
  = Done (3, Some three_on_axis).
Proof. vm_compute. reflexivity. Qed.

(** The velocity from (0,0) at time 0 to (10,0) at time 1 is 10. *)
Example velocity_two_on_axis :
  compute_stroke_velocity (Some two_on_axis) 2 (Some [0%float]) 1
  = Done (1, Some [10%float]).
Proof. vm_compute. reflexivity. Qed.

(** One quad for the segment from (0,0) to (0,10), stroke width 4, nib
    along the x axis: thickness 4 * 1 * (0.35 + 0.9) * 1 = 5, so the
    corners lie 2.5 to either side, and the indices are (0,2,1), (1,2,3). *)
Example mesh_one_segment :
  build_calligraphy_mesh sin_near_zero cos_near_zero
    (Some [pt 0 0 1 0; pt 0 10 1 1]) 2 4 1 0 1 4 6
    (mkMeshOut (Some (repeat zero_vertex 4)) (Some (repeat 0 6)) (Some 0))
  = Done (4, mkMeshOut
               (Some [mkVertex 2.5 0 1; mkVertex (-2.5) 0 1;
                      mkVertex 2.5 10 1; mkVertex (-2.5) 10 1])
               (Some [0; 2; 1; 1; 2; 3])
               (Some 6)).
Proof. vm_compute. reflexivity. Qed.

(** A negative angle is moved into the table: -1 rad is entry 3028. *)
Example table_index_negative :
  FastTrig.table_index (-1)%float = Done 3028.
Proof. vm_compute. reflexivity. Qed.

(* ------------------------------------------------------------------ *)
(** ** Facts about [double] comparisons *)

Lemma SFcompare_refl (f : spec_float) :
  f <> S754_nan -> SFcompare f f = Some Eq.
Proof.
  destruct f as [s | s | | s m e]; intros H; try congruence;
    unfold SFcompare; destruct s;
    rewrite ?Z.compare_refl, ?Pos.compare_refl; reflexivity.
Qed.

Lemma ltb_leb (a b : float) : (a <? b)%float = true -> (a <=? b)%float = true.
Proof.
  rewrite ltb_spec, leb_spec. unfold SFltb, SFleb.
  destruct (SFcompare _ _) as [[]|]; congruence.
Qed.

Lemma ltb_not_nan_r (a b : float) :
  (a <? b)%float = true -> is_nan b = false.
Proof.
  unfold is_nan. rewrite ltb_spec, eqb_spec. unfold SFltb, SFeqb.
  intros H.
  rewrite SFcompare_refl; [reflexivity|].
  intros E. rewrite E in H.
  destruct (Prim2SF a); simpl in H; discriminate.
Qed.

Lemma ltb_not_nan_l (a b : float) :
  (a <? b)%float = true -> is_nan a = false.
Proof.
  unfold is_nan. rewrite ltb_spec, eqb_spec. unfold SFltb, SFeqb.
  intros H.
  rewrite SFcompare_refl; [reflexivity|].
  intros E. rewrite E in H. simpl in H. discriminate.
Qed.

(** For operands that are not NaN, [a < b] fails exactly when [b <= a]. *)
Lemma ltb_false_leb (a b : float) :
  is_nan a = false -> is_nan b = false ->
  (a <? b)%float = false -> (b <=? a)%float = true.
Proof.
  unfold is_nan. rewrite ltb_spec, leb_spec, !eqb_spec.
  unfold SFltb, SFleb, SFeqb.
  destruct (Prim2SF a) as [sa | sa | | sa ma ea];
    destruct (Prim2SF b) as [sb | sb | | sb mb eb]; simpl;
    try discriminate; try reflexivity;
    try (destruct sa; destruct sb; simpl; congruence);
    try (destruct sa; simpl; congruence);
    try (destruct sb; simpl; congruence).
  intros _ _.
  rewrite (Z.compare_antisym ea eb).
  change (Pos.compare_cont Eq mb ma) with (Pos.compare mb ma).
  change (Pos.compare_cont Eq ma mb) with (Pos.compare ma mb).
  rewrite (Pos.compare_antisym ma mb).
  destruct sa, sb; try congruence;
    destruct (ea ?= eb); simpl; try congruence;
    destruct (ma ?= mb)%positive; simpl; congruence.
Qed.

Lemma leb_refl_not_nan (a : float) : is_nan a = false -> (a <=? a)%float = true.
Proof.
  unfold is_nan. rewrite leb_spec, eqb_spec. unfold SFleb, SFeqb.
  destruct (SFcompare _ _) as [[]|]; simpl; congruence.
Qed.

(** [std::max(lo, v)] is at least [lo] and is not NaN, whatever [v] is. *)
Lemma std_max_floor (lo v : float) :
  is_nan lo = false ->
  (lo <=? std_max lo v)%float = true /\ is_nan (std_max lo v) = false.
Proof.
  intros Hlo. unfold std_max. destruct (lo <? v)%float eqn:E.
  - split; [apply ltb_leb; exact E | eapply ltb_not_nan_r; exact E].
  - split; [apply leb_refl_not_nan; exact Hlo | exact Hlo].
Qed.

(** [std::clamp(v, lo, hi)] lies in [[lo, hi]] when [v] is not NaN. *)
Lemma std_clamp_range (v lo hi : float) :
  is_nan v = false -> is_nan lo = false -> is_nan hi = false ->
  (lo <=? hi)%float = true ->
  (lo <=? std_clamp v lo hi)%float = true
  /\ (std_clamp v lo hi <=? hi)%float = true.
Proof.
  intros Hv Hlo Hhi Hle. unfold std_clamp.
  destruct (v <? lo)%float eqn:E1.
  - split; [apply leb_refl_not_nan; exact Hlo | exact Hle].
  - destruct (hi <? v)%float eqn:E2.
    + split; [exact Hle | apply leb_refl_not_nan; exact Hhi].
    + split; apply ltb_false_leb; assumption.
Qed.

Lemma std_clamp_nan (lo hi : float) : std_clamp nan lo hi = nan.
Proof.
  unfold std_clamp.
  assert (H1 : (nan <? lo)%float = false).
  { rewrite ltb_spec. reflexivity. }
  assert (H2 : (hi <? nan)%float = false).
  { rewrite ltb_spec. unfold SFltb. simpl.
    destruct (Prim2SF hi); reflexivity. }
  rewrite H1, H2. reflexivity.
Qed.

(* ------------------------------------------------------------------ *)
(** ** Reading and writing arrays in sequence *)

#[local] Arguments load : simpl never.
#[local] Arguments store : simpl never.

Lemma load_app {A : Type} (front back : list A) (v : A) (i : Z) :
  i = Z.of_nat (length front) ->
  load (Some (front ++ v :: back)) i = Done v.
Proof.
  intros ->. unfold load.
  destruct (Z.ltb_spec (Z.of_nat (length front)) 0); [lia|].
  rewrite Nat2Z.id, nth_error_app2 by lia.
  rewrite Nat.sub_diag. reflexivity.
Qed.

Lemma update_app {A : Type} (pre post : list A) (x v : A) :
  update (pre ++ x :: post) (length pre) v = Some (pre ++ v :: post).
Proof.
  induction pre as [|h pre IH]; simpl; [reflexivity|].
  rewrite IH. reflexivity.
Qed.

Lemma store_app {A : Type} (pre post : list A) (x v : A) (i : Z) :
  i = Z.of_nat (length pre) ->
  store (Some (pre ++ x :: post)) i v = Done (Some (pre ++ v :: post)).
Proof.
  intros ->. unfold store.
  destruct (Z.ltb_spec (Z.of_nat (length pre)) 0); [lia|].
  rewrite Nat2Z.id, update_app. reflexivity.
Qed.

Lemma store_run_app {A : Type} (vs pre post : list A) (i : Z) :
  i = Z.of_nat (length pre) ->
  (length vs <= length post)%nat ->
  store_run (Some (pre ++ post)) i vs
  = Done (Some (pre ++ vs ++ skipn (length vs) post)).
Proof.
  revert pre post i.
  induction vs as [|v vs IH]; intros pre post i Hi Hlen; simpl.
  - reflexivity.
  - destruct post as [|x post]; simpl in Hlen; [lia|].
    rewrite (store_app pre post x v i Hi). simpl.
    replace (pre ++ v :: post) with ((pre ++ [v]) ++ post)
      by (rewrite <- app_assoc; reflexivity).
    rewrite IH.
    + rewrite <- app_assoc. reflexivity.
    + rewrite length_app. simpl. lia.
    + lia.
Qed.

Lemma load_head {A : Type} (v : A) (l : list A) :
  load (Some (v :: l)) 0 = Done v.
Proof. reflexivity. Qed.

Lemma store_head {A : Type} (x v : A) (l : list A) :
  store (Some (x :: l)) 0 v = Done (Some (v :: l)).
Proof. reflexivity. Qed.

(** A null pointer faults on the first access. *)
Lemma load_null {A : Type} (i : Z) : load (@None (list A)) i = Fault.
Proof. reflexivity. Qed.

(* ------------------------------------------------------------------ *)
(** ** The copy loop *)

Lemma copy_loop_spec (mid front back pre post : list PointData) :
  length pre = length front ->
  (length mid <= length post)%nat ->
  copy_loop (Some (front ++ mid ++ back)) (length mid)
    (Z.of_nat (length front)) (Some (pre ++ post))
  = Done (Some (pre ++ mid ++ skipn (length mid) post)).
Proof.
  revert front pre post.
  induction mid as [|m mid IH]; intros front pre post Hpre Hlen; simpl.
  - reflexivity.
  - destruct post as [|x post]; simpl in Hlen; [lia|].
    rewrite load_app by reflexivity. simpl.
    rewrite (store_app pre post x m) by lia. simpl.
    replace (front ++ m :: mid ++ back) with ((front ++ [m]) ++ mid ++ back)
      by (rewrite <- app_assoc; reflexivity).
    replace (pre ++ m :: post) with ((pre ++ [m]) ++ post)
      by (rewrite <- app_assoc; reflexivity).
    replace (Z.of_nat (length front) + 1)
      with (Z.of_nat (length (front ++ [m])))
      by (rewrite length_app; simpl; lia).
    rewrite IH.
    + rewrite <- app_assoc. reflexivity.
    + rewrite !length_app. simpl. lia.
    + lia.
Qed.

(** An array of at least [n] elements, cut after the first [n]. *)
Lemma split_at {A : Type} (l : list A) (n : nat) :
  (n <= length l)%nat ->
  l = firstn n l ++ skipn n l /\ length (firstn n l) = n.
Proof.
  intros H. split.
  - symmetry. apply firstn_skipn.
  - apply firstn_length_le. exact H.
Qed.

(* ------------------------------------------------------------------ *)
(** ** Resampling as a walk over the samples *)

Lemma spaced_walk_nil_room (spacing2 : float) (last : PointData)
    (rem : list PointData) : spaced_walk spacing2 last rem 0 = [].
Proof. induction rem; simpl; auto. Qed.

Lemma spaced_walk_spaced (spacing2 : float) (rem : list PointData) :
  forall last room, spaced_from spacing2 last (spaced_walk spacing2 last rem room).
Proof.
  induction rem as [|p rem IH]; intros last room; simpl.
  - destruct room; exact I.
  - destruct room as [|room]; [exact I|].
    destruct (spacing2 <=? _)%float eqn:E.
    + simpl. split; [exact E | apply IH].
    + apply IH.
Qed.

Lemma spaced_walk_length (spacing2 : float) (rem : list PointData) :
  forall last room,
    (length (spaced_walk spacing2 last rem room) <= room)%nat
    /\ (length (spaced_walk spacing2 last rem room) <= length rem)%nat.
Proof.
  induction rem as [|p rem IH]; intros last room; simpl.
  - destruct room; simpl; lia.
  - destruct room as [|room]; simpl; [lia|].
    destruct (spacing2 <=? _)%float.
    + simpl. destruct (IH p room). lia.
    + destruct (IH last (S room)). lia.
Qed.

Lemma resample_loop_spec (spacing2 : float) (max_output : Z)
    (rem front back : list PointData) :
  forall (out : Z) (last : PointData) (pre post : list PointData),
    out = Z.of_nat (length pre) ->
    max_output <= Z.of_nat (length pre + length post) ->
    let em := spaced_walk spacing2 last rem (Z.to_nat (max_output - out)) in
    resample_loop (Some (front ++ rem ++ back)) spacing2 max_output
      (length rem) (Z.of_nat (length front)) out last (Some (pre ++ post))
    = Done (out + Z.of_nat (length em),
            Some (pre ++ em ++ skipn (length em) post)).
Proof.
  revert front.
  induction rem as [|p rem IH]; intros front out last pre post Hout Hcap em.
  - subst em. simpl. rewrite Z.add_0_r. reflexivity.
  - subst em. cbn [resample_loop length app].
    destruct (Z.ltb_spec out max_output) as [Hlt|Hge].
    + rewrite load_app by reflexivity. cbn [bind].
      replace (Z.to_nat (max_output - out))
        with (S (Z.to_nat (max_output - (out + 1)))) by lia.
      cbn [spaced_walk].
      replace (front ++ p :: rem ++ back) with ((front ++ [p]) ++ rem ++ back)
        by (rewrite <- app_assoc; reflexivity).
      replace (Z.of_nat (length front) + 1)
        with (Z.of_nat (length (front ++ [p])))
        by (rewrite length_app; simpl; lia).
      destruct (spacing2 <=? _)%float.
      * destruct post as [|x post]; [simpl in Hcap; lia|].
        rewrite (store_app pre post x p) by exact Hout. cbn [bind].
        replace (pre ++ p :: post) with ((pre ++ [p]) ++ post)
          by (rewrite <- app_assoc; reflexivity).
        rewrite IH.
        -- cbn [length skipn]. rewrite <- app_assoc. simpl.
           f_equal. f_equal. lia.
        -- rewrite length_app. simpl. lia.
        -- rewrite length_app. simpl in *. lia.
      * replace (S (Z.to_nat (max_output - (out + 1))))
          with (Z.to_nat (max_output - out)) by lia.
        rewrite IH by assumption. reflexivity.
    + replace (Z.to_nat (max_output - out)) with O by lia.
      rewrite spaced_walk_nil_room. simpl. rewrite Z.add_0_r. reflexivity.
Qed.

(** Goals about lengths of appended lists. *)
Ltac list_len :=
  repeat (cbn [length] in *; rewrite ?length_app, ?length_skipn in *); lia.

Lemma store_next {A : Type} (pre post : list A) (v : A) (i : Z) :
  i = Z.of_nat (length pre) ->
  (0 < length post)%nat ->
  store (Some (pre ++ post)) i v = Done (Some (pre ++ v :: skipn 1 post)).
Proof.
  intros Hi Hlen. destruct post as [|x post]; simpl in Hlen; [lia|].
  simpl. apply store_app. exact Hi.
Qed.

Lemma resample_spec (spacing : float) (p0 : PointData)
    (rest back buf : list PointData) (max_output : Z) :
  rest <> [] ->
  1 <= max_output <= Z.of_nat (length buf) ->
  let em := resampled spacing p0 rest max_output in
  resample_stroke_points (Some (p0 :: rest ++ back))
    (Z.of_nat (S (length rest))) spacing (Some buf) max_output
  = Done (Z.of_nat (length em), Some (em ++ skipn (length em) buf)).
Proof.
  intros Hrest Hcap em. subst em. unfold resample_stroke_points, resampled.
  cbn [is_null orb].
  destruct (Z.leb_spec (Z.of_nat (S (length rest))) 0); [lia|].
  destruct (Z.leb_spec max_output 0); [lia|].
  destruct (Z.eqb_spec (Z.of_nat (S (length rest))) 1) as [E|_].
  { destruct rest; [congruence | simpl in E; lia]. }
  rewrite load_head. cbn [bind].
  destruct buf as [|b0 buf]; [simpl in Hcap; lia|].
  rewrite store_head. cbn [bind].
  replace (Z.to_nat (Z.of_nat (S (length rest)) - 1)) with (length rest) by lia.
  pose proof (resample_loop_spec (spacing * spacing)%float max_output rest
                [p0] back 1 p0 [p0] buf eq_refl) as HL.
  cbv zeta in HL. cbn [app length] in HL. change (Z.of_nat 1) with 1 in HL.
  rewrite HL by (simpl in Hcap; lia). clear HL.
  cbn [bind].
  set (walk := spaced_walk _ p0 rest _).
  destruct (spaced_walk_length (spacing * spacing)%float rest p0
              (Z.to_nat (max_output - 1))) as [Hroom _].
  fold walk in Hroom.
  replace (1 + Z.of_nat (length walk)) with (Z.of_nat (S (length walk))) by lia.
  destruct (Z.ltb_spec (Z.of_nat (S (length walk))) max_output) as [Hlt|Hge].
  - destruct (exists_last Hrest) as [rest' [pN ->]].
    rewrite last_last.
    replace (p0 :: (rest' ++ [pN]) ++ back) with ((p0 :: rest') ++ pN :: back)
      by (simpl; rewrite <- app_assoc; reflexivity).
    rewrite (load_app (p0 :: rest') back pN) by list_len.
    cbn [bind orb].
    change (p0 :: walk ++ skipn (length walk) buf)
      with ((p0 :: walk) ++ skipn (length walk) buf).
    rewrite (store_next (p0 :: walk) (skipn (length walk) buf) pN).
    2:{ list_len. }
    2:{ rewrite length_skipn. list_len. }
    cbn [bind]. rewrite skipn_skipn.
    f_equal. f_equal.
    + list_len.
    + f_equal. cbn [app length]. rewrite <- app_assoc. cbn [app skipn].
      rewrite length_app. cbn [length].
      replace (length walk + 1)%nat with (1 + length walk)%nat by lia.
      reflexivity.
  - rewrite app_nil_r. cbn [app length skipn orb]. reflexivity.
Qed.

(** An input array of at least [n >= 1] samples, split into its first
    sample, the rest of the first [n], and what lies beyond. *)
Lemma split_input (l : list PointData) (n : Z) :
  1 <= n <= Z.of_nat (length l) ->
  exists p0 rest back,
    l = p0 :: rest ++ back /\ n = Z.of_nat (S (length rest)).
Proof.
  intros Hn.
  destruct (split_at l (Z.to_nat n)) as [Hl Hlen]; [lia|].
  destruct (firstn (Z.to_nat n) l) as [|p0 rest] eqn:E.
  - simpl in Hlen. lia.
  - exists p0, rest, (skipn (Z.to_nat n) l). split.
    + exact Hl.
    + simpl in Hlen. lia.
Qed.

Lemma spaced_from_pairs (spacing2 : float) (l : list PointData) :
  forall last i a b,
    spaced_from spacing2 last l ->
    nth_error (last :: l) i = Some a ->
    nth_error (last :: l) (S i) = Some b ->
    (spacing2 <=? dist2 (p_x a) (p_y a) (p_x b) (p_y b))%float = true.
Proof.
  induction l as [|p l IH]; intros last i a b Hsp Ha Hb.
  - destruct i; simpl in Hb; discriminate.
  - destruct Hsp as [Hp Hl]. destruct i as [|i].
    + simpl in Ha, Hb. injection Ha as <-. injection Hb as <-. exact Hp.
    + apply (IH p i a b Hl); assumption.
Qed.

Lemma nth_error_last_app {A : Type} (l : list A) (v : A) :
  nth_error (l ++ [v]) (length (l ++ [v]) - 1) = Some v.
Proof.
  rewrite length_app. simpl.
  replace (length l + 1 - 1)%nat with (length l) by lia.
  rewrite nth_error_app2 by lia. rewrite Nat.sub_diag. reflexivity.
Qed.

Lemma resampled_props (spacing : float) (p0 : PointData)
    (rest : list PointData) (max_output : Z) :
  rest <> [] -> 1 <= max_output ->
  let em := resampled spacing p0 rest max_output in
  (1 <= length em)%nat
  /\ Z.of_nat (length em) <= max_output
  /\ nth_error em 0 = Some p0
  /\ (Z.of_nat (S (length rest)) < max_output
      \/ Z.of_nat (length em) < max_output ->
      nth_error em (length em - 1) = Some (last rest p0))
  /\ (forall i a b,
        nth_error em i = Some a -> nth_error em (S i) = Some b ->
        (S (S i) < length em)%nat ->
        ((spacing * spacing) <=? dist2 (p_x a) (p_y a) (p_x b) (p_y b))%float
        = true).
Proof.
  intros Hrest Hcap em. subst em. unfold resampled.
  set (walk := spaced_walk _ p0 rest _).
  destruct (spaced_walk_length (spacing * spacing)%float rest p0
              (Z.to_nat (max_output - 1))) as [Hroom Hlen].
  fold walk in Hroom, Hlen.
  pose proof (spaced_walk_spaced (spacing * spacing)%float rest p0
                (Z.to_nat (max_output - 1))) as Hsp.
  fold walk in Hsp.
  destruct (Z.ltb_spec (Z.of_nat (S (length walk))) max_output) as [Hlt|Hge].
  - repeat split.
    + list_len.
    + list_len.
    + intros _. rewrite app_comm_cons. apply nth_error_last_app.
    + intros i a b Ha Hb Hi.
      rewrite app_comm_cons in Ha, Hb.
      rewrite nth_error_app1 in Ha by list_len.
      rewrite nth_error_app1 in Hb by list_len.
      exact (spaced_from_pairs _ walk p0 i a b Hsp Ha Hb).
  - rewrite app_nil_r. repeat split.
    + list_len.
    + list_len.
    + intros [H|H]; list_len.
    + intros i a b Ha Hb Hi.
      exact (spaced_from_pairs _ walk p0 i a b Hsp Ha Hb).
Qed.

(* ------------------------------------------------------------------ *)
(** ** Resampling: properties *)

(** C1. Resampling the three samples (0,0), (10,0), (20,0) at spacing 5
    into a buffer of capacity 4 or more does not yield three samples: the
    walk keeps all three, and the final statement appends the last sample
    once more, so four samples are written and (20,0) appears twice. *)
Theorem resample_three_on_axis_repeats_end
    (buf : list PointData) (max_output : Z) :
  4 <= max_output <= Z.of_nat (length buf) ->
  resample_stroke_points (Some three_on_axis) 3 5 (Some buf) max_output
  = Done (4, Some (three_on_axis ++ pt 20 0 1 2 :: skipn 4 buf)).
Proof.
  intros Hcap.
  pose proof (resample_spec 5 (pt 0 0 1 0) [pt 10 0 1 1; pt 20 0 1 2] [] buf
                max_output) as H.
  cbv zeta in H. cbn [app length] in H. change (Z.of_nat 3) with 3 in H.
  unfold three_on_axis. rewrite H; [| discriminate | lia]. clear H.
  unfold resampled.
  replace (Z.to_nat (max_output - 1))
    with (S (S (S (Z.to_nat (max_output - 4))))) by lia.
  assert (E1 : ((5 * 5 <=? dist2 0 0 10 0) = true)%float) by (vm_compute; reflexivity).
  assert (E2 : ((5 * 5 <=? dist2 10 0 20 0) = true)%float) by (vm_compute; reflexivity).
  cbn [spaced_walk pt p_x p_y]. rewrite E1.
  cbn [spaced_walk pt p_x p_y]. rewrite E2.
  cbn [spaced_walk length].
  destruct (Z.ltb_spec (Z.of_nat 3) max_output); [|lia].
  reflexivity.
Qed.

Lemma resample_three_on_axis_repeats_end_witness :
  4 <= 4 <= Z.of_nat (length (repeat zero_point 4))
  /\ resample_stroke_points (Some three_on_axis) 3 5
       (Some (repeat zero_point 4)) 4
     = Done (4, Some (three_on_axis ++ pt 20 0 1 2 :: [])).
Proof.
  split.
  - simpl. lia.
  - apply (resample_three_on_axis_repeats_end (repeat zero_point 4) 4).
    simpl. lia.
Defined.

(** Two samples with different abscissae are different samples. *)
Lemma point_neq_by_x (a b : PointData) :
  Prim2SF (p_x a) <> Prim2SF (p_x b) -> a <> b.
Proof. intros H E. apply H. rewrite E. reflexivity. Qed.

(** C4, as stated, fails: with capacity 2 the walk over (0,0), (10,0),
    (20,0) at spacing 5 fills both slots with the first two samples, and
    the last input sample is not emitted. *)
Lemma resample_capacity_two_drops_last :
  resample_stroke_points (Some three_on_axis) 3 5
    (Some (repeat zero_point 2)) 2
  = Done (2, Some [pt 0 0 1 0; pt 10 0 1 1])
  /\ ~ In (pt 20 0 1 2) [pt 0 0 1 0; pt 10 0 1 1].
Proof.
  split.
  - vm_compute. reflexivity.
  - intros [H | [H | []]]; revert H; apply point_neq_by_x;
      vm_compute; discriminate.
Qed.

(* ------------------------------------------------------------------ *)
(** ** Smoothing as a pass over the interior samples *)

Lemma load_skip {A : Type} (front l : list A) (i k : Z) :
  0 <= k -> i = Z.of_nat (length front) + k ->
  load (Some (front ++ l)) i = load (Some l) k.
Proof.
  intros Hk ->. unfold load.
  destruct (Z.ltb_spec (Z.of_nat (length front) + k) 0); [lia|].
  destruct (Z.ltb_spec k 0); [lia|].
  rewrite nth_error_app2 by lia.
  replace (Z.to_nat (Z.of_nat (length front) + k) - length front)%nat
    with (Z.to_nat k) by lia.
  reflexivity.
Qed.

Lemma smoothed_length (factor inv_factor : float) (rem : list PointData) :
  forall room,
    length (smoothed factor inv_factor rem room)
    = Nat.min (length rem - 2) room.
Proof.
  induction rem as [|prev rem IH]; intros room.
  - reflexivity.
  - destruct rem as [|curr [|next rem]].
    + reflexivity.
    + reflexivity.
    + destruct room as [|room].
      * simpl. lia.
      * change (smoothed factor inv_factor (prev :: curr :: next :: rem)
                  (S room))
          with (smooth_point factor inv_factor prev curr next
                  :: smoothed factor inv_factor (curr :: next :: rem) room).
        cbn [length]. rewrite IH. cbn [length]. lia.
Qed.

Lemma smooth_loop_spec (max_output : Z) (factor inv_factor : float)
    (back : list PointData) (n : nat) :
  forall (rem front : list PointData) (out : Z) (pre post : list PointData),
    length rem = (n + 2)%nat ->
    out = Z.of_nat (length pre) ->
    max_output <= Z.of_nat (length pre + length post) ->
    let em := smoothed factor inv_factor rem (Z.to_nat (max_output - out)) in
    smooth_loop (Some (front ++ rem ++ back)) max_output factor inv_factor
      n (Z.of_nat (length front) + 1) out (Some (pre ++ post))
    = Done (out + Z.of_nat (length em),
            Some (pre ++ em ++ skipn (length em) post)).
Proof.
  induction n as [|n IH]; intros rem front out pre post Hrem Hout Hcap em;
    subst em.
  - destruct rem as [|prev [|curr [|next rem]]]; simpl in Hrem; try lia.
    simpl. rewrite Z.add_0_r. reflexivity.
  - destruct rem as [|prev [|curr [|next rem]]]; simpl in Hrem; try lia.
    cbn [smooth_loop].
    destruct (Z.ltb_spec out max_output) as [Hlt|Hge].
    + rewrite (load_skip front _ _ 0) by lia.
      rewrite (load_skip front _ _ 1) by lia.
      rewrite (load_skip front _ _ 2) by lia.
      cbn [app]. rewrite load_head.
      change (load (Some (prev :: curr :: next :: rem ++ back)) 1)
        with (Done (A := PointData) curr).
      change (load (Some (prev :: curr :: next :: rem ++ back)) 2)
        with (Done (A := PointData) next).
      cbn [bind].
      destruct post as [|x post]; [simpl in Hcap; lia|].
      rewrite (store_app pre post x _ out Hout). cbn [bind].
      replace (Z.to_nat (max_output - out))
        with (S (Z.to_nat (max_output - (out + 1)))) by lia.
      change (smoothed factor inv_factor (prev :: curr :: next :: rem)
                (S (Z.to_nat (max_output - (out + 1)))))
        with (smooth_point factor inv_factor prev curr next
                :: smoothed factor inv_factor (curr :: next :: rem)
                     (Z.to_nat (max_output - (out + 1)))).
      replace (front ++ prev :: curr :: next :: rem ++ back)
        with ((front ++ [prev]) ++ (curr :: next :: rem) ++ back)
        by (rewrite <- app_assoc; reflexivity).
      replace (Z.of_nat (length front) + 1 + 1)
        with (Z.of_nat (length (front ++ [prev])) + 1) by list_len.
      replace (pre ++ smooth_point factor inv_factor prev curr next :: post)
        with ((pre ++ [smooth_point factor inv_factor prev curr next]) ++ post)
        by (rewrite <- app_assoc; reflexivity).
      rewrite IH.
      * cbn [length skipn]. rewrite <- app_assoc. cbn [app].
        f_equal. f_equal. lia.
      * simpl. lia.
      * list_len.
      * list_len.
    + replace (Z.to_nat (max_output - out)) with O by lia.
      simpl. rewrite Z.add_0_r. reflexivity.
Qed.

(** With fewer than three samples, or no capacity, the first
    [min(input_count, max_output)] samples are copied. *)
Lemma smooth_spec_copy (l : list PointData) (input_count : Z)
    (smoothing_factor : float) (buf : list PointData) (max_output : Z) :
  input_count < 3 \/ max_output <= 0 ->
  input_count <= Z.of_nat (length l) ->
  max_output <= Z.of_nat (length buf) ->
  let c := Z.to_nat (int_min input_count max_output) in
  smooth_stroke_points (Some l) input_count smoothing_factor (Some buf)
    max_output
  = Done (int_min input_count max_output, Some (firstn c l ++ skipn c buf)).
Proof.
  intros Hsmall Hin Hcap c. unfold smooth_stroke_points.
  assert (E : (input_count <? 3) || (max_output <=? 0) = true).
  { apply orb_true_iff. destruct Hsmall; [left|right]; lia. }
  rewrite E. fold c.
  assert (Hc : (c <= length l)%nat /\ (c <= length buf)%nat).
  { subst c. unfold int_min. destruct (Z.ltb_spec max_output input_count); lia. }
  destruct Hc as [Hcl Hcb].
  destruct (split_at l c Hcl) as [Hl Hlen].
  pose proof (copy_loop_spec (firstn c l) [] (skipn c l) [] buf eq_refl) as H.
  cbn [app length] in H. rewrite Hlen, <- Hl in H.
  change (Z.of_nat 0) with 0 in H.
  rewrite H by exact Hcb. reflexivity.
Qed.

Lemma smooth_spec (smoothing_factor : float) (p0 : PointData)
    (rest back buf : list PointData) (max_output : Z) :
  (2 <= length rest)%nat ->
  1 <= max_output <= Z.of_nat (length buf) ->
  let em := smoothed_stroke smoothing_factor p0 rest max_output in
  smooth_stroke_points (Some (p0 :: rest ++ back))
    (Z.of_nat (S (length rest))) smoothing_factor (Some buf) max_output
  = Done (Z.of_nat (length em), Some (em ++ skipn (length em) buf)).
Proof.
  intros Hrest Hcap em. subst em. unfold smooth_stroke_points, smoothed_stroke.
  destruct (Z.ltb_spec (Z.of_nat (S (length rest))) 3); [lia|].
  destruct (Z.leb_spec max_output 0); [lia|].
  cbn [orb]. rewrite load_head. cbn [bind].
  destruct buf as [|b0 buf]; [simpl in Hcap; lia|].
  rewrite store_head. cbn [bind].
  set (factor := std_clamp smoothing_factor 0 1).
  pose proof (smooth_loop_spec max_output factor (1 - factor)%float back
                (length rest - 1) (p0 :: rest) [] 1 [p0] buf) as HL.
  cbv zeta in HL. cbn [app length] in HL. change (Z.of_nat 0 + 1) with 1 in HL.
  replace (Z.to_nat (Z.of_nat (S (length rest)) - 2)) with (length rest - 1)%nat
    by lia.
  rewrite HL; [| lia | reflexivity | simpl in Hcap; lia]. clear HL.
  cbn [bind].
  set (interior := smoothed factor _ (p0 :: rest) _).
  pose proof (smoothed_length factor (1 - factor)%float (p0 :: rest)
                (Z.to_nat (max_output - 1))) as Hlen.
  fold interior in Hlen. cbn [length] in Hlen.
  replace (1 + Z.of_nat (length interior))
    with (Z.of_nat (S (length interior))) by lia.
  destruct (Z.ltb_spec (Z.of_nat (S (length interior))) max_output) as [Hlt|Hge].
  - assert (Hne : rest <> []) by (destruct rest; [simpl in Hrest; lia | discriminate]).
    destruct (exists_last Hne) as [rest' [pN ->]].
    rewrite last_last.
    replace (p0 :: (rest' ++ [pN]) ++ back) with ((p0 :: rest') ++ pN :: back)
      by (simpl; rewrite <- app_assoc; reflexivity).
    rewrite (load_app (p0 :: rest') back pN) by list_len.
    cbn [bind].
    change (p0 :: interior ++ skipn (length interior) buf)
      with ((p0 :: interior) ++ skipn (length interior) buf).
    rewrite (store_next (p0 :: interior) (skipn (length interior) buf) pN).
    2:{ list_len. }
    2:{ rewrite length_skipn. list_len. }
    cbn [bind]. rewrite skipn_skipn.
    f_equal. f_equal.
    + list_len.
    + f_equal. cbn [app length]. rewrite <- app_assoc. cbn [app skipn].
      rewrite length_app. cbn [length].
      replace (length interior + 1)%nat with (1 + length interior)%nat by lia.
      reflexivity.
  - rewrite app_nil_r. cbn [app length skipn]. reflexivity.
Qed.

(* ------------------------------------------------------------------ *)
(** ** Smoothing: properties *)

(** C5, as stated, fails: three samples smoothed into a buffer of capacity
    2 give the first sample and the smoothed middle one; the last element
    of the output is not the last input sample. *)
Lemma smooth_capacity_two_drops_last :
  smooth_stroke_points (Some three_on_axis) 3 0.5
    (Some (repeat zero_point 2)) 2
  = Done (2, Some [pt 0 0 1 0; pt 10 0 1 1])
  /\ pt 10 0 1 1 <> pt 20 0 1 2.
Proof.
  split.
  - vm_compute. reflexivity.
  - apply point_neq_by_x. vm_compute. discriminate.
Qed.

(** C5, amended.  For every non-empty input and every smoothing factor,
    with a capacity of at least 1, [min(input_count, max_output)] samples
    are written and the first of them is the first input sample, field for
    field; when the capacity is at least the input count, the last of them
    is the last input sample, field for field. *)
Theorem smooth_keeps_anchors
    (l : list PointData) (input_count : Z) (smoothing_factor : float)
    (buf : list PointData) (max_output : Z) :
  1 <= input_count <= Z.of_nat (length l) ->
  1 <= max_output <= Z.of_nat (length buf) ->
  exists em : list PointData,
    smooth_stroke_points (Some l) input_count smoothing_factor (Some buf)
      max_output
    = Done (Z.of_nat (length em), Some (em ++ skipn (length em) buf))
    /\ Z.of_nat (length em) = Z.min input_count max_output
    /\ nth_error em 0 = nth_error l 0
    /\ (input_count <= max_output ->
        nth_error em (Z.to_nat (input_count - 1))
        = nth_error l (Z.to_nat (input_count - 1))).
Proof.
  intros Hin Hcap.
  destruct (Z.ltb_spec input_count 3) as [Hsmall|Hlarge].
  - (* the copy branch *)
    pose proof (smooth_spec_copy l input_count smoothing_factor buf max_output
                  (or_introl Hsmall) (proj2 Hin) (proj2 Hcap)) as H.
    cbv zeta in H.
    assert (Hmin : int_min input_count max_output = Z.min input_count max_output).
    { unfold int_min. destruct (Z.ltb_spec max_output input_count); lia. }
    rewrite Hmin in H.
    set (c := Z.to_nat (Z.min input_count max_output)) in *.
    assert (Hlen : length (firstn c l) = c) by (apply firstn_length_le; lia).
    exists (firstn c l). rewrite Hlen. repeat split.
    + rewrite H. f_equal. f_equal. lia.
    + lia.
    + rewrite nth_error_firstn.
      destruct (Nat.ltb_spec 0 c); [reflexivity | lia].
    + intros Hroom. rewrite nth_error_firstn.
      destruct (Nat.ltb_spec (Z.to_nat (input_count - 1)) c);
        [reflexivity | lia].
  - destruct (split_input l input_count Hin) as (p0 & rest & back & -> & ->).
    assert (Hrest : (2 <= length rest)%nat) by lia.
    exists (smoothed_stroke smoothing_factor p0 rest max_output).
    split; [apply smooth_spec; assumption|].
    unfold smoothed_stroke.
    set (factor := std_clamp smoothing_factor 0 1).
    set (interior := smoothed factor _ (p0 :: rest) _).
    pose proof (smoothed_length factor (1 - factor)%float (p0 :: rest)
                  (Z.to_nat (max_output - 1))) as Hlen.
    fold interior in Hlen. cbn [length] in Hlen.
    destruct (Z.ltb_spec (Z.of_nat (S (length interior))) max_output)
      as [Hlt|Hge].
    + repeat split.
      * list_len.
      * intros Hroom.
        assert (Hne : rest <> [])
          by (destruct rest; [simpl in Hrest; lia | discriminate]).
        destruct (exists_last Hne) as [rest' [pN E]].
        subst interior. subst rest.
        set (interior := smoothed factor _ _ _) in *.
        rewrite last_last.
        rewrite app_comm_cons.
        rewrite nth_error_app2 by list_len.
        replace (Z.to_nat (Z.of_nat (S (length (rest' ++ [pN]))) - 1)
                 - length (p0 :: interior))%nat with O by list_len.
        replace (p0 :: (rest' ++ [pN]) ++ back)
          with ((p0 :: rest') ++ pN :: back)
          by (simpl; rewrite <- app_assoc; reflexivity).
        rewrite nth_error_app2 by list_len.
        replace (Z.to_nat (Z.of_nat (S (length (rest' ++ [pN]))) - 1)
                 - length (p0 :: rest'))%nat with O by list_len.
        reflexivity.
    + rewrite app_nil_r. repeat split.
      * list_len.
      * intros Hroom. list_len.
Qed.

Lemma smooth_keeps_anchors_witness :
  exists em : list PointData,
    smooth_stroke_points (Some three_on_axis) 3 0.5
      (Some (repeat zero_point 3)) 3
    = Done (Z.of_nat (length em),
            Some (em ++ skipn (length em) (repeat zero_point 3)))
    /\ Z.of_nat (length em) = Z.min 3 3
    /\ nth_error em 0 = nth_error three_on_axis 0
    /\ (3 <= 3 ->
        nth_error em (Z.to_nat (3 - 1))
        = nth_error three_on_axis (Z.to_nat (3 - 1))).
Proof.
  apply (smooth_keeps_anchors three_on_axis 3 0.5 (repeat zero_point 3) 3);
    simpl; lia.
Defined.

(* ------------------------------------------------------------------ *)
(** ** Segments as pairs of consecutive samples *)

Lemma pairs_length (l : list PointData) : length (pairs l) = (length l - 1)%nat.
Proof.
  induction l as [|a [|b l] IH]; try reflexivity.
  change (pairs (a :: b :: l)) with ((a, b) :: pairs (b :: l)).
  cbn [length] in *. rewrite IH. lia.
Qed.

Lemma live_pairs_length (l : list PointData) :
  (length (live_pairs l) <= length l - 1)%nat.
Proof.
  unfold live_pairs. rewrite <- pairs_length. apply filter_length_le.
Qed.

Lemma live_pairs_cons (a b : PointData) (l : list PointData) :
  live_pairs (a :: b :: l)
  = if degenerate a b then live_pairs (b :: l)
    else (a, b) :: live_pairs (b :: l).
Proof.
  unfold live_pairs.
  change (pairs (a :: b :: l)) with ((a, b) :: pairs (b :: l)).
  cbn [filter fst snd]. destruct (degenerate a b); reflexivity.
Qed.

Lemma segments_loop_spec (max_segments : Z) (nib_dir : Vector2D.t)
    (thickness_base opacity : float) (back : list PointData) (n : nat) :
  forall (rem front : list PointData) (segment_count : Z)
         (pre post : list CalligraphySegment),
    length rem = S n ->
    segment_count = Z.of_nat (length pre) ->
    max_segments <= Z.of_nat (length pre + length post) ->
    let em :=
      map (descriptor nib_dir thickness_base opacity)
        (firstn (Z.to_nat (max_segments - segment_count)) (live_pairs rem)) in
    segments_loop (Some (front ++ rem ++ back)) max_segments nib_dir
      thickness_base opacity n (Z.of_nat (length front)) segment_count
      (Some (pre ++ post))
    = Done (segment_count + Z.of_nat (length em),
            Some (pre ++ em ++ skipn (length em) post)).
Proof.
  induction n as [|n IH];
    intros rem front sc pre post Hrem Hsc Hcap em; subst em.
  - destruct rem as [|a [|b rem]]; simpl in Hrem; try lia.
    cbn [segments_loop]. unfold live_pairs. cbn [pairs filter firstn].
    rewrite firstn_nil. simpl. rewrite Z.add_0_r. reflexivity.
  - destruct rem as [|a [|b rem]]; simpl in Hrem; try lia.
    cbn [segments_loop].
    destruct (Z.ltb_spec sc max_segments) as [Hlt|Hge].
    + rewrite (load_skip front _ _ 0) by lia.
      rewrite (load_skip front _ _ 1) by lia.
      cbn [app]. rewrite load_head.
      change (load (Some (a :: b :: rem ++ back)) 1)
        with (Done (A := PointData) b).
      cbn [bind].
      rewrite live_pairs_cons. unfold degenerate.
      replace (front ++ a :: b :: rem ++ back)
        with ((front ++ [a]) ++ (b :: rem) ++ back)
        by (rewrite <- app_assoc; reflexivity).
      replace (Z.of_nat (length front) + 1)
        with (Z.of_nat (length (front ++ [a]))) by list_len.
      destruct (_ <? 1e-12)%float.
      * rewrite IH; [reflexivity | simpl; lia | assumption | assumption].
      * destruct post as [|x post]; [simpl in Hcap; lia|].
        rewrite (store_app pre post x _ sc Hsc). cbn [bind].
        replace (Z.to_nat (max_segments - sc))
          with (S (Z.to_nat (max_segments - (sc + 1)))) by lia.
        cbn [firstn map].
        match goal with
        | |- context [pre ++ ?d :: post] =>
            replace (pre ++ d :: post) with ((pre ++ [d]) ++ post)
              by (rewrite <- app_assoc; reflexivity)
        end.
        rewrite IH.
        -- cbn [length skipn]. rewrite <- app_assoc. cbn [app].
           f_equal. f_equal. lia.
        -- simpl. lia.
        -- list_len.
        -- list_len.
    + replace (Z.to_nat (max_segments - sc)) with O by lia.
      simpl. rewrite Z.add_0_r. reflexivity.
Qed.

Lemma calculate_spec (libm_sin libm_cos : float -> float)
    (l : list PointData) (point_count : Z)
    (stroke_width opacity nib_angle_deg nib_width_factor : float)
    (buf : list CalligraphySegment) (max_segments : Z) (nib_dir : Vector2D.t) :
  2 <= point_count <= Z.of_nat (length l) ->
  1 <= max_segments <= Z.of_nat (length buf) ->
  FastTrig.nib_direction libm_sin libm_cos nib_angle_deg = Done nib_dir ->
  let em := descriptors nib_dir stroke_width opacity nib_width_factor l
              point_count max_segments in
  calculate_calligraphy_segments libm_sin libm_cos (Some l) point_count
    stroke_width opacity nib_angle_deg nib_width_factor (Some buf) max_segments
  = Done (Z.of_nat (length em), Some (em ++ skipn (length em) buf)).
Proof.
  intros Hin Hcap Hnib em. subst em.
  unfold calculate_calligraphy_segments, descriptors.
  destruct (Z.ltb_spec point_count 2); [lia|].
  destruct (Z.leb_spec max_segments 0); [lia|].
  cbn [orb]. rewrite Hnib. cbn [bind].
  destruct (split_at l (Z.to_nat point_count)) as [Hl Hlen]; [lia|].
  set (rem := firstn (Z.to_nat point_count) l) in *.
  pose proof (segments_loop_spec max_segments nib_dir
                (stroke_width * std_clamp nib_width_factor 0.3 2.5)%float
                opacity (skipn (Z.to_nat point_count) l)
                (Z.to_nat (point_count - 1)) rem [] 0 [] buf) as HL.
  cbv zeta in HL. cbn [app length] in HL. change (Z.of_nat 0) with 0 in HL.
  rewrite <- Hl in HL. rewrite Z.sub_0_r in HL.
  rewrite HL; [reflexivity | lia | reflexivity | lia].
Qed.

(* ------------------------------------------------------------------ *)
(** ** The mesh as a list of quads *)

Lemma mesh_room_full (max_vertices max_indices vcount icount : Z) :
  (max_vertices <? vcount + 4) || (max_indices <? icount + 6) = true ->
  mesh_room max_vertices max_indices vcount icount = O.
Proof.
  intros H. unfold mesh_room. apply orb_true_iff in H.
  assert (Z.min ((max_vertices - vcount) / 4) ((max_indices - icount) / 6) <= 0);
    [| lia].
  destruct H as [H | H]; apply Z.ltb_lt in H.
  - assert ((max_vertices - vcount) / 4 <= 0); [| lia].
    assert ((max_vertices - vcount) / 4 < 1); [| lia].
    apply Z.div_lt_upper_bound; lia.
  - assert ((max_indices - icount) / 6 <= 0); [| lia].
    assert ((max_indices - icount) / 6 < 1); [| lia].
    apply Z.div_lt_upper_bound; lia.
Qed.

Lemma mesh_room_next (max_vertices max_indices vcount icount : Z) :
  (max_vertices <? vcount + 4) || (max_indices <? icount + 6) = false ->
  mesh_room max_vertices max_indices vcount icount
  = S (mesh_room max_vertices max_indices (vcount + 4) (icount + 6)).
Proof.
  intros H. unfold mesh_room. apply orb_false_iff in H.
  destruct H as [Hv Hi]. apply Z.ltb_ge in Hv, Hi.
  replace (max_vertices - vcount) with ((max_vertices - (vcount + 4)) + 1 * 4)
    by lia.
  replace (max_indices - icount) with ((max_indices - (icount + 6)) + 1 * 6)
    by lia.
  rewrite !Z.div_add by lia.
  assert (0 <= (max_vertices - (vcount + 4)) / 4)
    by (apply Z.div_pos; lia).
  assert (0 <= (max_indices - (icount + 6)) / 6)
    by (apply Z.div_pos; lia).
  lia.
Qed.

Lemma index_run_length (k : nat) :
  forall vcount, length (index_run vcount k) = (6 * k)%nat.
Proof.
  induction k as [|k IH]; intros vcount; [reflexivity|].
  cbn [index_run]. rewrite length_app, IH. simpl. lia.
Qed.

Lemma quad_length (nib_dir : Vector2D.t) (thickness_base opacity : float)
    (ab : PointData * PointData) :
  length (quad nib_dir thickness_base opacity ab) = 4%nat.
Proof. reflexivity. Qed.

Lemma quads_length (nib_dir : Vector2D.t) (thickness_base opacity : float)
    (kept : list (PointData * PointData)) :
  length (flat_map (quad nib_dir thickness_base opacity) kept)
  = (4 * length kept)%nat.
Proof.
  induction kept as [|ab kept IH]; [reflexivity|].
  cbn [flat_map]. rewrite length_app, IH, quad_length. simpl. lia.
Qed.

Lemma mesh_loop_spec (max_vertices max_indices : Z) (nib_dir : Vector2D.t)
    (thickness_base opacity : float) (back : list PointData) (n : nat) :
  forall (rem front : list PointData) (vcount icount : Z)
         (vpre vpost : list Vertex2D) (ipre ipost : list Z),
    length rem = S n ->
    vcount = Z.of_nat (length vpre) ->
    icount = Z.of_nat (length ipre) ->
    max_vertices <= Z.of_nat (length vpre + length vpost) ->
    max_indices <= Z.of_nat (length ipre + length ipost) ->
    let kept :=
      firstn (mesh_room max_vertices max_indices vcount icount)
        (live_pairs rem) in
    let k := length kept in
    mesh_loop (Some (front ++ rem ++ back)) max_vertices max_indices nib_dir
      thickness_base opacity n (Z.of_nat (length front)) vcount icount
      (Some (vpre ++ vpost)) (Some (ipre ++ ipost))
    = Done (vcount + 4 * Z.of_nat k, icount + 6 * Z.of_nat k,
            Some (vpre ++ flat_map (quad nib_dir thickness_base opacity) kept
                       ++ skipn (4 * k) vpost),
            Some (ipre ++ index_run vcount k ++ skipn (6 * k) ipost)).
Proof.
  induction n as [|n IH];
    intros rem front vcount icount vpre vpost ipre ipost
           Hrem Hv Hi Hvcap Hicap kept k; subst k kept.
  - destruct rem as [|a [|b rem]]; simpl in Hrem; try lia.
    cbn [mesh_loop]. unfold live_pairs. cbn [pairs filter].
    rewrite firstn_nil. cbn [length flat_map index_run app skipn].
    rewrite !Z.add_0_r. reflexivity.
  - destruct rem as [|a [|b rem]]; simpl in Hrem; try lia.
    cbn [mesh_loop].
    rewrite (load_skip front _ _ 0) by lia.
    rewrite (load_skip front _ _ 1) by lia.
    cbn [app]. rewrite load_head.
    change (load (Some (a :: b :: rem ++ back)) 1)
      with (Done (A := PointData) b).
    cbn [bind].
    rewrite live_pairs_cons. unfold degenerate.
    replace (front ++ a :: b :: rem ++ back)
      with ((front ++ [a]) ++ (b :: rem) ++ back)
      by (rewrite <- app_assoc; reflexivity).
    replace (Z.of_nat (length front) + 1)
      with (Z.of_nat (length (front ++ [a]))) by list_len.
    destruct (_ <? 1e-12)%float.
    + rewrite IH; [reflexivity | simpl; lia | assumption ..].
    + destruct ((max_vertices <? vcount + 4) || (max_indices <? icount + 6))
        eqn:Hfull.
      * rewrite (mesh_room_full _ _ _ _ Hfull).
        cbn [firstn length flat_map index_run app skipn].
        rewrite !Z.add_0_r. reflexivity.
      * rewrite (mesh_room_next _ _ _ _ Hfull).
        apply orb_false_iff in Hfull. destruct Hfull as [Hvr Hir].
        apply Z.ltb_ge in Hvr, Hir.
        match goal with
        | |- context [store_run _ _ (quad_vertices ?a' ?b' ?t ?th ?va)] =>
            change (quad_vertices a' b' t th va)
              with (quad nib_dir thickness_base opacity (a, b))
        end.
        set (q := quad nib_dir thickness_base opacity (a, b)).
        assert (Hq : length q = 4%nat) by reflexivity.
        rewrite (store_run_app q vpre vpost vcount Hv) by list_len.
        cbn [bind].
        set (qi := quad_indices (to_unsigned vcount)).
        assert (Hqi : length qi = 6%nat) by reflexivity.
        rewrite (store_run_app qi ipre ipost icount Hi) by list_len.
        cbn [bind]. rewrite Hq, Hqi.
        rewrite (app_assoc vpre q), (app_assoc ipre qi).
        rewrite IH.
        -- cbn [firstn length flat_map index_run]. fold q. fold qi.
           set (kept := firstn _ (live_pairs (b :: rem))).
           rewrite !skipn_skipn, <- !app_assoc.
           replace (4 * length kept + 4)%nat with (4 * S (length kept))%nat
             by lia.
           replace (6 * length kept + 6)%nat with (6 * S (length kept))%nat
             by lia.
           f_equal. f_equal. f_equal. f_equal; lia.
        -- simpl. lia.
        -- list_len.
        -- list_len.
        -- rewrite length_app, length_skipn. lia.
        -- rewrite length_app, length_skipn. lia.
Qed.

Lemma mesh_spec (libm_sin libm_cos : float -> float)
    (l : list PointData) (point_count : Z)
    (stroke_width opacity nib_angle_deg nib_width_factor : float)
    (max_vertices max_indices : Z) (vs : list Vertex2D) (ixs : list Z)
    (count0 : Z) (nib_dir : Vector2D.t) :
  2 <= point_count <= Z.of_nat (length l) ->
  4 <= max_vertices <= Z.of_nat (length vs) ->
  6 <= max_indices <= Z.of_nat (length ixs) ->
  FastTrig.nib_direction libm_sin libm_cos nib_angle_deg = Done nib_dir ->
  let thickness_base :=
    (stroke_width * std_clamp nib_width_factor 0.3 2.5)%float in
  let kept := mesh_pairs l point_count max_vertices max_indices in
  let k := length kept in
  build_calligraphy_mesh libm_sin libm_cos (Some l) point_count stroke_width
    opacity nib_angle_deg nib_width_factor max_vertices max_indices
    (mkMeshOut (Some vs) (Some ixs) (Some count0))
  = Done (4 * Z.of_nat k,
          mkMeshOut
            (Some (flat_map (quad nib_dir thickness_base opacity) kept
                     ++ skipn (4 * k) vs))
            (Some (index_run 0 k ++ skipn (6 * k) ixs))
            (Some (6 * Z.of_nat k))).
Proof.
  intros Hin Hvcap Hicap Hnib thickness_base kept k. subst k kept.
  unfold build_calligraphy_mesh, mesh_pairs.
  cbn [is_null out_vertices out_indices out_index_count orb].
  destruct (Z.ltb_spec point_count 2); [lia|].
  destruct (Z.ltb_spec max_vertices 4); [lia|].
  destruct (Z.ltb_spec max_indices 6); [lia|].
  cbn [orb]. rewrite Hnib. cbn [bind].
  destruct (split_at l (Z.to_nat point_count)) as [Hl Hlen]; [lia|].
  set (rem := firstn (Z.to_nat point_count) l) in *.
  pose proof (mesh_loop_spec max_vertices max_indices nib_dir thickness_base
                opacity (skipn (Z.to_nat point_count) l)
                (Z.to_nat (point_count - 1)) rem [] 0 0 [] vs [] ixs) as HL.
  cbv zeta in HL. cbn [app length] in HL. change (Z.of_nat 0) with 0 in HL.
  rewrite <- Hl in HL.
  fold thickness_base.
  rewrite HL; [| lia | reflexivity | reflexivity | lia | lia ].
  cbn [bind]. rewrite !Z.add_0_l. reflexivity.
Qed.

(* ------------------------------------------------------------------ *)
(** ** Facts about the per-segment computations *)

Lemma segment_thickness_floor (nib_dir : Vector2D.t) (thickness_base : float)
    (seg : Vector2D.t) (length_sq : float) (a b : PointData) :
  let th := segment_thickness nib_dir thickness_base seg length_sq a b in
  (0.6 <=? th)%float = true /\ is_nan th = false.
Proof.
  unfold segment_thickness. apply std_max_floor. reflexivity.
Qed.

Lemma quad_thickness_floor (nib_dir : Vector2D.t) (thickness_base : float)
    (t : Vector2D.t) (pressure : float) :
  let th := quad_thickness nib_dir thickness_base t pressure in
  (0.6 <=? th)%float = true /\ is_nan th = false.
Proof.
  unfold quad_thickness. apply std_max_floor. reflexivity.
Qed.

(** The two copies of the thickness formula agree. *)
Lemma quad_thickness_is_segment_thickness (nib_dir : Vector2D.t)
    (thickness_base : float) (a b : PointData) :
  let seg := Vector2D.make (p_x b - p_x a)%float (p_y b - p_y a)%float in
  let len2 := Vector2D.length_squared seg in
  quad_thickness nib_dir thickness_base (Vector2D.div seg (sqrt len2))
    ((p_pressure a + p_pressure b) * 0.5)%float
  = segment_thickness nib_dir thickness_base seg len2 a b.
Proof. reflexivity. Qed.

Lemma unsigned_add_bound (v c : Z) :
  0 <= v -> 0 <= c -> 0 <= unsigned_add (to_unsigned v) c <= v + c.
Proof.
  intros Hv Hc. unfold unsigned_add, to_unsigned.
  assert (H32 : 0 < 2 ^ 32) by reflexivity.
  pose proof (Z.mod_pos_bound v (2 ^ 32) H32) as H1.
  pose proof (Z.mod_le v (2 ^ 32) Hv H32) as H2.
  pose proof (Z.mod_pos_bound (v mod 2 ^ 32 + c) (2 ^ 32) H32) as H3.
  assert (H4 : 0 <= v mod 2 ^ 32 + c) by lia.
  pose proof (Z.mod_le (v mod 2 ^ 32 + c) (2 ^ 32) H4 H32) as H5.
  lia.
Qed.

(** Every index of a run of [k] quads that starts at the vertex [vcount]
    refers to one of the [vcount + 4 * k] vertices written so far. *)
Lemma index_run_bound (k : nat) :
  forall vcount,
    0 <= vcount ->
    Forall (fun v => 0 <= v < vcount + 4 * Z.of_nat k) (index_run vcount k).
Proof.
  induction k as [|k IH]; intros vcount Hv; cbn [index_run].
  - constructor.
  - apply Forall_app. split.
    + unfold quad_indices.
      pose proof (unsigned_add_bound vcount 0 Hv) as B0.
      pose proof (unsigned_add_bound vcount 1 Hv) as B1.
      pose proof (unsigned_add_bound vcount 2 Hv) as B2.
      pose proof (unsigned_add_bound vcount 3 Hv) as B3.
      repeat constructor; lia.
    + assert (Hv' : 0 <= vcount + 4) by lia.
      specialize (IH (vcount + 4) Hv').
      eapply Forall_impl; [| exact IH]. cbv beta. intros v Hb. lia.
Qed.

(** As long as the vertex count fits an [unsigned int], no index wraps
    around: the indices of the quad over [vcount] are [vcount + 0],
    [vcount + 2], [vcount + 1], [vcount + 1], [vcount + 2], [vcount + 3]. *)
Lemma quad_indices_exact (vcount : Z) :
  0 <= vcount -> vcount + 3 < 2 ^ 32 ->
  quad_indices (to_unsigned vcount)
  = [vcount; vcount + 2; vcount + 1; vcount + 1; vcount + 2; vcount + 3].
Proof.
  intros H0 H1. unfold quad_indices, unsigned_add, to_unsigned.
  rewrite (Z.mod_small vcount) by lia.
  rewrite !Z.mod_small by lia. rewrite Z.add_0_r. reflexivity.
Qed.

(** With a library that is exact at 0, the nib at angle 0 points along the
    x axis: entry 0 of both tables is read. *)
Lemma nib_direction_zero (libm_sin libm_cos : float -> float) :
  exact_at_zero libm_sin libm_cos ->
  FastTrig.nib_direction libm_sin libm_cos 0 = Done (Vector2D.make 1 0).
Proof.
  intros [Hs Hc]. unfold FastTrig.nib_direction, FastTrig.fast_cos,
    FastTrig.fast_sin.
  assert (E : FastTrig.table_index (0 * M_PI / 180.0)%float = Done 0)
    by (vm_compute; reflexivity).
  rewrite E. cbn [bind]. unfold FastTrig.cos_table, FastTrig.sin_table.
  assert (A : FastTrig.table_angle 0 = 0%float) by (vm_compute; reflexivity).
  rewrite A, Hs, Hc. reflexivity.
Qed.

Lemma near_zero_exact : exact_at_zero sin_near_zero cos_near_zero.
Proof. split; vm_compute; reflexivity. Qed.

(* ------------------------------------------------------------------ *)
(** ** The mesh builder: properties *)

Lemma mesh_null_spec
    (libm_sin libm_cos : float -> float) (points : ptr PointData)
    (point_count : Z) (stroke_width opacity nib_angle_deg
    nib_width_factor : float) (max_vertices max_indices : Z) (m : mesh_out) :
  some_null points m ->
  build_calligraphy_mesh libm_sin libm_cos points point_count stroke_width
    opacity nib_angle_deg nib_width_factor max_vertices max_indices m
  = Done (0, m).
Proof.
  unfold some_null, build_calligraphy_mesh. intros Hnull.
  assert (E : is_null points || is_null (out_vertices m)
              || is_null (out_indices m)
              || match out_index_count m with
                 | None => true
                 | Some _ => false
                 end = true).
  { destruct Hnull as [-> | [-> | [-> | ->]]]; cbn [is_null];
      rewrite ?orb_true_r; reflexivity. }
  rewrite E. reflexivity.
Qed.

Lemma mesh_shape_spec
    (libm_sin libm_cos : float -> float) (points : ptr PointData)
    (point_count : Z) (stroke_width opacity nib_angle_deg
    nib_width_factor : float) (max_vertices max_indices : Z) (m : mesh_out) :
  ~ some_null points m ->
  point_count < 2 \/ max_vertices < 4 \/ max_indices < 6 ->
  build_calligraphy_mesh libm_sin libm_cos points point_count stroke_width
    opacity nib_angle_deg nib_width_factor max_vertices max_indices m
  = Done (0, mkMeshOut (out_vertices m) (out_indices m) (Some 0)).
Proof.
  unfold some_null, build_calligraphy_mesh. intros Hnn Hshape.
  destruct points as [l|]; [| exfalso; apply Hnn; auto].
  destruct (out_vertices m) as [vs|] eqn:Ev; [| exfalso; apply Hnn; auto].
  destruct (out_indices m) as [ixs|] eqn:Ei; [| exfalso; apply Hnn; auto].
  destruct (out_index_count m) as [c|] eqn:Ec;
    [| exfalso; apply Hnn; auto 6].
  cbn [is_null orb].
  assert (E : (point_count <? 2) || (max_vertices <? 4)
              || (max_indices <? 6) = true).
  { rewrite !orb_true_iff. rewrite !Z.ltb_lt. tauto. }
  rewrite E. reflexivity.
Qed.

(** C10. With a null pointer argument the mesh builder returns 0 and
    leaves all three out-parameters as they were, the cell behind
    [out_index_count] included when that pointer is not null; with no null
    pointer and a shape failure ([point_count < 2], [max_vertices < 4] or
    [max_indices < 6]) it returns 0 and sets that cell to 0. *)
Theorem mesh_null_keeps_index_count
    (libm_sin libm_cos : float -> float) (points : ptr PointData)
    (point_count : Z) (stroke_width opacity nib_angle_deg
    nib_width_factor : float) (max_vertices max_indices : Z) (m : mesh_out) :
  (some_null points m ->
   build_calligraphy_mesh libm_sin libm_cos points point_count stroke_width
     opacity nib_angle_deg nib_width_factor max_vertices max_indices m
   = Done (0, m))
  /\ (~ some_null points m ->
      point_count < 2 \/ max_vertices < 4 \/ max_indices < 6 ->
      build_calligraphy_mesh libm_sin libm_cos points point_count stroke_width
        opacity nib_angle_deg nib_width_factor max_vertices max_indices m
      = Done (0, mkMeshOut (out_vertices m) (out_indices m) (Some 0))).
Proof.
  split; [apply mesh_null_spec | apply mesh_shape_spec].
Qed.

Lemma mesh_null_keeps_index_count_witness :
  build_calligraphy_mesh sin_near_zero cos_near_zero None 2 1 1 0 1 4 6
    (mkMeshOut (Some (repeat zero_vertex 4)) (Some (repeat 9 6)) (Some 7))
  = Done (0, mkMeshOut (Some (repeat zero_vertex 4)) (Some (repeat 9 6))
               (Some 7))
  /\ build_calligraphy_mesh sin_near_zero cos_near_zero (Some two_on_axis)
       1 1 1 0 1 4 6
       (mkMeshOut (Some (repeat zero_vertex 4)) (Some (repeat 9 6)) (Some 7))
     = Done (0, mkMeshOut (Some (repeat zero_vertex 4)) (Some (repeat 9 6))
                  (Some 0)).
Proof.
  split.
  - apply (proj1 (mesh_null_keeps_index_count sin_near_zero cos_near_zero
                    None 2 1 1 0 1 4 6
                    (mkMeshOut (Some (repeat zero_vertex 4))
                       (Some (repeat 9 6)) (Some 7)))).
    left. reflexivity.
  - apply (proj2 (mesh_null_keeps_index_count sin_near_zero cos_near_zero
                    (Some two_on_axis) 1 1 1 0 1 4 6
                    (mkMeshOut (Some (repeat zero_vertex 4))
                       (Some (repeat 9 6)) (Some 7)))).
    + unfold some_null. cbn. intros [H | [H | [H | H]]]; discriminate.
    + left. lia.
Defined.

Lemma mesh_pairs_fit (l : list PointData) (point_count max_vertices
    max_indices : Z) :
  0 <= max_vertices -> 0 <= max_indices ->
  4 * Z.of_nat (length (mesh_pairs l point_count max_vertices max_indices))
  <= max_vertices
  /\ 6 * Z.of_nat (length (mesh_pairs l point_count max_vertices max_indices))
     <= max_indices.
Proof.
  intros Hv Hi. unfold mesh_pairs.
  set (k := length (firstn _ _)).
  assert (Hk : (k <= mesh_room max_vertices max_indices 0 0)%nat)
    by apply firstn_le_length.
  unfold mesh_room in Hk. rewrite !Z.sub_0_r in Hk.
  pose proof (Z.mul_div_le max_vertices 4 ltac:(lia)).
  pose proof (Z.mul_div_le max_indices 6 ltac:(lia)).
  pose proof (Z.div_pos max_vertices 4 Hv ltac:(lia)).
  pose proof (Z.div_pos max_indices 6 Hi ltac:(lia)).
  lia.
Qed.

(* ------------------------------------------------------------------ *)
(** ** Opacity and thickness: properties *)

(** C2, as stated, fails: at nib angle 0 the segment calculator, given the
    opacity 2, stores 2 in the descriptor, and 2 is not at most 1.  (The
    thickness stored is the floor 0.6.) *)
Lemma segment_opacity_not_clamped :
  (forall libm_sin libm_cos : float -> float,
     exact_at_zero libm_sin libm_cos ->
     calculate_calligraphy_segments libm_sin libm_cos (Some two_on_axis) 2
       1 2 0 1 (Some [zero_segment]) 1
     = Done (1, Some [mkSegment 0 0 10 0 0.6 2]))
  /\ (2 <=? 1)%float = false.
Proof.
  split; [| vm_compute; reflexivity].
  intros libm_sin libm_cos Hlibm.
  pose proof (calculate_spec libm_sin libm_cos two_on_axis 2 1 2 0 1
                [zero_segment] 1 (Vector2D.make 1 0)) as H.
  cbv zeta in H. rewrite H.
  - vm_compute. reflexivity.
  - simpl. lia.
  - simpl. lia.
  - apply nib_direction_zero. exact Hlibm.
Qed.

Lemma quad_alpha (nib_dir : Vector2D.t) (thickness_base opacity : float)
    (ab : PointData * PointData) :
  Forall
    (fun v =>
       v_alpha v
       = std_clamp
           (opacity * ((p_pressure (fst ab) + p_pressure (snd ab)) * 0.5))%float
           0 1)
    (quad nib_dir thickness_base opacity ab).
Proof. unfold quad, quad_vertices. repeat constructor. Qed.

(** C7, as stated, fails: the inputs below are finite and the segment is
    not degenerate, yet the stroke width 1e308 times the width factor 2.5
    overflows, and the thickness stored is +infinity. *)
Lemma thickness_overflows_to_infinity :
  (forall libm_sin libm_cos : float -> float,
     exact_at_zero libm_sin libm_cos ->
     calculate_calligraphy_segments libm_sin libm_cos (Some two_on_axis) 2
       1e308 1 0 2.5 (Some [zero_segment]) 1
     = Done (1, Some [mkSegment 0 0 10 0 infinity 1]))
  /\ is_finite 1e308%float = true
  /\ is_finite infinity = false.
Proof.
  split; [| split; vm_compute; reflexivity].
  intros libm_sin libm_cos Hlibm.
  pose proof (calculate_spec libm_sin libm_cos two_on_axis 2 1e308 1 0 2.5
                [zero_segment] 1 (Vector2D.make 1 0)) as H.
  cbv zeta in H. rewrite H.
  - vm_compute. reflexivity.
  - simpl. lia.
  - simpl. lia.
  - apply nib_direction_zero. exact Hlibm.
Qed.

(* ------------------------------------------------------------------ *)
(** ** The two builders agree on the segments and their thickness *)

Lemma firstn_enough {A : Type} (l : list A) (n : nat) :
  (length l <= n)%nat -> firstn n l = l.
Proof. apply firstn_all2. Qed.

Lemma quad_corners (nib_dir : Vector2D.t) (thickness_base opacity : float)
    (ab : PointData * PointData) :
  map position (quad nib_dir thickness_base opacity ab)
  = corners_of_descriptor (descriptor nib_dir thickness_base opacity ab).
Proof. reflexivity. Qed.

Lemma quads_corners (nib_dir : Vector2D.t) (thickness_base opacity : float)
    (kept : list (PointData * PointData)) :
  map position (flat_map (quad nib_dir thickness_base opacity) kept)
  = flat_map corners_of_descriptor
      (map (descriptor nib_dir thickness_base opacity) kept).
Proof.
  induction kept as [|ab kept IH]; [reflexivity|].
  cbn [flat_map map]. rewrite map_app, IH, quad_corners. reflexivity.
Qed.

(** C9. With the same stroke and parameters, and capacities that hold
    every non-degenerate segment, both builders process the same list of
    pairs of consecutive samples, those whose squared length is not below
    1e-12, in order: descriptor [i] and quad [i] belong to pair [i].  The
    thickness the mesh builder computes for a pair is the thickness field
    of the descriptor of that pair, and the corners of quad [i] are the
    end points of descriptor [i] moved by half of its thickness field to
    either side. *)
Theorem builders_agree_on_thickness
    (libm_sin libm_cos : float -> float) (l : list PointData)
    (point_count : Z) (stroke_width opacity nib_angle_deg
    nib_width_factor : float) (sbuf : list CalligraphySegment)
    (max_segments : Z) (vs : list Vertex2D) (ixs : list Z)
    (count0 max_vertices max_indices : Z) (nib_dir : Vector2D.t) :
  2 <= point_count <= Z.of_nat (length l) ->
  1 <= max_segments <= Z.of_nat (length sbuf) ->
  4 <= max_vertices <= Z.of_nat (length vs) ->
  6 <= max_indices <= Z.of_nat (length ixs) ->
  Z.of_nat (length (live_pairs (firstn (Z.to_nat point_count) l)))
  <= Z.min max_segments (Z.min (max_vertices / 4) (max_indices / 6)) ->
  FastTrig.nib_direction libm_sin libm_cos nib_angle_deg = Done nib_dir ->
  let thickness_base :=
    (stroke_width * std_clamp nib_width_factor 0.3 2.5)%float in
  let kept := live_pairs (firstn (Z.to_nat point_count) l) in
  let segs := map (descriptor nib_dir thickness_base opacity) kept in
  let verts := flat_map (quad nib_dir thickness_base opacity) kept in
  calculate_calligraphy_segments libm_sin libm_cos (Some l) point_count
    stroke_width opacity nib_angle_deg nib_width_factor (Some sbuf)
    max_segments
  = Done (Z.of_nat (length kept), Some (segs ++ skipn (length kept) sbuf))
  /\ build_calligraphy_mesh libm_sin libm_cos (Some l) point_count
       stroke_width opacity nib_angle_deg nib_width_factor max_vertices
       max_indices (mkMeshOut (Some vs) (Some ixs) (Some count0))
     = Done (4 * Z.of_nat (length kept),
             mkMeshOut (Some (verts ++ skipn (4 * length kept) vs))
               (Some (index_run 0 (length kept)
                        ++ skipn (6 * length kept) ixs))
               (Some (6 * Z.of_nat (length kept))))
  /\ Forall
       (fun ab =>
          mesh_thickness nib_dir thickness_base ab
          = s_thickness (descriptor nib_dir thickness_base opacity ab))
       kept
  /\ map position verts = flat_map corners_of_descriptor segs.
Proof.
  intros Hin Hscap Hvcap Hicap Hroom Hnib thickness_base kept segs verts.
  assert (Hk1 : (length kept <= Z.to_nat max_segments)%nat) by (subst kept; lia).
  assert (Hk2 : (length kept <= mesh_room max_vertices max_indices 0 0)%nat).
  { unfold mesh_room. rewrite !Z.sub_0_r. subst kept. lia. }
  split; [| split; [| split]].
  - pose proof (calculate_spec libm_sin libm_cos l point_count stroke_width
                  opacity nib_angle_deg nib_width_factor sbuf max_segments
                  nib_dir Hin Hscap Hnib) as H.
    cbv zeta in H. unfold descriptors in H. fold thickness_base kept in H.
    rewrite (firstn_enough kept _ Hk1) in H. fold segs in H.
    rewrite H. subst segs. rewrite length_map. reflexivity.
  - pose proof (mesh_spec libm_sin libm_cos l point_count stroke_width
                  opacity nib_angle_deg nib_width_factor max_vertices
                  max_indices vs ixs count0 nib_dir Hin Hvcap Hicap Hnib) as H.
    cbv zeta in H. unfold mesh_pairs in H. fold thickness_base kept in H.
    rewrite (firstn_enough kept _ Hk2) in H. exact H.
  - apply Forall_forall. intros ab _. reflexivity.
  - apply quads_corners.
Qed.

Lemma builders_agree_on_thickness_witness :
  let nib_dir := Vector2D.make 1 0 in
  let thickness_base := (3 * std_clamp 1 0.3 2.5)%float in
  let kept := live_pairs (firstn (Z.to_nat 3) three_on_axis) in
  let segs := map (descriptor nib_dir thickness_base 1) kept in
  let verts := flat_map (quad nib_dir thickness_base 1) kept in
  calculate_calligraphy_segments sin_near_zero cos_near_zero
    (Some three_on_axis) 3 3 1 0 1 (Some (repeat zero_segment 2)) 2
  = Done (Z.of_nat (length kept),
          Some (segs ++ skipn (length kept) (repeat zero_segment 2)))
  /\ build_calligraphy_mesh sin_near_zero cos_near_zero (Some three_on_axis)
       3 3 1 0 1 8 12
       (mkMeshOut (Some (repeat zero_vertex 8)) (Some (repeat 0 12)) (Some 0))
     = Done (4 * Z.of_nat (length kept),
             mkMeshOut
               (Some (verts ++ skipn (4 * length kept) (repeat zero_vertex 8)))
               (Some (index_run 0 (length kept)
                        ++ skipn (6 * length kept) (repeat 0 12)))
               (Some (6 * Z.of_nat (length kept))))
  /\ Forall
       (fun ab =>
          mesh_thickness nib_dir thickness_base ab
          = s_thickness (descriptor nib_dir thickness_base 1 ab))
       kept
  /\ map position verts = flat_map corners_of_descriptor segs.
Proof.
  apply (builders_agree_on_thickness sin_near_zero cos_near_zero
           three_on_axis 3 3 1 0 1 (repeat zero_segment 2) 2
           (repeat zero_vertex 8) (repeat 0 12) 0 8 12 (Vector2D.make 1 0)).
  - simpl. lia.
  - simpl. lia.
  - simpl. lia.
  - simpl. lia.
  - apply Z.leb_le. vm_compute. reflexivity.
  - vm_compute. reflexivity.
Defined.

(* ------------------------------------------------------------------ *)
(** ** Simplification of three samples *)

Lemma rdp_unfold (pts : list PointData) (eps2 : float) (fuel : nat)
    (s e : Z) (out : list PointData) :
  rdp pts eps2 (S fuel) s e out
  = if e <=? s + 1 then Done out
    else
      A <- at_ pts s ;;
      B <- at_ pts e ;;
      let vx := (p_x B - p_x A)%float in
      let vy := (p_y B - p_y A)%float in
      let vlen2 := (vx * vx + vy * vy)%float in
      r <- rdp_scan pts A vx vy vlen2 (Z.to_nat (e - (s + 1))) (s + 1)
             (-1) 0%float ;;
      let '(idx, maxd) := r in
      if (eps2 <? maxd)%float && negb (idx =? -1) then
        out <- rdp pts eps2 fuel s idx out ;;
        P <- at_ pts idx ;;
        rdp pts eps2 fuel idx e (out ++ [P])
      else Done out.
Proof. reflexivity. Qed.

(** A range without interior samples adds nothing, whatever the fuel. *)
Lemma rdp_short (pts : list PointData) (eps2 : float) (fuel : nat)
    (s e : Z) (out : list PointData) :
  e <= s + 1 -> rdp pts eps2 fuel s e out = Done out.
Proof.
  intros H. destruct fuel; [reflexivity|].
  rewrite rdp_unfold. destruct (Z.leb_spec e (s + 1)); [reflexivity | lia].
Qed.


(** The scan either keeps the index it was given or returns one of the
    indices it visited. *)
Lemma rdp_scan_index (pts : list PointData) (A : PointData)
    (vx vy vlen2 : float) (n : nat) :
  forall (i idx : Z) (maxd : float) (idx' : Z) (maxd' : float),
    rdp_scan pts A vx vy vlen2 n i idx maxd = Done (idx', maxd') ->
    idx' = idx \/ i <= idx' < i + Z.of_nat n.
Proof.
  induction n as [|n IH]; intros i idx maxd idx' maxd' H.
  - simpl in H. injection H as <- _. left. reflexivity.
  - cbn [rdp_scan] in H. destruct (at_ pts i) as [P|]; [| discriminate].
    cbn [bind] in H.
    destruct (maxd <? _)%float; apply IH in H; lia.
Qed.

(** The fuel [simplify_stroke_rdp] passes is enough: once the fuel covers
    the width of the range, more fuel does not change the result. *)
Lemma rdp_fuel_enough (pts : list PointData) (eps2 : float) (fuel : nat) :
  forall (s e : Z) (out : list PointData),
    e - s <= Z.of_nat fuel ->
    rdp pts eps2 (S fuel) s e out = rdp pts eps2 fuel s e out.
Proof.
  induction fuel as [|fuel IH]; intros s e out Hw.
  - rewrite !rdp_short by lia. reflexivity.
  - rewrite (rdp_unfold pts eps2 (S fuel)), (rdp_unfold pts eps2 fuel).
    destruct (Z.leb_spec e (s + 1)) as [|Hlong]; [reflexivity|].
    destruct (at_ pts s) as [A|]; [| reflexivity].
    destruct (at_ pts e) as [B|]; [| reflexivity].
    cbn [bind]. cbv zeta.
    destruct (rdp_scan pts A _ _ _ _ _ _ _) as [[idx maxd]|] eqn:Escan;
      [| reflexivity].
    cbn [bind].
    destruct ((eps2 <? maxd)%float && negb (idx =? -1)) eqn:Ekeep;
      [| reflexivity].
    apply andb_true_iff in Ekeep. destruct Ekeep as [_ Hidx].
    apply negb_true_iff, Z.eqb_neq in Hidx.
    apply rdp_scan_index in Escan.
    assert (Hrange : s + 1 <= idx < e) by lia.
    rewrite (IH s idx out) by lia.
    destruct (rdp pts eps2 fuel s idx out) as [out'|]; [| reflexivity].
    cbn [bind]. destruct (at_ pts idx) as [P|]; [| reflexivity].
    cbn [bind]. apply IH. lia.
Qed.


(* ------------------------------------------------------------------ *)
(** ** Simplification: properties *)


(* ------------------------------------------------------------------ *)
(** ** Invalid arguments *)

(** The operations that test their pointers return 0 and write nothing
    when an argument is invalid. *)
Lemma resample_guard (input_points : ptr PointData) (input_count : Z)
    (spacing : float) (output_points : ptr PointData) (max_output : Z) :
  input_points = None \/ output_points = None \/ input_count <= 0
  \/ max_output <= 0 ->
  resample_stroke_points input_points input_count spacing output_points
    max_output
  = Done (0, output_points).
Proof.
  intros H. unfold resample_stroke_points.
  assert (E : is_null input_points || is_null output_points
              || (input_count <=? 0) || (max_output <=? 0) = true).
  { rewrite !orb_true_iff, !Z.leb_le.
    destruct H as [-> | [-> | [H | H]]]; auto. }
  rewrite E. reflexivity.
Qed.

Lemma velocity_guard (points : ptr PointData) (point_count : Z)
    (out_velocities : ptr float) (max_output : Z) :
  points = None \/ out_velocities = None \/ point_count < 2
  \/ max_output <= 0 ->
  compute_stroke_velocity points point_count out_velocities max_output
  = Done (0, out_velocities).
Proof.
  intros H. unfold compute_stroke_velocity.
  assert (E : is_null points || is_null out_velocities
              || (point_count <? 2) || (max_output <=? 0) = true).
  { rewrite !orb_true_iff, Z.leb_le, Z.ltb_lt.
    destruct H as [-> | [-> | [H | H]]]; auto. }
  rewrite E. reflexivity.
Qed.

Lemma simplify_guard (input_points : ptr PointData) (input_count : Z)
    (epsilon : float) (output_points : ptr PointData) (max_output : Z) :
  input_points = None \/ output_points = None \/ input_count = 0
  \/ max_output <= 0 ->
  simplify_stroke_rdp input_points input_count epsilon output_points
    max_output
  = Done (0, output_points).
Proof.
  intros H. unfold simplify_stroke_rdp.
  assert (E : is_null input_points || is_null output_points
              || (input_count =? 0) || (max_output <=? 0) = true).
  { rewrite !orb_true_iff, Z.leb_le, Z.eqb_eq.
    destruct H as [-> | [-> | [H | H]]]; auto. }
  rewrite E. reflexivity.
Qed.

(** The segment calculator and the smoothing filter test the counts only. *)
Lemma calculate_guard (libm_sin libm_cos : float -> float)
    (points : ptr PointData) (point_count : Z)
    (stroke_width opacity nib_angle_deg nib_width_factor : float)
    (output_segments : ptr CalligraphySegment) (max_segments : Z) :
  point_count < 2 \/ max_segments <= 0 ->
  calculate_calligraphy_segments libm_sin libm_cos points point_count
    stroke_width opacity nib_angle_deg nib_width_factor output_segments
    max_segments
  = Done (0, output_segments).
Proof.
  intros H. unfold calculate_calligraphy_segments.
  assert (E : (point_count <? 2) || (max_segments <=? 0) = true).
  { rewrite orb_true_iff, Z.leb_le, Z.ltb_lt. exact H. }
  rewrite E. reflexivity.
Qed.

(** With a null input and counts that pass the tests, the segment
    calculator reads through the null pointer. *)
Lemma calculate_null_input (libm_sin libm_cos : float -> float)
    (point_count : Z)
    (stroke_width opacity nib_angle_deg nib_width_factor : float)
    (output_segments : ptr CalligraphySegment) (max_segments : Z) :
  2 <= point_count -> 1 <= max_segments ->
  calculate_calligraphy_segments libm_sin libm_cos None point_count
    stroke_width opacity nib_angle_deg nib_width_factor output_segments
    max_segments
  = Fault.
Proof.
  intros Hp Hm. unfold calculate_calligraphy_segments.
  destruct (Z.ltb_spec point_count 2); [lia|].
  destruct (Z.leb_spec max_segments 0); [lia|].
  cbn [orb].
  destruct (FastTrig.nib_direction _ _ _) as [nib_dir|]; [| reflexivity].
  cbn [bind].
  destruct (Z.to_nat (point_count - 1)) as [|n] eqn:E; [lia|].
  cbn [segments_loop].
  destruct (Z.ltb_spec 0 max_segments); [| lia].
  reflexivity.
Qed.

(** C3 fails on the code.  [smooth_stroke_points] returns the negative
    count it was given instead of 0, and faults on a null input or a null
    output; [simplify_stroke_rdp] returns a negative count as well;
    [calculate_calligraphy_segments] faults on a null input and on a null
    output.  The other operations test for all of this first. *)
Theorem invalid_arguments_not_rejected :
  smooth_stroke_points (Some three_on_axis) (-1) 0.5
    (Some (repeat zero_point 3)) 3
  = Done (-1, Some (repeat zero_point 3))
  /\ smooth_stroke_points (Some three_on_axis) 3 0.5
       (Some (repeat zero_point 3)) (-2)
     = Done (-2, Some (repeat zero_point 3))
  /\ smooth_stroke_points None 1 0.5 (Some (repeat zero_point 3)) 3 = Fault
  /\ smooth_stroke_points (Some three_on_axis) 3 0.5 None 3 = Fault
  /\ simplify_stroke_rdp (Some three_on_axis) (-1) 1
       (Some (repeat zero_point 3)) 3
     = Done (-1, Some (repeat zero_point 3))
  /\ (forall libm_sin libm_cos : float -> float,
        calculate_calligraphy_segments libm_sin libm_cos None 2 1 1 0 1
          (Some [zero_segment]) 1
        = Fault)
  /\ (forall libm_sin libm_cos : float -> float,
        calculate_calligraphy_segments libm_sin libm_cos (Some two_on_axis)
          2 1 1 0 1 None 1
        = Fault).
Proof.
  split; [vm_compute; reflexivity|].
  split; [vm_compute; reflexivity|].
  split; [vm_compute; reflexivity|].
  split; [vm_compute; reflexivity|].
  split; [vm_compute; reflexivity|].
  split.
  - intros libm_sin libm_cos. apply calculate_null_input; lia.
  - intros libm_sin libm_cos. vm_compute. reflexivity.
Qed.

(* ------------------------------------------------------------------ *)
(** ** Finite values and coincident samples *)

Lemma is_finite_shape (v : float) :
  is_finite v = true ->
  (exists s, Prim2SF v = S754_zero s)
  \/ (exists s m e, Prim2SF v = S754_finite s m e).
Proof.
  unfold is_finite, is_nan, is_infinity. rewrite !eqb_spec, abs_spec.
  unfold SFeqb. intros H.
  destruct (Prim2SF v) as [s | s | | s m e] eqn:E.
  - left. exists s. reflexivity.
  - exfalso. destruct s; vm_compute in H; discriminate.
  - exfalso. vm_compute in H. discriminate.
  - right. exists s, m, e. reflexivity.
Qed.

(** A finite value minus itself is [+0]. *)
Lemma sub_self (v : float) : is_finite v = true -> (v - v)%float = 0%float.
Proof.
  intros H. apply Prim2SF_inj. rewrite sub_spec.
  change (Prim2SF 0) with (S754_zero false).
  destruct (is_finite_shape v H) as [[s E] | (s & m & e & E)]; rewrite E.
  - destruct s; reflexivity.
  - unfold SF64sub, SFsub. rewrite Z.min_id.
    unfold shl_align. rewrite Z.sub_diag. cbn [fst].
    rewrite ?Z.sub_diag. reflexivity.
Qed.

(** A sample with finite coordinates is coincident with itself: the
    segment from it to itself is skipped. *)
Lemma degenerate_self (a : PointData) :
  is_finite (p_x a) = true -> is_finite (p_y a) = true ->
  degenerate a a = true.
Proof.
  intros Hx Hy. unfold degenerate.
  rewrite (sub_self _ Hx), (sub_self _ Hy). vm_compute. reflexivity.
Qed.

(* ------------------------------------------------------------------ *)
(** ** Velocities *)

Lemma pairs_cons (a b : PointData) (l : list PointData) :
  pairs (a :: b :: l) = (a, b) :: pairs (b :: l).
Proof. reflexivity. Qed.

Lemma nth_error_pairs (l : list PointData) :
  forall (k : nat) (a b : PointData),
    nth_error l k = Some a -> nth_error l (S k) = Some b ->
    nth_error (pairs l) k = Some (a, b).
Proof.
  induction l as [|x l IH]; intros k a b Ha Hb.
  - destruct k; discriminate.
  - destruct l as [|y l]; [destruct k; discriminate|].
    rewrite pairs_cons. destruct k as [|k].
    + simpl in Ha, Hb. injection Ha as <-. injection Hb as <-. reflexivity.
    + apply (IH k a b); assumption.
Qed.

Lemma pairs_nth_error (l : list PointData) :
  forall (k : nat) (a b : PointData),
    nth_error (pairs l) k = Some (a, b) ->
    nth_error l k = Some a /\ nth_error l (S k) = Some b.
Proof.
  induction l as [|x l IH]; intros k a b H.
  - destruct k; discriminate.
  - destruct l as [|y l]; [destruct k; discriminate|].
    rewrite pairs_cons in H. destruct k as [|k].
    + simpl in H. injection H as <- <-. split; reflexivity.
    + apply (IH k a b). exact H.
Qed.

Lemma velocity_loop_spec (max_output : Z) (back : list PointData) (n : nat) :
  forall (rem front : list PointData) (out : Z) (pre post : list float),
    length rem = S n ->
    out = Z.of_nat (length pre) ->
    max_output <= Z.of_nat (length pre + length post) ->
    let em :=
      map velocity_of (firstn (Z.to_nat (max_output - out)) (pairs rem)) in
    velocity_loop (Some (front ++ rem ++ back)) max_output n
      (Z.of_nat (length front) + 1) out (Some (pre ++ post))
    = Done (out + Z.of_nat (length em),
            Some (pre ++ em ++ skipn (length em) post)).
Proof.
  induction n as [|n IH]; intros rem front out pre post Hrem Hout Hcap em;
    subst em.
  - destruct rem as [|a [|b rem]]; simpl in Hrem; try lia.
    cbn [velocity_loop pairs]. rewrite firstn_nil. simpl.
    rewrite Z.add_0_r. reflexivity.
  - destruct rem as [|a [|b rem]]; simpl in Hrem; try lia.
    cbn [velocity_loop].
    destruct (Z.ltb_spec out max_output) as [Hlt|Hge].
    + rewrite (load_skip front _ _ 0) by lia.
      rewrite (load_skip front _ _ 1) by lia.
      cbn [app]. rewrite load_head.
      change (load (Some (a :: b :: rem ++ back)) 1)
        with (Done (A := PointData) b).
      cbn [bind].
      destruct post as [|x post]; [simpl in Hcap; lia|].
      rewrite (store_app pre post x _ out Hout). cbn [bind].
      rewrite pairs_cons.
      replace (Z.to_nat (max_output - out))
        with (S (Z.to_nat (max_output - (out + 1)))) by lia.
      cbn [firstn map].
      replace (front ++ a :: b :: rem ++ back)
        with ((front ++ [a]) ++ (b :: rem) ++ back)
        by (rewrite <- app_assoc; reflexivity).
      replace (Z.of_nat (length front) + 1 + 1)
        with (Z.of_nat (length (front ++ [a])) + 1) by list_len.
      match goal with
      | |- context [pre ++ ?d :: post] =>
          replace (pre ++ d :: post) with ((pre ++ [d]) ++ post)
            by (rewrite <- app_assoc; reflexivity)
      end.
      rewrite IH.
      * cbn [length skipn]. rewrite <- app_assoc. cbn [app].
        f_equal. f_equal. lia.
      * simpl. lia.
      * list_len.
      * list_len.
    + replace (Z.to_nat (max_output - out)) with O by lia.
      simpl. rewrite Z.add_0_r. reflexivity.
Qed.

Lemma velocity_spec (l : list PointData) (point_count : Z)
    (buf : list float) (max_output : Z) :
  2 <= point_count <= Z.of_nat (length l) ->
  1 <= max_output <= Z.of_nat (length buf) ->
  let em :=
    map velocity_of
      (firstn (Z.to_nat max_output)
         (pairs (firstn (Z.to_nat point_count) l))) in
  compute_stroke_velocity (Some l) point_count (Some buf) max_output
  = Done (Z.of_nat (length em), Some (em ++ skipn (length em) buf)).
Proof.
  intros Hin Hcap em. subst em. unfold compute_stroke_velocity.
  cbn [is_null orb].
  destruct (Z.ltb_spec point_count 2); [lia|].
  destruct (Z.leb_spec max_output 0); [lia|].
  cbn [orb].
  destruct (split_at l (Z.to_nat point_count)) as [Hl Hlen]; [lia|].
  set (rem := firstn (Z.to_nat point_count) l) in *.
  pose proof (velocity_loop_spec max_output
                (skipn (Z.to_nat point_count) l)
                (Z.to_nat (point_count - 1)) rem [] 0 [] buf) as HL.
  cbv zeta in HL. cbn [app length] in HL. change (Z.of_nat 0 + 1) with 1 in HL.
  rewrite <- Hl in HL. rewrite Z.sub_0_r in HL.
  rewrite HL; [reflexivity | lia | reflexivity | lia].
Qed.

(** Pair [k] of the first [m] pairs of the first [n] samples of [l]. *)
Lemma kept_pairs_nth (l : list PointData) (n m k : nat)
    (a b : PointData) :
  (k < length (firstn m (pairs (firstn n l))))%nat ->
  nth_error l k = Some a -> nth_error l (S k) = Some b ->
  nth_error (firstn m (pairs (firstn n l))) k = Some (a, b).
Proof.
  intros Hk Ha Hb.
  assert (Hn : (S k < n)%nat).
  { rewrite length_firstn, pairs_length, length_firstn in Hk. lia. }
  rewrite length_firstn in Hk.
  rewrite nth_error_firstn.
  destruct (Nat.ltb_spec k m); [| lia].
  apply nth_error_pairs; rewrite nth_error_firstn.
  - destruct (Nat.ltb_spec k n); [exact Ha | lia].
  - destruct (Nat.ltb_spec (S k) n); [exact Hb | lia].
Qed.

Lemma kept_pairs_length (l : list PointData) (n m : nat) :
  (n <= length l)%nat ->
  length (firstn m (pairs (firstn n l))) = Nat.min m (n - 1).
Proof.
  intros H. rewrite length_firstn, pairs_length, firstn_length_le by exact H.
  reflexivity.
Qed.

(** X1. Given valid arrays, two or more samples and a capacity of at
    least 1, [compute_stroke_velocity] writes
    [min(point_count - 1, max_output)] velocities at the front of the
    buffer and leaves the rest of it as it was; velocity [k] is the
    distance between samples [k] and [k + 1] over their time difference
    floored to 1e-6. *)
Theorem velocity_per_pair
    (l : list PointData) (point_count : Z) (buf : list float)
    (max_output : Z) :
  2 <= point_count <= Z.of_nat (length l) ->
  1 <= max_output <= Z.of_nat (length buf) ->
  exists em : list float,
    compute_stroke_velocity (Some l) point_count (Some buf) max_output
    = Done (Z.of_nat (length em), Some (em ++ skipn (length em) buf))
    /\ Z.of_nat (length em) = Z.min (point_count - 1) max_output
    /\ (forall (k : nat) (a b : PointData),
          (k < length em)%nat ->
          nth_error l k = Some a -> nth_error l (S k) = Some b ->
          nth_error em k
          = Some (sqrt (dist2 (p_x a) (p_y a) (p_x b) (p_y b))
                  / std_max 1e-6 (p_timestamp b - p_timestamp a))%float).
Proof.
  intros Hin Hcap.
  set (kept := firstn (Z.to_nat max_output)
                 (pairs (firstn (Z.to_nat point_count) l))).
  exists (map velocity_of kept).
  split; [apply velocity_spec; assumption|].
  rewrite length_map. split.
  - subst kept. rewrite kept_pairs_length by lia. lia.
  - intros k a b Hk Ha Hb. rewrite nth_error_map.
    subst kept. rewrite (kept_pairs_nth l _ _ k a b Hk Ha Hb). reflexivity.
Qed.

Lemma velocity_per_pair_witness :
  exists em : list float,
    compute_stroke_velocity (Some three_on_axis) 3 (Some (repeat 0%float 4)) 4
    = Done (Z.of_nat (length em),
            Some (em ++ skipn (length em) (repeat 0%float 4)))
    /\ Z.of_nat (length em) = Z.min (3 - 1) 4
    /\ (forall (k : nat) (a b : PointData),
          (k < length em)%nat ->
          nth_error three_on_axis k = Some a ->
          nth_error three_on_axis (S k) = Some b ->
          nth_error em k
          = Some (sqrt (dist2 (p_x a) (p_y a) (p_x b) (p_y b))
                  / std_max 1e-6 (p_timestamp b - p_timestamp a))%float).
Proof.
  apply (velocity_per_pair three_on_axis 3 (repeat 0%float 4) 4);
    simpl; lia.
Defined.

(* ------------------------------------------------------------------ *)
(** ** Subsequences *)

Lemma subsequence_refl {A : Type} (l : list A) : subsequence l l.
Proof. induction l; constructor; assumption. Qed.

Lemma subsequence_trans {A : Type} (l3 : list A) :
  forall l1 l2, subsequence l1 l2 -> subsequence l2 l3 -> subsequence l1 l3.
Proof.
  induction l3 as [|z l3 IH]; intros l1 l2 H12 H23.
  - inversion H23; subst. inversion H12; subst. constructor.
  - inversion H23; subst.
    + inversion H12; subst. constructor.
    + inversion H12; subst.
      * constructor.
      * constructor. eapply IH; eassumption.
      * apply subsequence_skip. eapply IH; eassumption.
    + apply subsequence_skip. eapply IH; eassumption.
Qed.

Lemma subsequence_filter {A : Type} (f : A -> bool) (l : list A) :
  subsequence (filter f l) l.
Proof.
  induction l as [|x l IH]; simpl; [constructor|].
  destruct (f x); constructor; assumption.
Qed.

Lemma subsequence_firstn {A : Type} (l : list A) :
  forall n, subsequence (firstn n l) l.
Proof.
  induction l as [|x l IH]; intros [|n]; simpl; constructor. apply IH.
Qed.

Lemma subsequence_map {A B : Type} (g : A -> B) (s l : list A) :
  subsequence s l -> subsequence (map g s) (map g l).
Proof. induction 1; simpl; constructor; assumption. Qed.

Lemma subsequence_app {A : Type} (s1 l1 s2 l2 : list A) :
  subsequence s1 l1 -> subsequence s2 l2 ->
  subsequence (s1 ++ s2) (l1 ++ l2).
Proof.
  intros H1 H2. induction H1; simpl.
  - induction l as [|x l IH]; simpl; [exact H2|].
    apply subsequence_skip. exact IH.
  - constructor. assumption.
  - apply subsequence_skip. assumption.
Qed.

Lemma subsequence_length {A : Type} (s l : list A) :
  subsequence s l -> (length s <= length l)%nat.
Proof. induction 1; simpl; lia. Qed.

Lemma subsequence_In {A : Type} (s l : list A) (x : A) :
  subsequence s l -> In x s -> In x l.
Proof.
  induction 1; intros Hin.
  - destruct Hin.
  - destruct Hin as [-> | Hin]; [left; reflexivity | right; auto].
  - right. auto.
Qed.

(* ------------------------------------------------------------------ *)
(** ** The segment calculator: further properties *)

Lemma live_pairs_subsequence (l : list PointData) :
  subsequence (live_pairs l) (pairs l).
Proof. apply subsequence_filter. Qed.

(** A live pair of the first [n] samples of [l] is a pair of consecutive
    samples of [l] that is not degenerate. *)
Lemma live_pair_consecutive (l : list PointData) (n : nat)
    (a b : PointData) :
  In (a, b) (live_pairs (firstn n l)) ->
  degenerate a b = false
  /\ exists k : nat,
       (S k < n)%nat /\ nth_error l k = Some a /\ nth_error l (S k) = Some b.
Proof.
  unfold live_pairs. intros H. apply filter_In in H. destruct H as [Hin Hlive].
  cbn [fst snd] in Hlive. apply negb_true_iff in Hlive.
  split; [exact Hlive|].
  apply In_nth_error in Hin. destruct Hin as [k Hk].
  apply pairs_nth_error in Hk. destruct Hk as [Ha Hb].
  rewrite nth_error_firstn in Ha, Hb.
  destruct (Nat.ltb_spec (S k) n); [| discriminate].
  destruct (Nat.ltb_spec k n); [| discriminate].
  exists k. auto.
Qed.

(** X3. Given valid arrays and a defined nib direction, the segment
    calculator returns [min(N, max_segments)] descriptors, [N] being the
    number of pairs of consecutive samples that are not degenerate, and it
    truncates without reordering: what it writes with a smaller capacity is
    a prefix of what it writes with a larger one. *)
Theorem segments_count_and_prefix
    (libm_sin libm_cos : float -> float) (l : list PointData)
    (point_count : Z) (stroke_width opacity nib_angle_deg
    nib_width_factor : float) (nib_dir : Vector2D.t)
    (buf1 buf2 : list CalligraphySegment) (max1 max2 : Z) :
  2 <= point_count <= Z.of_nat (length l) ->
  FastTrig.nib_direction libm_sin libm_cos nib_angle_deg = Done nib_dir ->
  1 <= max1 <= Z.of_nat (length buf1) ->
  max1 <= max2 <= Z.of_nat (length buf2) ->
  exists segs1 segs2 : list CalligraphySegment,
    calculate_calligraphy_segments libm_sin libm_cos (Some l) point_count
      stroke_width opacity nib_angle_deg nib_width_factor (Some buf1) max1
    = Done (Z.of_nat (length segs1), Some (segs1 ++ skipn (length segs1) buf1))
    /\ calculate_calligraphy_segments libm_sin libm_cos (Some l) point_count
         stroke_width opacity nib_angle_deg nib_width_factor (Some buf2) max2
       = Done (Z.of_nat (length segs2),
               Some (segs2 ++ skipn (length segs2) buf2))
    /\ Z.of_nat (length segs1)
       = Z.min (Z.of_nat (length (live_pairs (firstn (Z.to_nat point_count) l))))
           max1
    /\ segs1 = firstn (length segs1) segs2.
Proof.
  intros Hin Hnib Hc1 Hc2.
  exists (descriptors nib_dir stroke_width opacity nib_width_factor l
            point_count max1),
    (descriptors nib_dir stroke_width opacity nib_width_factor l
       point_count max2).
  split; [apply calculate_spec; assumption|].
  split; [apply calculate_spec; (assumption || lia)|].
  unfold descriptors.
  set (live := live_pairs (firstn (Z.to_nat point_count) l)).
  set (f := descriptor nib_dir _ opacity).
  rewrite !length_map, length_firstn. split; [lia|].
  rewrite firstn_map, firstn_firstn. f_equal.
  destruct (Nat.le_gt_cases (Z.to_nat max1) (length live)) as [Hle|Hgt].
  - f_equal. lia.
  - rewrite (firstn_all2 (n := Z.to_nat max1)) by lia.
    symmetry. apply firstn_all2. lia.
Qed.

Lemma segments_count_and_prefix_witness :
  exists segs1 segs2 : list CalligraphySegment,
    calculate_calligraphy_segments sin_near_zero cos_near_zero
      (Some three_on_axis) 3 1 1 0 1 (Some (repeat zero_segment 1)) 1
    = Done (Z.of_nat (length segs1),
            Some (segs1 ++ skipn (length segs1) (repeat zero_segment 1)))
    /\ calculate_calligraphy_segments sin_near_zero cos_near_zero
         (Some three_on_axis) 3 1 1 0 1 (Some (repeat zero_segment 3)) 3
       = Done (Z.of_nat (length segs2),
               Some (segs2 ++ skipn (length segs2) (repeat zero_segment 3)))
    /\ Z.of_nat (length segs1)
       = Z.min (Z.of_nat (length (live_pairs (firstn (Z.to_nat 3)
                                                three_on_axis))))
           1
    /\ segs1 = firstn (length segs1) segs2.
Proof.
  apply (segments_count_and_prefix sin_near_zero cos_near_zero three_on_axis
           3 1 1 0 1 (Vector2D.make 1 0)).
  - simpl. lia.
  - vm_compute. reflexivity.
  - simpl. lia.
  - simpl. lia.
Defined.

(** X4. Every descriptor the segment calculator writes joins two
    consecutive input samples (its end points are theirs) whose squared
    distance is not below 1e-12, and the descriptors are written in stroke
    order: they form a subsequence of the descriptors of all consecutive
    pairs. *)
Theorem segments_join_consecutive_samples
    (libm_sin libm_cos : float -> float) (l : list PointData)
    (point_count : Z) (stroke_width opacity nib_angle_deg
    nib_width_factor : float) (nib_dir : Vector2D.t)
    (sbuf : list CalligraphySegment) (max_segments : Z) :
  2 <= point_count <= Z.of_nat (length l) ->
  1 <= max_segments <= Z.of_nat (length sbuf) ->
  FastTrig.nib_direction libm_sin libm_cos nib_angle_deg = Done nib_dir ->
  exists segs : list CalligraphySegment,
    calculate_calligraphy_segments libm_sin libm_cos (Some l) point_count
      stroke_width opacity nib_angle_deg nib_width_factor (Some sbuf)
      max_segments
    = Done (Z.of_nat (length segs), Some (segs ++ skipn (length segs) sbuf))
    /\ Forall
         (fun s =>
            exists (k : nat) (a b : PointData),
              Z.of_nat (S k) < point_count
              /\ nth_error l k = Some a /\ nth_error l (S k) = Some b
              /\ s_x1 s = p_x a /\ s_y1 s = p_y a
              /\ s_x2 s = p_x b /\ s_y2 s = p_y b
              /\ (dist2 (p_x a) (p_y a) (p_x b) (p_y b) <? 1e-12)%float
                 = false)
         segs
    /\ subsequence segs
         (map (descriptor nib_dir
                 (stroke_width * std_clamp nib_width_factor 0.3 2.5)%float
                 opacity)
            (pairs (firstn (Z.to_nat point_count) l))).
Proof.
  intros Hin Hcap Hnib.
  exists (descriptors nib_dir stroke_width opacity nib_width_factor l
            point_count max_segments).
  split; [apply calculate_spec; assumption|].
  unfold descriptors. split.
  - apply Forall_map. apply Forall_forall. intros [a b] Hab.
    assert (Hlive : In (a, b) (live_pairs (firstn (Z.to_nat point_count) l))).
    { eapply subsequence_In; [apply subsequence_firstn | exact Hab]. }
    apply live_pair_consecutive in Hlive.
    destruct Hlive as [Hdeg (k & Hk & Ha & Hb)].
    exists k, a, b. repeat split; try assumption; try reflexivity.
    lia.
  - apply subsequence_map.
    eapply subsequence_trans;
      [apply subsequence_firstn | apply live_pairs_subsequence].
Qed.

Lemma segments_join_consecutive_samples_witness :
  exists segs : list CalligraphySegment,
    calculate_calligraphy_segments sin_near_zero cos_near_zero
      (Some three_on_axis) 3 1 1 0 1 (Some (repeat zero_segment 2)) 2
    = Done (Z.of_nat (length segs),
            Some (segs ++ skipn (length segs) (repeat zero_segment 2)))
    /\ Forall
         (fun s =>
            exists (k : nat) (a b : PointData),
              Z.of_nat (S k) < 3
              /\ nth_error three_on_axis k = Some a
              /\ nth_error three_on_axis (S k) = Some b
              /\ s_x1 s = p_x a /\ s_y1 s = p_y a
              /\ s_x2 s = p_x b /\ s_y2 s = p_y b
              /\ (dist2 (p_x a) (p_y a) (p_x b) (p_y b) <? 1e-12)%float
                 = false)
         segs
    /\ subsequence segs
         (map (descriptor (Vector2D.make 1 0) (1 * std_clamp 1 0.3 2.5)%float
                 1)
            (pairs (firstn (Z.to_nat 3) three_on_axis))).
Proof.
  apply (segments_join_consecutive_samples sin_near_zero cos_near_zero
           three_on_axis 3 1 1 0 1 (Vector2D.make 1 0)
           (repeat zero_segment 2) 2).
  - simpl. lia.
  - simpl. lia.
  - vm_compute. reflexivity.
Defined.

(* ------------------------------------------------------------------ *)
(** ** The mesh builder: further properties *)

Lemma index_run_exact (k : nat) :
  forall j0 : nat,
    4 * Z.of_nat (j0 + k) <= 2 ^ 32 ->
    index_run (4 * Z.of_nat j0) k = flat_map triangles (seq j0 k).
Proof.
  induction k as [|k IH]; intros j0 Hfit; [reflexivity|].
  cbn [index_run seq flat_map].
  rewrite quad_indices_exact by lia.
  replace (4 * Z.of_nat j0 + 4) with (4 * Z.of_nat (S j0)) by lia.
  rewrite IH by (replace (S j0 + k)%nat with (j0 + S k)%nat by lia; exact Hfit).
  reflexivity.
Qed.

Lemma mesh_pairs_length (l : list PointData) (point_count max_vertices
    max_indices : Z) :
  0 <= max_vertices -> 0 <= max_indices ->
  Z.of_nat (length (mesh_pairs l point_count max_vertices max_indices))
  = Z.min (Z.of_nat (length (live_pairs (firstn (Z.to_nat point_count) l))))
      (Z.min (max_vertices / 4) (max_indices / 6)).
Proof.
  intros Hv Hi. unfold mesh_pairs, mesh_room.
  rewrite length_firstn, !Z.sub_0_r.
  pose proof (Z.div_pos max_vertices 4 Hv ltac:(lia)).
  pose proof (Z.div_pos max_indices 6 Hi ltac:(lia)).
  lia.
Qed.

(** X5. Given valid arrays and a defined nib direction, the mesh builder
    emits [min(N, max_vertices / 4, max_indices / 6)] quads, [N] being the
    number of pairs of consecutive samples that are not degenerate: it
    returns four times that many vertices and reports six times that many
    indices. *)
Theorem mesh_quad_count
    (libm_sin libm_cos : float -> float) (l : list PointData)
    (point_count : Z) (stroke_width opacity nib_angle_deg
    nib_width_factor : float) (max_vertices max_indices : Z)
    (vs : list Vertex2D) (ixs : list Z) (count0 : Z) (nib_dir : Vector2D.t) :
  2 <= point_count <= Z.of_nat (length l) ->
  4 <= max_vertices <= Z.of_nat (length vs) ->
  6 <= max_indices <= Z.of_nat (length ixs) ->
  FastTrig.nib_direction libm_sin libm_cos nib_angle_deg = Done nib_dir ->
  exists (quads : Z) (m : mesh_out),
    build_calligraphy_mesh libm_sin libm_cos (Some l) point_count stroke_width
      opacity nib_angle_deg nib_width_factor max_vertices max_indices
      (mkMeshOut (Some vs) (Some ixs) (Some count0))
    = Done (4 * quads, m)
    /\ out_index_count m = Some (6 * quads)
    /\ quads
       = Z.min (Z.of_nat (length (live_pairs (firstn (Z.to_nat point_count) l))))
           (Z.min (max_vertices / 4) (max_indices / 6)).
Proof.
  intros Hin Hv Hi Hnib.
  pose proof (mesh_spec libm_sin libm_cos l point_count stroke_width opacity
                nib_angle_deg nib_width_factor max_vertices max_indices
                vs ixs count0 nib_dir Hin Hv Hi Hnib) as H.
  cbv zeta in H.
  exists (Z.of_nat (length (mesh_pairs l point_count max_vertices
                              max_indices))).
  eexists. split; [exact H|]. split; [reflexivity|].
  apply mesh_pairs_length; lia.
Qed.

Lemma mesh_quad_count_witness :
  exists (quads : Z) (m : mesh_out),
    build_calligraphy_mesh sin_near_zero cos_near_zero (Some three_on_axis) 3
      1 1 0 1 7 13
      (mkMeshOut (Some (repeat zero_vertex 7)) (Some (repeat 0 13)) (Some 0))
    = Done (4 * quads, m)
    /\ out_index_count m = Some (6 * quads)
    /\ quads
       = Z.min (Z.of_nat (length (live_pairs (firstn (Z.to_nat 3)
                                                three_on_axis))))
           (Z.min (7 / 4) (13 / 6)).
Proof.
  apply (mesh_quad_count sin_near_zero cos_near_zero three_on_axis 3
           1 1 0 1 7 13 (repeat zero_vertex 7) (repeat 0 13) 0
           (Vector2D.make 1 0)).
  - simpl. lia.
  - simpl. lia.
  - simpl. lia.
  - vm_compute. reflexivity.
Defined.

(** X6. For a vertex capacity in the range of [int], no index wraps
    around: the indices the mesh builder writes for quad number [j] are
    [4j, 4j+2, 4j+1] and [4j+1, 4j+2, 4j+3], one quad after the other. *)
Theorem mesh_triangle_indices
    (libm_sin libm_cos : float -> float) (l : list PointData)
    (point_count : Z) (stroke_width opacity nib_angle_deg
    nib_width_factor : float) (max_vertices max_indices : Z)
    (vs : list Vertex2D) (ixs : list Z) (count0 : Z) (nib_dir : Vector2D.t) :
  2 <= point_count <= Z.of_nat (length l) ->
  4 <= max_vertices <= Z.of_nat (length vs) ->
  max_vertices <= INT_MAX ->
  6 <= max_indices <= Z.of_nat (length ixs) ->
  FastTrig.nib_direction libm_sin libm_cos nib_angle_deg = Done nib_dir ->
  exists (k : nat) (m : mesh_out),
    build_calligraphy_mesh libm_sin libm_cos (Some l) point_count stroke_width
      opacity nib_angle_deg nib_width_factor max_vertices max_indices
      (mkMeshOut (Some vs) (Some ixs) (Some count0))
    = Done (4 * Z.of_nat k, m)
    /\ out_indices m
       = Some (flat_map triangles (seq 0 k) ++ skipn (6 * k) ixs).
Proof.
  intros Hin Hv Hint Hi Hnib.
  pose proof (mesh_spec libm_sin libm_cos l point_count stroke_width opacity
                nib_angle_deg nib_width_factor max_vertices max_indices
                vs ixs count0 nib_dir Hin Hv Hi Hnib) as H.
  cbv zeta in H.
  set (kept := mesh_pairs l point_count max_vertices max_indices) in *.
  exists (length kept). eexists. split; [exact H|].
  cbn [out_indices].
  pose proof (mesh_pairs_fit l point_count max_vertices max_indices
                ltac:(lia) ltac:(lia)) as [Hfit _].
  fold kept in Hfit. unfold INT_MAX in Hint.
  change 0 with (4 * Z.of_nat 0).
  rewrite index_run_exact; [reflexivity|].
  change (2 ^ 32) with 4294967296. simpl (0 + _)%nat. lia.
Qed.

Lemma mesh_triangle_indices_witness :
  exists (k : nat) (m : mesh_out),
    build_calligraphy_mesh sin_near_zero cos_near_zero (Some three_on_axis) 3
      1 1 0 1 8 12
      (mkMeshOut (Some (repeat zero_vertex 8)) (Some (repeat 0 12)) (Some 0))
    = Done (4 * Z.of_nat k, m)
    /\ out_indices m
       = Some (flat_map triangles (seq 0 k) ++ skipn (6 * k) (repeat 0 12)).
Proof.
  apply (mesh_triangle_indices sin_near_zero cos_near_zero three_on_axis 3
           1 1 0 1 8 12 (repeat zero_vertex 8) (repeat 0 12) 0
           (Vector2D.make 1 0)).
  - simpl. lia.
  - simpl. lia.
  - unfold INT_MAX. lia.
  - simpl. lia.
  - vm_compute. reflexivity.
Defined.

Lemma quad_is_ribbon (nib_dir : Vector2D.t) (thickness_base opacity : float)
    (ab : PointData * PointData) :
  ribbon_quad (fst ab) (snd ab) (quad nib_dir thickness_base opacity ab).
Proof.
  unfold ribbon_quad, quad, quad_vertices.
  eexists. eexists. eexists. reflexivity.
Qed.

(** X7. The vertices the mesh builder writes come in groups of four, one
    group for each emitted segment in stroke order; the four vertices of a
    group carry one and the same alpha and are the start sample and the end
    sample of the segment, each moved by the same offset to either side;
    and every such segment joins two consecutive input samples whose
    squared distance is not below 1e-12. *)
Theorem mesh_quads_follow_stroke
    (libm_sin libm_cos : float -> float) (l : list PointData)
    (point_count : Z) (stroke_width opacity nib_angle_deg
    nib_width_factor : float) (max_vertices max_indices : Z)
    (vs : list Vertex2D) (ixs : list Z) (count0 : Z) (nib_dir : Vector2D.t) :
  2 <= point_count <= Z.of_nat (length l) ->
  4 <= max_vertices <= Z.of_nat (length vs) ->
  6 <= max_indices <= Z.of_nat (length ixs) ->
  FastTrig.nib_direction libm_sin libm_cos nib_angle_deg = Done nib_dir ->
  exists (kept : list (PointData * PointData)) (quads : list (list Vertex2D))
         (m : mesh_out),
    build_calligraphy_mesh libm_sin libm_cos (Some l) point_count stroke_width
      opacity nib_angle_deg nib_width_factor max_vertices max_indices
      (mkMeshOut (Some vs) (Some ixs) (Some count0))
    = Done (4 * Z.of_nat (length kept), m)
    /\ out_vertices m = Some (concat quads ++ skipn (4 * length kept) vs)
    /\ Forall2 (fun ab q => ribbon_quad (fst ab) (snd ab) q) kept quads
    /\ subsequence kept (pairs (firstn (Z.to_nat point_count) l))
    /\ Forall
         (fun ab =>
            (dist2 (p_x (fst ab)) (p_y (fst ab)) (p_x (snd ab))
               (p_y (snd ab)) <? 1e-12)%float = false)
         kept.
Proof.
  intros Hin Hv Hi Hnib.
  pose proof (mesh_spec libm_sin libm_cos l point_count stroke_width opacity
                nib_angle_deg nib_width_factor max_vertices max_indices
                vs ixs count0 nib_dir Hin Hv Hi Hnib) as H.
  cbv zeta in H.
  set (kept := mesh_pairs l point_count max_vertices max_indices) in *.
  set (tb := (stroke_width * std_clamp nib_width_factor 0.3 2.5)%float) in *.
  exists kept, (map (quad nib_dir tb opacity) kept). eexists.
  split; [exact H|]. cbn [out_vertices].
  split; [rewrite flat_map_concat_map; reflexivity|].
  split; [| split].
  - clear H. induction kept as [|ab kept IH]; constructor.
    + apply quad_is_ribbon.
    + exact IH.
  - subst kept. unfold mesh_pairs.
    eapply subsequence_trans;
      [apply subsequence_firstn | apply live_pairs_subsequence].
  - apply Forall_forall. intros [a b] Hab.
    assert (Hlive : In (a, b) (live_pairs (firstn (Z.to_nat point_count) l))).
    { eapply subsequence_In; [apply subsequence_firstn | exact Hab]. }
    apply live_pair_consecutive in Hlive. exact (proj1 Hlive).
Qed.

Lemma mesh_quads_follow_stroke_witness :
  exists (kept : list (PointData * PointData)) (quads : list (list Vertex2D))
         (m : mesh_out),
    build_calligraphy_mesh sin_near_zero cos_near_zero (Some three_on_axis) 3
      1 1 0 1 8 12
      (mkMeshOut (Some (repeat zero_vertex 8)) (Some (repeat 0 12)) (Some 0))
    = Done (4 * Z.of_nat (length kept), m)
    /\ out_vertices m
       = Some (concat quads ++ skipn (4 * length kept) (repeat zero_vertex 8))
    /\ Forall2 (fun ab q => ribbon_quad (fst ab) (snd ab) q) kept quads
    /\ subsequence kept (pairs (firstn (Z.to_nat 3) three_on_axis))
    /\ Forall
         (fun ab =>
            (dist2 (p_x (fst ab)) (p_y (fst ab)) (p_x (snd ab))
               (p_y (snd ab)) <? 1e-12)%float = false)
         kept.
Proof.
  apply (mesh_quads_follow_stroke sin_near_zero cos_near_zero three_on_axis 3
           1 1 0 1 8 12 (repeat zero_vertex 8) (repeat 0 12) 0
           (Vector2D.make 1 0)).
  - simpl. lia.
  - simpl. lia.
  - simpl. lia.
  - vm_compute. reflexivity.
Defined.

(* ------------------------------------------------------------------ *)
(** ** A repeated sample changes nothing *)

Lemma live_pairs_repeat (a : PointData) (back : list PointData) :
  degenerate a a = true ->
  forall front : list PointData,
    live_pairs (front ++ a :: a :: back) = live_pairs (front ++ a :: back).
Proof.
  intros Hdeg front. induction front as [|x front IH].
  - cbn [app]. rewrite live_pairs_cons, Hdeg. reflexivity.
  - destruct front as [|y front].
    + cbn [app] in *. rewrite (live_pairs_cons x a (a :: back)).
      rewrite IH. destruct back as [|b back].
      * unfold live_pairs at 3. cbn [pairs filter fst snd].
        unfold live_pairs. cbn [pairs filter].
        destruct (degenerate x a); reflexivity.
      * rewrite (live_pairs_cons x a (b :: back)). reflexivity.
    + cbn [app] in *. rewrite !(live_pairs_cons x y). rewrite IH.
      reflexivity.
Qed.

Lemma firstn_length_all {A : Type} (l : list A) :
  firstn (Z.to_nat (Z.of_nat (length l))) l = l.
Proof. rewrite Nat2Z.id. apply firstn_all. Qed.

(** X8. A sample with finite coordinates that occurs twice in a row makes
    no difference to the segment calculator: the stroke with the repeated
    sample yields the same count and the same buffer contents as the
    stroke without it. *)
Theorem segments_ignore_repeated_sample
    (libm_sin libm_cos : float -> float) (front back : list PointData)
    (a : PointData) (stroke_width opacity nib_angle_deg
    nib_width_factor : float) (nib_dir : Vector2D.t)
    (sbuf : list CalligraphySegment) (max_segments : Z) :
  is_finite (p_x a) = true -> is_finite (p_y a) = true ->
  (2 <= length (front ++ a :: back))%nat ->
  1 <= max_segments <= Z.of_nat (length sbuf) ->
  FastTrig.nib_direction libm_sin libm_cos nib_angle_deg = Done nib_dir ->
  calculate_calligraphy_segments libm_sin libm_cos
    (Some (front ++ a :: a :: back))
    (Z.of_nat (length (front ++ a :: a :: back)))
    stroke_width opacity nib_angle_deg nib_width_factor (Some sbuf)
    max_segments
  = calculate_calligraphy_segments libm_sin libm_cos
      (Some (front ++ a :: back)) (Z.of_nat (length (front ++ a :: back)))
      stroke_width opacity nib_angle_deg nib_width_factor (Some sbuf)
      max_segments.
Proof.
  intros Hx Hy Hlen Hcap Hnib.
  assert (Hlen2 : (2 <= length (front ++ a :: a :: back))%nat) by list_len.
  rewrite (calculate_spec libm_sin libm_cos (front ++ a :: a :: back) _
             stroke_width opacity nib_angle_deg nib_width_factor sbuf
             max_segments nib_dir) by (assumption || lia).
  rewrite (calculate_spec libm_sin libm_cos (front ++ a :: back) _
             stroke_width opacity nib_angle_deg nib_width_factor sbuf
             max_segments nib_dir) by (assumption || lia).
  unfold descriptors. rewrite !firstn_length_all.
  rewrite (live_pairs_repeat a back (degenerate_self a Hx Hy) front).
  reflexivity.
Qed.

Lemma segments_ignore_repeated_sample_witness :
  calculate_calligraphy_segments sin_near_zero cos_near_zero
    (Some ([pt 0 0 1 0] ++ pt 10 0 1 1 :: pt 10 0 1 1 :: [pt 20 0 1 2]))
    (Z.of_nat (length ([pt 0 0 1 0] ++ pt 10 0 1 1 :: pt 10 0 1 1
                         :: [pt 20 0 1 2])))
    1 1 0 1 (Some (repeat zero_segment 3)) 3
  = calculate_calligraphy_segments sin_near_zero cos_near_zero
      (Some ([pt 0 0 1 0] ++ pt 10 0 1 1 :: [pt 20 0 1 2]))
      (Z.of_nat (length ([pt 0 0 1 0] ++ pt 10 0 1 1 :: [pt 20 0 1 2])))
      1 1 0 1 (Some (repeat zero_segment 3)) 3.
Proof.
  apply (segments_ignore_repeated_sample sin_near_zero cos_near_zero
           [pt 0 0 1 0] [pt 20 0 1 2] (pt 10 0 1 1) 1 1 0 1
           (Vector2D.make 1 0) (repeat zero_segment 3) 3).
  - vm_compute. reflexivity.
  - vm_compute. reflexivity.
  - simpl. lia.
  - simpl. lia.
  - vm_compute. reflexivity.
Defined.

(** X9. A sample with finite coordinates that occurs twice in a row makes
    no difference to the mesh builder either: same vertex count, same
    vertices, same indices and same index count as for the stroke without
    the repetition. *)
Theorem mesh_ignores_repeated_sample
    (libm_sin libm_cos : float -> float) (front back : list PointData)
    (a : PointData) (stroke_width opacity nib_angle_deg
    nib_width_factor : float) (nib_dir : Vector2D.t)
    (max_vertices max_indices : Z) (vs : list Vertex2D) (ixs : list Z)
    (count0 : Z) :
  is_finite (p_x a) = true -> is_finite (p_y a) = true ->
  (2 <= length (front ++ a :: back))%nat ->
  4 <= max_vertices <= Z.of_nat (length vs) ->
  6 <= max_indices <= Z.of_nat (length ixs) ->
  FastTrig.nib_direction libm_sin libm_cos nib_angle_deg = Done nib_dir ->
  build_calligraphy_mesh libm_sin libm_cos
    (Some (front ++ a :: a :: back))
    (Z.of_nat (length (front ++ a :: a :: back)))
    stroke_width opacity nib_angle_deg nib_width_factor max_vertices
    max_indices (mkMeshOut (Some vs) (Some ixs) (Some count0))
  = build_calligraphy_mesh libm_sin libm_cos
      (Some (front ++ a :: back)) (Z.of_nat (length (front ++ a :: back)))
      stroke_width opacity nib_angle_deg nib_width_factor max_vertices
      max_indices (mkMeshOut (Some vs) (Some ixs) (Some count0)).
Proof.
  intros Hx Hy Hlen Hv Hi Hnib.
  assert (Hlen2 : (2 <= length (front ++ a :: a :: back))%nat) by list_len.
  rewrite (mesh_spec libm_sin libm_cos (front ++ a :: a :: back) _
             stroke_width opacity nib_angle_deg nib_width_factor
             max_vertices max_indices vs ixs count0 nib_dir)
    by (assumption || lia).
  rewrite (mesh_spec libm_sin libm_cos (front ++ a :: back) _
             stroke_width opacity nib_angle_deg nib_width_factor
             max_vertices max_indices vs ixs count0 nib_dir)
    by (assumption || lia).
  unfold mesh_pairs. rewrite !firstn_length_all.
  rewrite (live_pairs_repeat a back (degenerate_self a Hx Hy) front).
  reflexivity.
Qed.

Lemma mesh_ignores_repeated_sample_witness :
  build_calligraphy_mesh sin_near_zero cos_near_zero
    (Some ([pt 0 0 1 0] ++ pt 10 0 1 1 :: pt 10 0 1 1 :: [pt 20 0 1 2]))
    (Z.of_nat (length ([pt 0 0 1 0] ++ pt 10 0 1 1 :: pt 10 0 1 1
                         :: [pt 20 0 1 2])))
    1 1 0 1 8 12
    (mkMeshOut (Some (repeat zero_vertex 8)) (Some (repeat 0 12)) (Some 0))
  = build_calligraphy_mesh sin_near_zero cos_near_zero
      (Some ([pt 0 0 1 0] ++ pt 10 0 1 1 :: [pt 20 0 1 2]))
      (Z.of_nat (length ([pt 0 0 1 0] ++ pt 10 0 1 1 :: [pt 20 0 1 2])))
      1 1 0 1 8 12
      (mkMeshOut (Some (repeat zero_vertex 8)) (Some (repeat 0 12)) (Some 0)).
Proof.
  apply (mesh_ignores_repeated_sample sin_near_zero cos_near_zero
           [pt 0 0 1 0] [pt 20 0 1 2] (pt 10 0 1 1) 1 1 0 1
           (Vector2D.make 1 0) 8 12 (repeat zero_vertex 8) (repeat 0 12) 0).
  - vm_compute. reflexivity.
  - vm_compute. reflexivity.
  - simpl. lia.
  - simpl. lia.
  - simpl. lia.
  - vm_compute. reflexivity.
Defined.

(* ------------------------------------------------------------------ *)
(** ** Simplification of any stroke *)

Lemma load_in_range {A : Type} (l : list A) (i : Z) :
  0 <= i < Z.of_nat (length l) ->
  exists v : A, load (Some l) i = Done v /\ nth_error l (Z.to_nat i) = Some v.
Proof.
  intros Hi. unfold load.
  destruct (Z.ltb_spec i 0); [lia|].
  destruct (nth_error l (Z.to_nat i)) as [v|] eqn:E.
  - exists v. auto.
  - apply nth_error_None in E. lia.
Qed.

(** Inside the vector the scan runs to its end. *)
Lemma rdp_scan_total (pts : list PointData) (A : PointData)
    (vx vy vlen2 : float) (n : nat) :
  forall (i idx : Z) (maxd : float),
    0 <= i -> i + Z.of_nat n <= Z.of_nat (length pts) ->
    exists r, rdp_scan pts A vx vy vlen2 n i idx maxd = Done r.
Proof.
  induction n as [|n IH]; intros i idx maxd Hi Hn.
  - eexists. reflexivity.
  - cbn [rdp_scan]. unfold at_.
    destruct (load_in_range pts i ltac:(lia)) as (P & -> & _).
    cbn [bind]. destruct (maxd <? _)%float; apply IH; lia.
Qed.

(** [rdp] on the range whose interior is [mid] appends a subsequence of
    [mid] to [out], and does not fault. *)
Lemma rdp_appends_subsequence (eps2 : float) (fuel : nat) :
  forall (pre mid post out : list PointData) (s e : Z),
    pre <> [] -> post <> [] ->
    s + 1 = Z.of_nat (length pre) ->
    e = Z.of_nat (length pre + length mid) ->
    exists mids : list PointData,
      rdp (pre ++ mid ++ post) eps2 fuel s e out = Done (out ++ mids)
      /\ subsequence mids mid.
Proof.
  induction fuel as [|fuel IH]; intros pre mid post out s e Hpre Hpost Hs He.
  - exists []. rewrite app_nil_r. split; [reflexivity | constructor].
  - rewrite rdp_unfold.
    destruct (Z.leb_spec e (s + 1)) as [|Hlong].
    { exists []. rewrite app_nil_r. split; [reflexivity | constructor]. }
    set (pts := pre ++ mid ++ post).
    assert (Hlen : Z.of_nat (length pts)
                   = Z.of_nat (length pre + length mid + length post)).
    { subst pts. rewrite !length_app. lia. }
    assert (Hpostlen : (0 < length post)%nat)
      by (destruct post; [congruence | simpl; lia]).
    assert (Hprelen : (0 < length pre)%nat)
      by (destruct pre; [congruence | simpl; lia]).
    unfold at_ at 1 2.
    destruct (load_in_range pts s ltac:(lia)) as (A & -> & _).
    destruct (load_in_range pts e ltac:(lia)) as (B & -> & _).
    cbn [bind]. cbv zeta.
    destruct (rdp_scan_total pts A (p_x B - p_x A)%float (p_y B - p_y A)%float
                ((p_x B - p_x A) * (p_x B - p_x A)
                 + (p_y B - p_y A) * (p_y B - p_y A))%float
                (Z.to_nat (e - (s + 1))) (s + 1) (-1) 0%float
                ltac:(lia) ltac:(lia)) as [[idx maxd] Hscan].
    rewrite Hscan. cbn [bind].
    destruct ((eps2 <? maxd)%float && negb (idx =? -1)) eqn:Ekeep.
    2:{ exists []. rewrite app_nil_r. split; [reflexivity | constructor]. }
    apply andb_true_iff in Ekeep. destruct Ekeep as [_ Hidx].
    apply negb_true_iff, Z.eqb_neq in Hidx.
    apply rdp_scan_index in Hscan.
    assert (Hrange : s + 1 <= idx < e) by lia.
    (* split the interior at [idx] *)
    set (k := Z.to_nat (idx - (s + 1))).
    assert (Hk : (k < length mid)%nat) by lia.
    destruct (nth_error mid k) as [P|] eqn:EP;
      [| apply nth_error_None in EP; lia].
    pose proof (firstn_skipn_middle k mid EP) as Hmid.
    set (m1 := firstn k mid) in *. set (m2 := skipn (S k) mid) in *.
    assert (Hm1 : length m1 = k) by (subst m1; apply firstn_length_le; lia).
    assert (Epts1 : pts = pre ++ m1 ++ (P :: m2 ++ post)).
    { subst pts. rewrite <- Hmid. rewrite <- !app_assoc. reflexivity. }
    assert (Epts2 : pts = (pre ++ m1 ++ [P]) ++ m2 ++ post).
    { subst pts. rewrite <- Hmid. rewrite <- !app_assoc. reflexivity. }
    destruct (IH pre m1 (P :: m2 ++ post) out s idx Hpre ltac:(discriminate)
                Hs ltac:(lia)) as (mids1 & H1 & S1).
    rewrite <- Epts1 in H1. rewrite H1. cbn [bind].
    assert (HP : at_ pts idx = Done P).
    { unfold at_. rewrite Epts1. rewrite app_assoc.
      apply load_app. rewrite length_app. lia. }
    rewrite HP. cbn [bind].
    destruct (IH (pre ++ m1 ++ [P]) m2 post ((out ++ mids1) ++ [P]) idx e)
      as (mids2 & H2 & S2).
    + destruct pre; [congruence | discriminate].
    + exact Hpost.
    + rewrite !length_app. simpl. lia.
    + rewrite !length_app. simpl.
      assert (length mid = (k + S (length m2))%nat).
      { rewrite <- Hmid, length_app. simpl. lia. }
      lia.
    + rewrite <- Epts2 in H2. rewrite H2.
      exists (mids1 ++ P :: mids2). split.
      * rewrite <- !app_assoc. reflexivity.
      * rewrite <- Hmid. apply subsequence_app; [exact S1|].
        constructor. exact S2.
Qed.

(** What [simplify_stroke_rdp] does with three or more samples: the
    retained samples [kept] are the first sample, a subsequence of the
    interior, and the last sample; the first [min(|kept|, max_output)] of
    them are written. *)
Lemma simplify_spec (l : list PointData) (input_count : Z)
    (epsilon : float) (buf : list PointData) (max_output : Z) :
  3 <= input_count <= Z.of_nat (length l) ->
  1 <= max_output <= Z.of_nat (length buf) ->
  exists (first back : PointData) (mid mids : list PointData),
    firstn (Z.to_nat input_count) l = first :: mid ++ [back]
    /\ subsequence mids mid
    /\ rdp (first :: mid ++ [back]) (epsilon * epsilon)%float
         (Z.to_nat input_count) 0 (input_count - 1) [first]
       = Done (first :: mids)
    /\ let kept := first :: mids ++ [back] in
       let c := Nat.min (length kept) (Z.to_nat max_output) in
       simplify_stroke_rdp (Some l) input_count epsilon (Some buf) max_output
       = Done (Z.of_nat c, Some (firstn c kept ++ skipn c buf)).
Proof.
  intros Hin Hcap.
  destruct (split_at l (Z.to_nat input_count)) as [Hl Hlen]; [lia|].
  set (pts := firstn (Z.to_nat input_count) l) in *.
  destruct pts as [|first rest] eqn:Epts; [simpl in Hlen; lia|].
  assert (Hrest : rest <> []) by (destruct rest; [simpl in Hlen; lia | discriminate]).
  destruct (exists_last Hrest) as (mid & back & ->).
  exists first, back, mid.
  destruct (rdp_appends_subsequence (epsilon * epsilon)%float
              (Z.to_nat input_count) [first] mid [back] [first] 0
              (input_count - 1))
    as (mids & Hrdp & Hsub).
  { discriminate. }
  { discriminate. }
  { reflexivity. }
  { list_len. }
  exists mids. cbn [app] in Hrdp.
  split; [reflexivity|]. split; [exact Hsub|]. split; [exact Hrdp|].
  cbv zeta. unfold simplify_stroke_rdp. cbn [is_null orb].
  destruct (Z.eqb_spec input_count 0); [lia|].
  destruct (Z.leb_spec max_output 0); [lia|].
  cbn [orb].
  destruct (Z.leb_spec input_count 2); [lia|].
  destruct (Z.ltb_spec (Z.of_nat (length l)) input_count); [lia|].
  fold pts. rewrite Epts.
  change (at_ (first :: mid ++ [back]) 0) with (Done (A := PointData) first).
  cbn [bind]. rewrite Hrdp. cbn [bind].
  assert (Hback : at_ (first :: mid ++ [back]) (input_count - 1) = Done back).
  { unfold at_. rewrite app_comm_cons. apply load_app. list_len. }
  rewrite Hback. cbn [bind]. cbv zeta.
  set (kept := (first :: mids) ++ [back]).
  change (first :: mids ++ [back]) with kept.
  set (c := Nat.min (length kept) (Z.to_nat max_output)).
  assert (Hc : int_min (Z.of_nat (length kept)) max_output = Z.of_nat c).
  { subst c. unfold int_min.
    destruct (Z.ltb_spec max_output (Z.of_nat (length kept))); lia. }
  rewrite Hc. unfold copy_out. rewrite Nat2Z.id.
  assert (Hc1 : (c <= length kept)%nat) by (subst c; lia).
  destruct (split_at kept c Hc1) as [Ho Hclen].
  pose proof (copy_loop_spec (firstn c kept) [] (skipn c kept) [] buf eq_refl)
    as HC.
  cbn [app length] in HC. rewrite Hclen, <- Ho in HC.
  change (Z.of_nat 0) with 0 in HC.
  rewrite HC by (subst c; lia). reflexivity.
Qed.

(** X10. For three or more samples in valid arrays and a capacity of at
    least 1, [simplify_stroke_rdp] does not fault; the samples it retains
    are a subsequence of the input (same samples, same order) that starts
    with the first input sample and ends with the last one, and it writes
    the first [min(retained, max_output)] of them, leaving the rest of the
    buffer as it was. *)
Theorem simplify_returns_subsequence
    (l : list PointData) (input_count : Z) (epsilon : float)
    (buf : list PointData) (max_output : Z) :
  3 <= input_count <= Z.of_nat (length l) ->
  1 <= max_output <= Z.of_nat (length buf) ->
  exists (kept : list PointData) (c : nat),
    simplify_stroke_rdp (Some l) input_count epsilon (Some buf) max_output
    = Done (Z.of_nat c, Some (firstn c kept ++ skipn c buf))
    /\ c = Nat.min (length kept) (Z.to_nat max_output)
    /\ subsequence kept (firstn (Z.to_nat input_count) l)
    /\ (2 <= length kept)%nat
    /\ nth_error kept 0 = nth_error l 0
    /\ nth_error kept (length kept - 1)
       = nth_error l (Z.to_nat (input_count - 1)).
Proof.
  intros Hin Hcap.
  destruct (simplify_spec l input_count epsilon buf max_output Hin Hcap)
    as (first & back & mid & mids & Epts & Hsub & _ & Hrun).
  cbv zeta in Hrun.
  exists (first :: mids ++ [back]), (Nat.min (length (first :: mids ++ [back]))
                                      (Z.to_nat max_output)).
  split; [exact Hrun|]. split; [reflexivity|].
  assert (Hlen : length (firstn (Z.to_nat input_count) l)
                 = Z.to_nat input_count) by (apply firstn_length_le; lia).
  assert (Hnth : forall i, (i < Z.to_nat input_count)%nat ->
                           nth_error l i
                           = nth_error (first :: mid ++ [back]) i).
  { intros i Hi. rewrite <- Epts, nth_error_firstn.
    destruct (Nat.ltb_spec i (Z.to_nat input_count)); [reflexivity | lia]. }
  rewrite Epts in Hlen. split; [| split; [| split; [| ]]].
  - rewrite Epts. constructor. apply subsequence_app; [exact Hsub|].
    apply subsequence_refl.
  - list_len.
  - rewrite Hnth by lia. reflexivity.
  - rewrite Hnth by lia.
    rewrite !app_comm_cons. rewrite nth_error_last_app.
    rewrite nth_error_app2 by list_len.
    replace (Z.to_nat (input_count - 1) - length (first :: mid))%nat with O
      by list_len.
    reflexivity.
Qed.

Lemma simplify_returns_subsequence_witness :
  exists (kept : list PointData) (c : nat),
    simplify_stroke_rdp
      (Some [pt 0 0 1 0; pt 5 5 1 1; pt 10 0 1 2; pt 20 0 1 3]) 4 1
      (Some (repeat zero_point 4)) 4
    = Done (Z.of_nat c,
            Some (firstn c kept ++ skipn c (repeat zero_point 4)))
    /\ c = Nat.min (length kept) (Z.to_nat 4)
    /\ subsequence kept
         (firstn (Z.to_nat 4)
            [pt 0 0 1 0; pt 5 5 1 1; pt 10 0 1 2; pt 20 0 1 3])
    /\ (2 <= length kept)%nat
    /\ nth_error kept 0
       = nth_error [pt 0 0 1 0; pt 5 5 1 1; pt 10 0 1 2; pt 20 0 1 3] 0
    /\ nth_error kept (length kept - 1)
       = nth_error [pt 0 0 1 0; pt 5 5 1 1; pt 10 0 1 2; pt 20 0 1 3]
           (Z.to_nat (4 - 1)).
Proof.
  apply (simplify_returns_subsequence
           [pt 0 0 1 0; pt 5 5 1 1; pt 10 0 1 2; pt 20 0 1 3] 4 1
           (repeat zero_point 4) 4); simpl; lia.
Defined.

(** The square of a tolerance that is infinite or NaN is below no value. *)
Lemma not_finite_square (epsilon : float) :
  is_finite epsilon = false ->
  forall d : float, (epsilon * epsilon <? d)%float = false.
Proof.
  unfold is_finite, is_nan, is_infinity. rewrite !eqb_spec, abs_spec.
  intros H d. rewrite ltb_spec, mul_spec. unfold SFeqb in H.
  unfold SFltb, SF64mul.
  destruct (Prim2SF epsilon) as [s | s | | s m e] eqn:E.
  - exfalso. destruct s; vm_compute in H; discriminate.
  - cbn [SFmul]. rewrite xorb_nilpotent.
    destruct (Prim2SF d) as [sd | [|] | | sd md ed]; reflexivity.
  - reflexivity.
  - exfalso.
    rewrite SFcompare_refl in H by discriminate.
    change (Prim2SF infinity) with (S754_infinity false) in H.
    cbn in H. discriminate.
Qed.

(** When no deviation exceeds [eps2], [rdp] retains nothing. *)
Lemma rdp_retains_nothing (pts : list PointData) (eps2 : float)
    (fuel : nat) (s e : Z) (out : list PointData) :
  (forall d : float, (eps2 <? d)%float = false) ->
  0 <= s -> s <= e < Z.of_nat (length pts) ->
  rdp pts eps2 fuel s e out = Done out.
Proof.
  intros Heps Hs He. destruct fuel as [|fuel]; [reflexivity|].
  rewrite rdp_unfold.
  destruct (Z.leb_spec e (s + 1)); [reflexivity|].
  unfold at_ at 1 2.
  destruct (load_in_range pts s ltac:(lia)) as (A & -> & _).
  destruct (load_in_range pts e ltac:(lia)) as (B & -> & _).
  cbn [bind]. cbv zeta.
  destruct (rdp_scan_total pts A (p_x B - p_x A)%float (p_y B - p_y A)%float
              ((p_x B - p_x A) * (p_x B - p_x A)
               + (p_y B - p_y A) * (p_y B - p_y A))%float
              (Z.to_nat (e - (s + 1))) (s + 1) (-1) 0%float
              ltac:(lia) ltac:(lia)) as [[idx maxd] Hscan].
  rewrite Hscan. cbn [bind]. rewrite Heps. reflexivity.
Qed.

(** X11. With a tolerance that is infinite or NaN, [simplify_stroke_rdp]
    returns exactly the two end points of any stroke of three or more
    samples (capacity at least 2). *)
Theorem simplify_unbounded_tolerance
    (l : list PointData) (input_count : Z) (epsilon : float)
    (buf : list PointData) (max_output : Z) :
  3 <= input_count <= Z.of_nat (length l) ->
  2 <= max_output <= Z.of_nat (length buf) ->
  is_finite epsilon = false ->
  exists first back : PointData,
    nth_error l 0 = Some first
    /\ nth_error l (Z.to_nat (input_count - 1)) = Some back
    /\ simplify_stroke_rdp (Some l) input_count epsilon (Some buf) max_output
       = Done (2, Some (first :: back :: skipn 2 buf)).
Proof.
  intros Hin Hcap Heps.
  destruct (simplify_spec l input_count epsilon buf max_output Hin
              ltac:(lia))
    as (first & back & mid & mids & Epts & _ & Hrdp & Hrun).
  assert (Hlen : length (firstn (Z.to_nat input_count) l)
                 = Z.to_nat input_count) by (apply firstn_length_le; lia).
  rewrite Epts in Hlen.
  rewrite rdp_retains_nothing in Hrdp.
  2:{ apply not_finite_square. exact Heps. }
  2:{ lia. }
  2:{ list_len. }
  injection Hrdp as <-.
  cbv zeta in Hrun. cbn [app length] in Hrun.
  replace (Nat.min 2 (Z.to_nat max_output)) with 2%nat in Hrun by lia.
  exists first, back.
  assert (Hnth : forall i, (i < Z.to_nat input_count)%nat ->
                           nth_error l i
                           = nth_error (first :: mid ++ [back]) i).
  { intros i Hi. rewrite <- Epts, nth_error_firstn.
    destruct (Nat.ltb_spec i (Z.to_nat input_count)); [reflexivity | lia]. }
  split; [| split].
  - rewrite Hnth by lia. reflexivity.
  - rewrite Hnth by lia. rewrite app_comm_cons.
    rewrite nth_error_app2 by list_len.
    replace (Z.to_nat (input_count - 1) - length (first :: mid))%nat with O
      by list_len.
    reflexivity.
  - exact Hrun.
Qed.

Lemma simplify_unbounded_tolerance_witness :
  exists first back : PointData,
    nth_error [pt 0 0 1 0; pt 5 5 1 1; pt 10 0 1 2; pt 20 0 1 3] 0
    = Some first
    /\ nth_error [pt 0 0 1 0; pt 5 5 1 1; pt 10 0 1 2; pt 20 0 1 3]
         (Z.to_nat (4 - 1))
       = Some back
    /\ simplify_stroke_rdp
         (Some [pt 0 0 1 0; pt 5 5 1 1; pt 10 0 1 2; pt 20 0 1 3]) 4 infinity
         (Some (repeat zero_point 4)) 4
       = Done (2, Some (first :: back :: skipn 2 (repeat zero_point 4))).
Proof.
  apply (simplify_unbounded_tolerance
           [pt 0 0 1 0; pt 5 5 1 1; pt 10 0 1 2; pt 20 0 1 3] 4 infinity
           (repeat zero_point 4) 4).
  - simpl. lia.
  - simpl. lia.
  - vm_compute. reflexivity.
Defined.

(* ------------------------------------------------------------------ *)
(** ** Resampling: further properties *)

Lemma spaced_walk_subsequence (spacing2 : float) (rem : list PointData) :
  forall last room,
    subsequence (spaced_walk spacing2 last rem room) rem.
Proof.
  induction rem as [|p rem IH]; intros last room.
  - destruct room; constructor.
  - cbn [spaced_walk]. destruct room as [|room]; [constructor|].
    destruct (spacing2 <=? _)%float.
    + constructor. apply IH.
    + apply subsequence_skip. apply IH.
Qed.

(** X12. For two or more samples in valid arrays, what
    [resample_stroke_points] writes is the first input sample followed by
    a subsequence of the remaining input samples (same samples, same
    order), followed by at most one more copy of the last input sample; so
    it writes at most [input_count + 1] samples, and never a sample that is
    not in the input. *)
Theorem resample_emits_input_samples
    (l : list PointData) (input_count : Z) (spacing : float)
    (buf : list PointData) (max_output : Z) :
  2 <= input_count <= Z.of_nat (length l) ->
  1 <= max_output <= Z.of_nat (length buf) ->
  exists (walk tail : list PointData),
    resample_stroke_points (Some l) input_count spacing (Some buf) max_output
    = Done (Z.of_nat (length (walk ++ tail)),
            Some ((walk ++ tail) ++ skipn (length (walk ++ tail)) buf))
    /\ subsequence walk (firstn (Z.to_nat input_count) l)
    /\ nth_error walk 0 = nth_error l 0
    /\ (tail = []
        \/ exists pN, tail = [pN]
                      /\ nth_error l (Z.to_nat (input_count - 1)) = Some pN)
    /\ Z.of_nat (length (walk ++ tail)) <= input_count + 1.
Proof.
  intros Hin Hcap.
  destruct (split_input l input_count ltac:(lia))
    as (p0 & rest & back & -> & ->).
  assert (Hne : rest <> []) by (destruct rest; [simpl in Hin; lia | discriminate]).
  pose proof (resample_spec spacing p0 rest back buf max_output Hne Hcap) as H.
  cbv zeta in H. unfold resampled in H.
  set (walk := spaced_walk _ p0 rest _) in *.
  set (tail := if Z.of_nat (S (length walk)) <? max_output
               then [last rest p0] else []) in *.
  exists (p0 :: walk), tail.
  change ((p0 :: walk) ++ tail) with (p0 :: walk ++ tail).
  split; [exact H|].
  assert (Efirst : firstn (Z.to_nat (Z.of_nat (S (length rest))))
                     (p0 :: rest ++ back) = p0 :: rest).
  { rewrite Nat2Z.id. rewrite app_comm_cons.
    rewrite firstn_app, firstn_all2 by (simpl; lia).
    replace (S (length rest) - length (p0 :: rest))%nat with O by (simpl; lia).
    simpl. rewrite app_nil_r. reflexivity. }
  rewrite Efirst.
  split; [constructor; apply spaced_walk_subsequence|].
  split; [reflexivity|].
  pose proof (spaced_walk_length (spacing * spacing)%float rest p0
                (Z.to_nat (max_output - 1))) as [_ Hlen].
  fold walk in Hlen.
  split.
  - subst tail. destruct (_ <? max_output); [right | left; reflexivity].
    exists (last rest p0). split; [reflexivity|].
    destruct (exists_last Hne) as (front & pN & ->).
    rewrite last_last.
    replace (p0 :: (front ++ [pN]) ++ back) with ((p0 :: front) ++ pN :: back)
      by (simpl; rewrite <- app_assoc; reflexivity).
    rewrite nth_error_app2 by list_len.
    replace (Z.to_nat (Z.of_nat (S (length (front ++ [pN]))) - 1)
             - length (p0 :: front))%nat with O by list_len.
    reflexivity.
  - subst tail. destruct (_ <? max_output); list_len.
Qed.

Lemma resample_emits_input_samples_witness :
  exists (walk tail : list PointData),
    resample_stroke_points (Some three_on_axis) 3 5
      (Some (repeat zero_point 4)) 4
    = Done (Z.of_nat (length (walk ++ tail)),
            Some ((walk ++ tail)
                    ++ skipn (length (walk ++ tail)) (repeat zero_point 4)))
    /\ subsequence walk (firstn (Z.to_nat 3) three_on_axis)
    /\ nth_error walk 0 = nth_error three_on_axis 0
    /\ (tail = []
        \/ exists pN, tail = [pN]
                      /\ nth_error three_on_axis (Z.to_nat (3 - 1)) = Some pN)
    /\ Z.of_nat (length (walk ++ tail)) <= 3 + 1.
Proof.
  apply (resample_emits_input_samples three_on_axis 3 5
           (repeat zero_point 4) 4); simpl; lia.
Defined.

Lemma is_nan_shape (v : float) : is_nan v = true -> Prim2SF v = S754_nan.
Proof.
  unfold is_nan. rewrite eqb_spec. unfold SFeqb. intros H.
  destruct (Prim2SF v) as [s | s | | s m e] eqn:E; try reflexivity;
    rewrite SFcompare_refl in H by discriminate; discriminate.
Qed.

(** The square of a NaN spacing is at most no value. *)
Lemma nan_square_not_below (spacing : float) :
  is_nan spacing = true ->
  forall d : float, (spacing * spacing <=? d)%float = false.
Proof.
  intros H d. rewrite leb_spec, mul_spec, (is_nan_shape _ H). reflexivity.
Qed.

Lemma spaced_walk_none (spacing2 : float) (rem : list PointData) :
  (forall d : float, (spacing2 <=? d)%float = false) ->
  forall last room, spaced_walk spacing2 last rem room = [].
Proof.
  intros Hnone. induction rem as [|p rem IH]; intros last room.
  - destruct room; reflexivity.
  - cbn [spaced_walk]. destruct room as [|room]; [reflexivity|].
    rewrite Hnone. apply IH.
Qed.

(** X13. With a NaN spacing no sample passes the spacing test:
    [resample_stroke_points] returns exactly the first and the last input
    sample of any stroke of two or more samples (capacity at least 2). *)
Theorem resample_nan_spacing
    (l : list PointData) (input_count : Z) (spacing : float)
    (buf : list PointData) (max_output : Z) :
  2 <= input_count <= Z.of_nat (length l) ->
  2 <= max_output <= Z.of_nat (length buf) ->
  is_nan spacing = true ->
  exists p0 pN : PointData,
    nth_error l 0 = Some p0
    /\ nth_error l (Z.to_nat (input_count - 1)) = Some pN
    /\ resample_stroke_points (Some l) input_count spacing (Some buf)
         max_output
       = Done (2, Some (p0 :: pN :: skipn 2 buf)).
Proof.
  intros Hin Hcap Hnan.
  destruct (split_input l input_count ltac:(lia))
    as (p0 & rest & back & -> & ->).
  assert (Hne : rest <> []) by (destruct rest; [simpl in Hin; lia | discriminate]).
  pose proof (resample_spec spacing p0 rest back buf max_output Hne
                ltac:(lia)) as H.
  cbv zeta in H. unfold resampled in H.
  rewrite (spaced_walk_none _ rest (nan_square_not_below spacing Hnan)) in H.
  cbn [length app] in H.
  destruct (Z.ltb_spec (Z.of_nat 1) max_output); [| lia].
  exists p0, (last rest p0). split; [reflexivity|]. split; [| exact H].
  destruct (exists_last Hne) as (front & pN & ->).
  rewrite last_last.
  replace (p0 :: (front ++ [pN]) ++ back) with ((p0 :: front) ++ pN :: back)
    by (simpl; rewrite <- app_assoc; reflexivity).
  rewrite nth_error_app2 by list_len.
  replace (Z.to_nat (Z.of_nat (S (length (front ++ [pN]))) - 1)
           - length (p0 :: front))%nat with O by list_len.
  reflexivity.
Qed.

Lemma resample_nan_spacing_witness :
  exists p0 pN : PointData,
    nth_error three_on_axis 0 = Some p0
    /\ nth_error three_on_axis (Z.to_nat (3 - 1)) = Some pN
    /\ resample_stroke_points (Some three_on_axis) 3 nan
         (Some (repeat zero_point 3)) 3
       = Done (2, Some (p0 :: pN :: skipn 2 (repeat zero_point 3))).
Proof.
  apply (resample_nan_spacing three_on_axis 3 nan (repeat zero_point 3) 3).
  - simpl. lia.
  - simpl. lia.
  - vm_compute. reflexivity.
Defined.

(* ------------------------------------------------------------------ *)
(** ** Smoothing: further properties *)

Lemma smoothed_nth (factor inv_factor : float) (rem : list PointData) :
  forall (room j : nat) (q : PointData),
    nth_error (smoothed factor inv_factor rem room) j = Some q ->
    exists prev curr next : PointData,
      nth_error rem j = Some prev
      /\ nth_error rem (S j) = Some curr
      /\ nth_error rem (S (S j)) = Some next
      /\ q = smooth_point factor inv_factor prev curr next.
Proof.
  induction rem as [|prev rem IH]; intros room j q H.
  - destruct j; discriminate.
  - destruct rem as [|curr [|next rem]].
    + destruct j; discriminate.
    + destruct j; discriminate.
    + destruct room as [|room]; [destruct j; discriminate|].
      change (smoothed factor inv_factor (prev :: curr :: next :: rem)
                (S room))
        with (smooth_point factor inv_factor prev curr next
                :: smoothed factor inv_factor (curr :: next :: rem) room)
        in H.
      destruct j as [|j].
      * simpl in H. injection H as <-. exists prev, curr, next.
        repeat split; reflexivity.
      * simpl in H. apply IH in H.
        destruct H as (p & c & n & Hp & Hc & Hn & ->).
        exists p, c, n. repeat split; assumption.
Qed.

(** X14. Smoothing keeps the samples aligned with the input and leaves
    time and tilt alone: given valid arrays, output sample [j] of
    [smooth_stroke_points] has the timestamp, tiltX and tiltY of input
    sample [j], for every [j] below the returned count and every smoothing
    factor. *)
Theorem smooth_keeps_time_and_tilt
    (l : list PointData) (input_count : Z) (smoothing_factor : float)
    (buf : list PointData) (max_output : Z) :
  1 <= input_count <= Z.of_nat (length l) ->
  1 <= max_output <= Z.of_nat (length buf) ->
  exists em : list PointData,
    smooth_stroke_points (Some l) input_count smoothing_factor (Some buf)
      max_output
    = Done (Z.of_nat (length em), Some (em ++ skipn (length em) buf))
    /\ (forall (j : nat) (q : PointData),
          nth_error em j = Some q ->
          exists p : PointData,
            nth_error l j = Some p /\ same_time_and_tilt p q).
Proof.
  intros Hin Hcap.
  destruct (Z.ltb_spec input_count 3) as [Hsmall|Hlarge].
  - pose proof (smooth_spec_copy l input_count smoothing_factor buf max_output
                  (or_introl Hsmall) (proj2 Hin) (proj2 Hcap)) as H.
    cbv zeta in H.
    set (c := Z.to_nat (int_min input_count max_output)) in *.
    assert (Hc : int_min input_count max_output = Z.of_nat c
                 /\ (c <= length l)%nat).
    { subst c. unfold int_min.
      destruct (Z.ltb_spec max_output input_count); lia. }
    destruct Hc as [Hc Hcl].
    exists (firstn c l). rewrite firstn_length_le by exact Hcl.
    split; [rewrite H, Hc; reflexivity|].
    intros j q Hq. rewrite nth_error_firstn in Hq.
    destruct (Nat.ltb_spec j c); [| discriminate].
    exists q. split; [exact Hq|]. repeat split.
  - destruct (split_input l input_count Hin) as (p0 & rest & back & -> & ->).
    assert (Hrest : (2 <= length rest)%nat) by lia.
    exists (smoothed_stroke smoothing_factor p0 rest max_output).
    split; [apply smooth_spec; assumption|].
    unfold smoothed_stroke.
    set (factor := std_clamp smoothing_factor 0 1).
    set (interior := smoothed factor _ (p0 :: rest) _).
    pose proof (smoothed_length factor (1 - factor)%float (p0 :: rest)
                  (Z.to_nat (max_output - 1))) as Hlen.
    fold interior in Hlen. cbn [length] in Hlen.
    intros j q Hq. destruct j as [|j].
    { simpl in Hq. injection Hq as <-. exists p0.
      split; [reflexivity|]. repeat split. }
    cbn [nth_error] in Hq.
    destruct (Nat.lt_ge_cases j (length interior)) as [Hj|Hj].
    + rewrite nth_error_app1 in Hq by exact Hj.
      apply smoothed_nth in Hq.
      destruct Hq as (prev & curr & next & _ & Hcurr & _ & ->).
      exists curr. split; [| repeat split].
      rewrite app_comm_cons. rewrite nth_error_app1 by list_len.
      exact Hcurr.
    + rewrite nth_error_app2 in Hq by exact Hj.
      destruct (Z.ltb_spec (Z.of_nat (S (length interior))) max_output)
        as [Hroom|Hfull]; [| destruct (j - length interior)%nat; discriminate].
      destruct (j - length interior)%nat as [|d] eqn:Ed;
        [| destruct d; discriminate].
      simpl in Hq. injection Hq as <-.
      assert (Ej : j = (length rest - 1)%nat) by lia.
      exists (last rest p0). split; [| repeat split].
      assert (Hne : rest <> [])
        by (destruct rest; [simpl in Hrest; lia | discriminate]).
      clear Hlen Hj Ed. subst interior.
      destruct (exists_last Hne) as (front & pN & E). subst rest.
      rewrite last_last.
      replace (p0 :: (front ++ [pN]) ++ back)
        with ((p0 :: front) ++ pN :: back)
        by (simpl; rewrite <- app_assoc; reflexivity).
      rewrite nth_error_app2 by list_len.
      replace (S j - length (p0 :: front))%nat with O by list_len.
      reflexivity.
Qed.

Lemma smooth_keeps_time_and_tilt_witness :
  exists em : list PointData,
    smooth_stroke_points (Some three_on_axis) 3 0.5
      (Some (repeat zero_point 3)) 3
    = Done (Z.of_nat (length em),
            Some (em ++ skipn (length em) (repeat zero_point 3)))
    /\ (forall (j : nat) (q : PointData),
          nth_error em j = Some q ->
          exists p : PointData,
            nth_error three_on_axis j = Some p /\ same_time_and_tilt p q).
Proof.
  apply (smooth_keeps_time_and_tilt three_on_axis 3 0.5
           (repeat zero_point 3) 3); simpl; lia.
Defined.

(* ------------------------------------------------------------------ *)
(** ** Parameters that are clamped *)

(** A factor above 1 is not below 0, so it is clamped to 1. *)
Lemma clamp_unit_above (f : float) :
  (1 <? f)%float = true -> std_clamp f 0 1 = 1%float.
Proof.
  intros H. unfold std_clamp.
  assert (E : (f <? 0)%float = false).
  { rewrite ltb_spec in H |- *. unfold SFltb in *.
    change (Prim2SF 0) with (S754_zero false).
    remember (Prim2SF 1) as one eqn:E1. vm_compute in E1. subst one.
    destruct (Prim2SF f) as [s | s | | s m e]; try destruct s;
      cbn [SFcompare] in *; congruence. }
  rewrite E, H. reflexivity.
Qed.

(** A width factor above 2.5 is not below 0.3, so it is clamped to 2.5. *)
Lemma clamp_width_above (w : float) :
  (2.5 <? w)%float = true -> std_clamp w 0.3 2.5 = 2.5%float.
Proof.
  intros H. unfold std_clamp.
  assert (E : (w <? 0.3)%float = false).
  { rewrite ltb_spec in H |- *. unfold SFltb in *.
    remember (Prim2SF 2.5) as hi eqn:Ehi. vm_compute in Ehi. subst hi.
    remember (Prim2SF 0.3) as lo eqn:Elo. vm_compute in Elo. subst lo.
    destruct (Prim2SF w) as [s | s | | s m e]; try destruct s;
      cbn [SFcompare] in *; try congruence.
    destruct (Z.compare_spec (-51) e) as [He|He|He]; try discriminate;
      destruct (Z.compare_spec e (-54)) as [He'|He'|He'];
      try lia; reflexivity. }
  rewrite E, H. reflexivity.
Qed.

(** X15. The smoothing factor is clamped to [0, 1] before use: for every
    input, a factor above 1 gives the result of the factor 1 and a factor
    below 0 gives the result of the factor 0. *)
Theorem smoothing_factor_is_clamped
    (input_points : ptr PointData) (input_count : Z)
    (smoothing_factor : float) (output_points : ptr PointData)
    (max_output : Z) :
  ((1 <? smoothing_factor)%float = true ->
   smooth_stroke_points input_points input_count smoothing_factor
     output_points max_output
   = smooth_stroke_points input_points input_count 1 output_points
       max_output)
  /\ ((smoothing_factor <? 0)%float = true ->
      smooth_stroke_points input_points input_count smoothing_factor
        output_points max_output
      = smooth_stroke_points input_points input_count 0 output_points
          max_output).
Proof.
  unfold smooth_stroke_points. split; intros H.
  - rewrite (clamp_unit_above _ H). reflexivity.
  - assert (E : std_clamp smoothing_factor 0 1 = std_clamp 0 0 1)
      by (unfold std_clamp at 1; rewrite H; reflexivity).
    rewrite E. reflexivity.
Qed.

Lemma smoothing_factor_is_clamped_witness :
  smooth_stroke_points (Some three_on_axis) 3 7 (Some (repeat zero_point 3)) 3
  = smooth_stroke_points (Some three_on_axis) 3 1
      (Some (repeat zero_point 3)) 3
  /\ smooth_stroke_points (Some three_on_axis) 3 (-3)
       (Some (repeat zero_point 3)) 3
     = smooth_stroke_points (Some three_on_axis) 3 0
         (Some (repeat zero_point 3)) 3.
Proof.
  split.
  - apply (proj1 (smoothing_factor_is_clamped (Some three_on_axis) 3 7
                    (Some (repeat zero_point 3)) 3)).
    vm_compute. reflexivity.
  - apply (proj2 (smoothing_factor_is_clamped (Some three_on_axis) 3 (-3)
                    (Some (repeat zero_point 3)) 3)).
    vm_compute. reflexivity.
Defined.

(** X16. The nib-width factor is clamped to [0.3, 2.5] before use: for
    every input of the segment calculator and of the mesh builder, a
    factor above 2.5 gives the result of the factor 2.5 and a factor below
    0.3 gives the result of the factor 0.3. *)
Theorem nib_width_factor_is_clamped
    (libm_sin libm_cos : float -> float) (points : ptr PointData)
    (point_count : Z) (stroke_width opacity nib_angle_deg
    nib_width_factor bound : float)
    (output_segments : ptr CalligraphySegment) (max_segments : Z)
    (max_vertices max_indices : Z) (m : mesh_out) :
  ((2.5 <? nib_width_factor)%float = true /\ bound = 2.5%float)
  \/ ((nib_width_factor <? 0.3)%float = true /\ bound = 0.3%float) ->
  calculate_calligraphy_segments libm_sin libm_cos points point_count
    stroke_width opacity nib_angle_deg nib_width_factor output_segments
    max_segments
  = calculate_calligraphy_segments libm_sin libm_cos points point_count
      stroke_width opacity nib_angle_deg bound output_segments max_segments
  /\ build_calligraphy_mesh libm_sin libm_cos points point_count stroke_width
       opacity nib_angle_deg nib_width_factor max_vertices max_indices m
     = build_calligraphy_mesh libm_sin libm_cos points point_count
         stroke_width opacity nib_angle_deg bound max_vertices max_indices m.
Proof.
  intros H.
  assert (E : std_clamp nib_width_factor 0.3 2.5 = std_clamp bound 0.3 2.5).
  { destruct H as [[H ->] | [H ->]].
    - rewrite (clamp_width_above _ H). reflexivity.
    - unfold std_clamp at 1. rewrite H. reflexivity. }
  unfold calculate_calligraphy_segments, build_calligraphy_mesh.
  rewrite E. split; reflexivity.
Qed.

Lemma nib_width_factor_is_clamped_witness :
  calculate_calligraphy_segments sin_near_zero cos_near_zero
    (Some three_on_axis) 3 4 1 0 9 (Some (repeat zero_segment 2)) 2
  = calculate_calligraphy_segments sin_near_zero cos_near_zero
      (Some three_on_axis) 3 4 1 0 2.5 (Some (repeat zero_segment 2)) 2
  /\ build_calligraphy_mesh sin_near_zero cos_near_zero (Some three_on_axis)
       3 4 1 0 9 8 12
       (mkMeshOut (Some (repeat zero_vertex 8)) (Some (repeat 0 12)) (Some 0))
     = build_calligraphy_mesh sin_near_zero cos_near_zero
         (Some three_on_axis) 3 4 1 0 2.5 8 12
         (mkMeshOut (Some (repeat zero_vertex 8)) (Some (repeat 0 12))
            (Some 0)).
Proof.
  apply (nib_width_factor_is_clamped sin_near_zero cos_near_zero
           (Some three_on_axis) 3 4 1 0 9 2.5 (Some (repeat zero_segment 2)) 2
           8 12
           (mkMeshOut (Some (repeat zero_vertex 8)) (Some (repeat 0 12))
              (Some 0))).
  left. split; vm_compute; reflexivity.
Defined.

(* ------------------------------------------------------------------ *)
(** ** Thickness without pressure *)

(** A product with the factor 0 is a zero or NaN, hence not above 0.6. *)
Lemma mul_zero_not_above (t : float) : (0.6 <? t * 0)%float = false.
Proof.
  rewrite ltb_spec, mul_spec. unfold SFltb, SF64mul.
  change (Prim2SF 0) with (S754_zero false).
  remember (Prim2SF 0.6) as floor eqn:E. vm_compute in E. subst floor.
  destruct (Prim2SF t) as [s | s | | s m e]; reflexivity.
Qed.

(** X17. Without pressure the stroke keeps the minimum thickness: given
    valid arrays and a defined nib direction, if every sample has pressure
    0 then every descriptor the segment calculator writes has thickness
    exactly 0.6, whatever the stroke width, nib angle and width factor. *)
Theorem segments_without_pressure
    (libm_sin libm_cos : float -> float) (l : list PointData)
    (point_count : Z) (stroke_width opacity nib_angle_deg
    nib_width_factor : float) (nib_dir : Vector2D.t)
    (sbuf : list CalligraphySegment) (max_segments : Z) :
  2 <= point_count <= Z.of_nat (length l) ->
  1 <= max_segments <= Z.of_nat (length sbuf) ->
  FastTrig.nib_direction libm_sin libm_cos nib_angle_deg = Done nib_dir ->
  Forall (fun p => p_pressure p = 0%float) l ->
  exists segs : list CalligraphySegment,
    calculate_calligraphy_segments libm_sin libm_cos (Some l) point_count
      stroke_width opacity nib_angle_deg nib_width_factor (Some sbuf)
      max_segments
    = Done (Z.of_nat (length segs), Some (segs ++ skipn (length segs) sbuf))
    /\ Forall (fun s => s_thickness s = 0.6%float) segs.
Proof.
  intros Hin Hcap Hnib Hzero.
  exists (descriptors nib_dir stroke_width opacity nib_width_factor l
            point_count max_segments).
  split; [apply calculate_spec; assumption|].
  unfold descriptors. apply Forall_map. apply Forall_forall. intros [a b] Hab.
  assert (Hlive : In (a, b) (live_pairs (firstn (Z.to_nat point_count) l))).
  { eapply subsequence_In; [apply subsequence_firstn | exact Hab]. }
  apply live_pair_consecutive in Hlive.
  destruct Hlive as [_ (k & _ & Ha & Hb)].
  apply nth_error_In in Ha, Hb.
  rewrite Forall_forall in Hzero.
  unfold descriptor, segment_thickness. cbn [s_thickness fst snd].
  rewrite (Hzero a Ha), (Hzero b Hb).
  change ((0 + 0) * 0.5)%float with 0%float.
  unfold std_max, min_thickness. rewrite mul_zero_not_above. reflexivity.
Qed.

Lemma segments_without_pressure_witness :
  exists segs : list CalligraphySegment,
    calculate_calligraphy_segments sin_near_zero cos_near_zero
      (Some [pt 0 0 0 0; pt 0 10 0 1; pt 10 10 0 2]) 3 40 1 0 1
      (Some (repeat zero_segment 2)) 2
    = Done (Z.of_nat (length segs),
            Some (segs ++ skipn (length segs) (repeat zero_segment 2)))
    /\ Forall (fun s => s_thickness s = 0.6%float) segs.
Proof.
  apply (segments_without_pressure sin_near_zero cos_near_zero
           [pt 0 0 0 0; pt 0 10 0 1; pt 10 10 0 2] 3 40 1 0 1
           (Vector2D.make 1 0) (repeat zero_segment 2) 2).
  - simpl. lia.
  - simpl. lia.
  - vm_compute. reflexivity.
  - repeat constructor.
Defined.

(* ------------------------------------------------------------------ *)
(** ** The trigonometric tables *)

(** The index computed for a table lookup is an entry of the table. *)
Lemma table_index_in_table (angle_rad : float) (index : Z) :
  FastTrig.table_index angle_rad = Done index ->
  0 <= index < FastTrig.TABLE_SIZE.
Proof.
  unfold FastTrig.table_index.
  destruct (static_cast_int _) as [q|]; cbn [bind]; [|discriminate].
  intros H. injection H as <-. unfold FastTrig.TABLE_SIZE.
  destruct (Z.le_gt_cases 0 q) as [Hq | Hq].
  - pose proof (Z.rem_bound_pos q 3600 Hq ltac:(lia)).
    destruct (Z.ltb_spec (Z.rem q 3600) 0); lia.
  - pose proof (Z.rem_bound_pos_neg q 3600 ltac:(lia) ltac:(lia)).
    destruct (Z.ltb_spec (Z.rem q 3600) 0); lia.
Qed.

Lemma fill_loop_spec (libm_sin libm_cos : float -> float) (todo : nat) :
  forall (i : nat) (s_pre s_post c_pre c_post : list float),
  length s_pre = i -> length c_pre = i ->
  (todo <= length s_post)%nat -> (todo <= length c_post)%nat ->
  TrigCache.fill_loop libm_sin libm_cos todo (Z.of_nat i)
    (s_pre ++ s_post) (c_pre ++ c_post)
  = Done (s_pre
          ++ map (fun k => libm_sin (FastTrig.table_angle (Z.of_nat k)))
               (seq i todo)
          ++ skipn todo s_post,
          c_pre
          ++ map (fun k => libm_cos (FastTrig.table_angle (Z.of_nat k)))
               (seq i todo)
          ++ skipn todo c_post).
Proof.
  induction todo as [|todo IH]; intros i s_pre s_post c_pre c_post Hs Hc Ls Lc.
  - reflexivity.
  - destruct s_post as [|s0 s_post]; [cbn [length] in Ls; lia|].
    destruct c_post as [|c0 c_post]; [cbn [length] in Lc; lia|].
    cbn [length] in Ls, Lc.
    cbn [TrigCache.fill_loop]. unfold TrigCache.assign.
    rewrite (store_app s_pre s_post s0 _ (Z.of_nat i)) by (rewrite Hs; reflexivity).
    cbn [bind].
    rewrite (store_app c_pre c_post c0 _ (Z.of_nat i)) by (rewrite Hc; reflexivity).
    cbn [bind].
    replace (Z.of_nat i + 1) with (Z.of_nat (S i)) by lia.
    replace (s_pre ++ libm_sin (FastTrig.table_angle (Z.of_nat i)) :: s_post)
      with ((s_pre ++ [libm_sin (FastTrig.table_angle (Z.of_nat i))]) ++ s_post)
      by (rewrite <- app_assoc; reflexivity).
    replace (c_pre ++ libm_cos (FastTrig.table_angle (Z.of_nat i)) :: c_post)
      with ((c_pre ++ [libm_cos (FastTrig.table_angle (Z.of_nat i))]) ++ c_post)
      by (rewrite <- app_assoc; reflexivity).
    rewrite IH; [| rewrite length_app; cbn [length]; lia
                 | rewrite length_app; cbn [length]; lia | lia | lia].
    cbn [seq map skipn]. rewrite <- !app_assoc. reflexivity.
Qed.

(** From a well-formed storage, [initialize] returns the filled tables with
    the flag set, and leaves an initialised storage as it is. *)
Lemma initialize_spec (libm_sin libm_cos : float -> float) (c : TrigCache.t) :
  TrigCache.well_formed libm_sin libm_cos c ->
  TrigCache.initialize libm_sin libm_cos c
  = Done (TrigCache.make
            (TrigCache.filled libm_sin (Z.to_nat FastTrig.TABLE_SIZE))
            (TrigCache.filled libm_cos (Z.to_nat FastTrig.TABLE_SIZE)) true)
  /\ (TrigCache.initialized c = true ->
      TrigCache.make
        (TrigCache.filled libm_sin (Z.to_nat FastTrig.TABLE_SIZE))
        (TrigCache.filled libm_cos (Z.to_nat FastTrig.TABLE_SIZE)) true = c).
Proof.
  intros (Ls & Lc & Hinit). unfold TrigCache.initialize.
  destruct c as [sines cosines flag]. cbn [TrigCache.sin_table
    TrigCache.cos_table TrigCache.initialized] in *.
  destruct flag.
  - destruct (Hinit eq_refl) as [-> ->]. split; [reflexivity|]. reflexivity.
  - split; [|discriminate].
    pose proof (fill_loop_spec libm_sin libm_cos
                  (Z.to_nat FastTrig.TABLE_SIZE) 0 [] sines [] cosines
                  eq_refl eq_refl ltac:(lia) ltac:(lia)) as H.
    cbn [app Z.of_nat] in H. rewrite H. cbn [bind fst snd].
    rewrite !skipn_all2 by lia. rewrite !app_nil_r. reflexivity.
Qed.

(** An entry of a filled table is the function at the angle of the entry. *)
Lemma filled_lookup (f : float -> float) (n : nat) (index : Z) :
  0 <= index < Z.of_nat n ->
  load (Some (TrigCache.filled f n)) index
  = Done (f (FastTrig.table_angle index)).
Proof.
  intros H. unfold load, TrigCache.filled.
  destruct (Z.ltb_spec index 0); [lia|].
  rewrite nth_error_map, nth_error_seq.
  destruct (Nat.ltb_spec (Z.to_nat index) n); [|lia].
  cbn [option_map Nat.add]. rewrite Z2Nat.id by lia. reflexivity.
Qed.

Lemma filled_well_formed (libm_sin libm_cos : float -> float) :
  TrigCache.well_formed libm_sin libm_cos
    (TrigCache.make
       (TrigCache.filled libm_sin (Z.to_nat FastTrig.TABLE_SIZE))
       (TrigCache.filled libm_cos (Z.to_nat FastTrig.TABLE_SIZE)) true).
Proof.
  unfold TrigCache.well_formed, TrigCache.filled.
  cbn [TrigCache.sin_table TrigCache.cos_table TrigCache.initialized].
  rewrite !length_map, !length_seq. auto.
Qed.

(** X18. The cached tables give what the library gives.  From a storage
    of the declared size (as at program start, or after any earlier
    lookup), computing the nib direction through the cache, in either
    order of the two lookups, never reads outside a table and yields
    cos and sin of the library at the angle of the table entry, exactly
    as the table-free functions do; it faults only where the conversion
    of the angle to [int] does.  The storage is initialised afterwards
    and is unchanged if it was initialised before. *)
Theorem cached_direction_matches_library
    (libm_sin libm_cos : float -> float) (c : TrigCache.t)
    (cos_first : bool) (nib_angle_deg : float) :
  TrigCache.well_formed libm_sin libm_cos c ->
  exists c' : TrigCache.t,
    TrigCache.well_formed libm_sin libm_cos c'
    /\ TrigCache.initialized c' = true
    /\ (TrigCache.initialized c = true -> c' = c)
    /\ TrigCache.nib_direction libm_sin libm_cos cos_first c nib_angle_deg
       = (d <- FastTrig.nib_direction libm_sin libm_cos nib_angle_deg ;;
          Done (c', d)).
Proof.
  intros Hc.
  set (full := TrigCache.make
                 (TrigCache.filled libm_sin (Z.to_nat FastTrig.TABLE_SIZE))
                 (TrigCache.filled libm_cos (Z.to_nat FastTrig.TABLE_SIZE))
                 true).
  pose proof (filled_well_formed libm_sin libm_cos) as Hfull.
  fold full in Hfull.
  destruct (initialize_spec libm_sin libm_cos c Hc) as [Hi Hsame].
  destruct (initialize_spec libm_sin libm_cos full Hfull) as [Hi' _].
  fold full in Hi, Hsame, Hi'.
  exists full. split; [exact Hfull|]. split; [reflexivity|].
  split; [exact Hsame|].
  unfold TrigCache.nib_direction, FastTrig.nib_direction,
    TrigCache.fast_cos, TrigCache.fast_sin, FastTrig.fast_cos,
    FastTrig.fast_sin.
  rewrite Hi. cbn [bind].
  destruct (FastTrig.table_index (nib_angle_deg * M_PI / 180.0)%float)
    as [index|] eqn:E.
  - pose proof (table_index_in_table _ _ E) as Hrange.
    assert (Hs : load (Some (TrigCache.sin_table full)) index
                 = Done (FastTrig.sin_table libm_sin index)).
    { apply filled_lookup. unfold FastTrig.TABLE_SIZE in *. lia. }
    assert (Hk : load (Some (TrigCache.cos_table full)) index
                 = Done (FastTrig.cos_table libm_cos index)).
    { apply filled_lookup. unfold FastTrig.TABLE_SIZE in *. lia. }
    destruct cos_first; rewrite Hi'; cbn [bind]; rewrite ?Hs, ?Hk;
      cbn [bind fst snd]; rewrite Hi'; cbn [bind]; rewrite ?Hs, ?Hk;
      reflexivity.
  - destruct cos_first; rewrite Hi'; reflexivity.
Qed.

Lemma cached_direction_matches_library_witness :
  exists c' : TrigCache.t,
    TrigCache.well_formed sin_near_zero cos_near_zero c'
    /\ TrigCache.initialized c' = true
    /\ (TrigCache.initialized TrigCache.startup = true
        -> c' = TrigCache.startup)
    /\ TrigCache.nib_direction sin_near_zero cos_near_zero true
         TrigCache.startup 0
       = (d <- FastTrig.nib_direction sin_near_zero cos_near_zero 0 ;;
          Done (c', d)).
Proof.
  apply (cached_direction_matches_library sin_near_zero cos_near_zero
           TrigCache.startup true 0).
  split; [reflexivity|]. split; [reflexivity|]. discriminate.
Defined.

(* ------------------------------------------------------------------ *)
(** ** Strokes too short to filter *)

Lemma simplify_spec_copy (l : list PointData) (input_count : Z)
    (epsilon : float) (buf : list PointData) (max_output : Z) :
  1 <= input_count <= 2 ->
  input_count <= Z.of_nat (length l) ->
  1 <= max_output <= Z.of_nat (length buf) ->
  let c := Z.to_nat (int_min input_count max_output) in
  simplify_stroke_rdp (Some l) input_count epsilon (Some buf) max_output
  = Done (int_min input_count max_output, Some (firstn c l ++ skipn c buf)).
Proof.
  intros Hn Hin Hcap c. unfold simplify_stroke_rdp.
  cbn [is_null orb].
  destruct (Z.eqb_spec input_count 0); [lia|].
  destruct (Z.leb_spec max_output 0); [lia|].
  destruct (Z.leb_spec input_count 2); [|lia].
  cbn [orb]. fold c.
  assert (Hc : (c <= length l)%nat /\ (c <= length buf)%nat).
  { subst c. unfold int_min. destruct (Z.ltb_spec max_output input_count); lia. }
  destruct Hc as [Hcl Hcb].
  destruct (split_at l c Hcl) as [Hl Hlen].
  pose proof (copy_loop_spec (firstn c l) [] (skipn c l) [] buf eq_refl) as HC.
  cbn [app length] in HC. rewrite Hlen, <- Hl in HC.
  change (Z.of_nat 0) with 0 in HC.
  rewrite HC by exact Hcb. reflexivity.
Qed.

(** X20. A stroke of one or two samples is too short to filter: given
    valid arrays, smoothing (whatever the factor) and simplification
    (whatever the tolerance) both copy the first
    min(input_count, max_output) samples unchanged, return that count and
    leave the rest of the output as it was. *)
Theorem short_stroke_is_copied (l : list PointData) (input_count : Z)
    (smoothing_factor epsilon : float) (buf : list PointData)
    (max_output : Z) :
  1 <= input_count <= 2 ->
  input_count <= Z.of_nat (length l) ->
  1 <= max_output <= Z.of_nat (length buf) ->
  let c := Z.to_nat (int_min input_count max_output) in
  Z.of_nat c = Z.min input_count max_output
  /\ smooth_stroke_points (Some l) input_count smoothing_factor (Some buf)
       max_output
     = Done (Z.of_nat c, Some (firstn c l ++ skipn c buf))
  /\ simplify_stroke_rdp (Some l) input_count epsilon (Some buf) max_output
     = Done (Z.of_nat c, Some (firstn c l ++ skipn c buf)).
Proof.
  intros Hn Hin Hcap c.
  assert (Hc : Z.of_nat c = int_min input_count max_output).
  { subst c. unfold int_min. destruct (Z.ltb_spec max_output input_count); lia. }
  split; [|split].
  - rewrite Hc. unfold int_min.
    destruct (Z.ltb_spec max_output input_count); lia.
  - rewrite Hc. apply smooth_spec_copy; lia.
  - rewrite Hc. apply simplify_spec_copy; lia.
Qed.

Lemma short_stroke_is_copied_witness :
  let c := Z.to_nat (int_min 2 3) in
  Z.of_nat c = Z.min 2 3
  /\ smooth_stroke_points (Some two_on_axis) 2 0.5
       (Some (repeat zero_point 3)) 3
     = Done (Z.of_nat c,
             Some (firstn c two_on_axis ++ skipn c (repeat zero_point 3)))
  /\ simplify_stroke_rdp (Some two_on_axis) 2 1
       (Some (repeat zero_point 3)) 3
     = Done (Z.of_nat c,
             Some (firstn c two_on_axis ++ skipn c (repeat zero_point 3))).
Proof.
  apply (short_stroke_is_copied two_on_axis 2 0.5 1 (repeat zero_point 3) 3).
  - lia.
  - simpl. lia.
  - simpl. lia.
Defined.

(* ------------------------------------------------------------------ *)
(** ** Opacity, as emitted *)

(** [std::clamp] hands a NaN through. *)
Lemma std_clamp_of_nan (v lo hi : float) :
  is_nan v = true -> is_nan (std_clamp v lo hi) = true.
Proof.
  intros H. unfold std_clamp.
  assert (H1 : (v <? lo)%float = false).
  { rewrite ltb_spec, (is_nan_shape _ H). reflexivity. }
  assert (H2 : (hi <? v)%float = false).
  { rewrite ltb_spec, (is_nan_shape _ H). unfold SFltb.
    destruct (Prim2SF hi); reflexivity. }
  rewrite H1, H2. exact H.
Qed.

Lemma quad_clamped_alpha (nib_dir : Vector2D.t)
    (thickness_base opacity : float) (ab : PointData * PointData) :
  Forall (clamped_alpha opacity (fst ab) (snd ab))
    (quad nib_dir thickness_base opacity ab).
Proof.
  eapply Forall_impl; [| apply quad_alpha].
  intros v Hv. unfold clamped_alpha. cbv zeta.
  split; [exact Hv|]. rewrite Hv. split.
  - intros Hnan. apply std_clamp_range; (exact Hnan || reflexivity).
  - apply std_clamp_of_nan.
Qed.

(** C2, amended.  The mesh builder writes four vertices for every segment
    it emits, and each of the four carries the alpha
    [std::clamp(opacity * pressure, 0, 1)] with [pressure] the average of
    the pressures of the two end samples of that segment; this value lies
    in [0, 1] whenever the product is not NaN (opacity parameters outside
    [0, 1] included) and is NaN when the product is.  The segment
    calculator emits the opacity parameter itself in every descriptor,
    unclamped. *)
Theorem opacity_as_emitted
    (libm_sin libm_cos : float -> float) (l : list PointData)
    (point_count : Z) (stroke_width opacity nib_angle_deg
    nib_width_factor : float) (nib_dir : Vector2D.t) :
  2 <= point_count <= Z.of_nat (length l) ->
  FastTrig.nib_direction libm_sin libm_cos nib_angle_deg = Done nib_dir ->
  (forall (sbuf : list CalligraphySegment) (max_segments : Z),
      1 <= max_segments <= Z.of_nat (length sbuf) ->
      exists segs : list CalligraphySegment,
        calculate_calligraphy_segments libm_sin libm_cos (Some l) point_count
          stroke_width opacity nib_angle_deg nib_width_factor (Some sbuf)
          max_segments
        = Done (Z.of_nat (length segs),
                Some (segs ++ skipn (length segs) sbuf))
        /\ Forall (fun s => s_alpha s = opacity) segs)
  /\ (forall (vs : list Vertex2D) (ixs : list Z) (count0 max_vertices
             max_indices : Z),
         4 <= max_vertices <= Z.of_nat (length vs) ->
         6 <= max_indices <= Z.of_nat (length ixs) ->
         let kept := mesh_pairs l point_count max_vertices max_indices in
         exists (quads : list (list Vertex2D)) (m : mesh_out),
           build_calligraphy_mesh libm_sin libm_cos (Some l) point_count
             stroke_width opacity nib_angle_deg nib_width_factor max_vertices
             max_indices (mkMeshOut (Some vs) (Some ixs) (Some count0))
           = Done (4 * Z.of_nat (length kept), m)
           /\ out_vertices m
              = Some (concat quads ++ skipn (4 * length kept) vs)
           /\ Forall2
                (fun ab q =>
                   length q = 4%nat
                   /\ Forall (clamped_alpha opacity (fst ab) (snd ab)) q)
                kept quads).
Proof.
  intros Hin Hnib. split.
  - intros sbuf max_segments Hcap.
    exists (descriptors nib_dir stroke_width opacity nib_width_factor l
              point_count max_segments).
    split; [apply calculate_spec; assumption|].
    unfold descriptors. apply Forall_map. apply Forall_forall.
    intros ab _. reflexivity.
  - intros vs ixs count0 max_vertices max_indices Hv Hi kept.
    pose proof (mesh_spec libm_sin libm_cos l point_count stroke_width opacity
                  nib_angle_deg nib_width_factor max_vertices max_indices
                  vs ixs count0 nib_dir Hin Hv Hi Hnib) as H.
    cbv zeta in H. fold kept in H.
    set (tb := (stroke_width * std_clamp nib_width_factor 0.3 2.5)%float) in *.
    exists (map (quad nib_dir tb opacity) kept). eexists.
    split; [exact H|]. cbn [out_vertices].
    split; [rewrite flat_map_concat_map; reflexivity|].
    clear H. induction kept as [|ab kept IH]; constructor.
    + split; [reflexivity | apply quad_clamped_alpha].
    + exact IH.
Qed.

Lemma opacity_as_emitted_witness :
  (exists segs : list CalligraphySegment,
      calculate_calligraphy_segments sin_near_zero cos_near_zero
        (Some three_on_axis) 3 1 2 0 1 (Some (repeat zero_segment 2)) 2
      = Done (Z.of_nat (length segs),
              Some (segs ++ skipn (length segs) (repeat zero_segment 2)))
      /\ Forall (fun s => s_alpha s = 2%float) segs)
  /\ (let kept := mesh_pairs three_on_axis 3 8 12 in
      exists (quads : list (list Vertex2D)) (m : mesh_out),
        build_calligraphy_mesh sin_near_zero cos_near_zero
          (Some three_on_axis) 3 1 2 0 1 8 12
          (mkMeshOut (Some (repeat zero_vertex 8)) (Some (repeat 0 12))
             (Some 0))
        = Done (4 * Z.of_nat (length kept), m)
        /\ out_vertices m
           = Some (concat quads
                     ++ skipn (4 * length kept) (repeat zero_vertex 8))
        /\ Forall2
             (fun ab q =>
                length q = 4%nat
                /\ Forall (clamped_alpha 2 (fst ab) (snd ab)) q)
             kept quads).
Proof.
  destruct (opacity_as_emitted sin_near_zero cos_near_zero three_on_axis 3
              1 2 0 1 (Vector2D.make 1 0)) as [Hs Hm].
  - simpl. lia.
  - vm_compute. reflexivity.
  - split.
    + apply Hs. simpl. lia.
    + apply Hm; simpl; lia.
Defined.

(* ------------------------------------------------------------------ *)
(** ** The mesh builder: counts, groups and the null-pointer exit *)

(** With a shape failure no pair is emitted. *)
Lemma mesh_pairs_shape (l : list PointData) (point_count max_vertices
    max_indices : Z) :
  point_count < 2 \/ max_vertices < 4 \/ max_indices < 6 ->
  mesh_pairs l point_count max_vertices max_indices = [].
Proof.
  intros Hshape. unfold mesh_pairs.
  destruct Hshape as [Hp | Hcap].
  - assert (Hlen : (length (firstn (Z.to_nat point_count) l) <= 1)%nat)
      by (rewrite length_firstn; lia).
    destruct (firstn (Z.to_nat point_count) l) as [|a [|b rest]];
      [apply firstn_nil | apply firstn_nil | cbn [length] in Hlen; lia].
  - replace (mesh_room max_vertices max_indices 0 0) with O; [reflexivity|].
    unfold mesh_room. rewrite !Z.sub_0_r.
    assert (max_vertices / 4 <= 0 \/ max_indices / 6 <= 0).
    { destruct Hcap as [H | H]; [left | right].
      - assert (max_vertices / 4 < 1) by (apply Z.div_lt_upper_bound; lia). lia.
      - assert (max_indices / 6 < 1) by (apply Z.div_lt_upper_bound; lia). lia. }
    lia.
Qed.

(** The indices of [k] quads, one group of six per quad. *)
Lemma index_run_groups (k : nat) :
  forall vcount,
    index_run vcount k
    = concat (map (fun j => quad_indices (to_unsigned (vcount + 4 * Z.of_nat j)))
                (seq 0 k)).
Proof.
  induction k as [|k IH]; intros vcount; [reflexivity|].
  cbn [index_run seq map concat]. rewrite IH.
  change (Z.of_nat 0) with 0. rewrite Z.mul_0_r, Z.add_0_r. f_equal. f_equal.
  rewrite <- seq_shift, map_map. apply map_ext. intros j.
  f_equal. f_equal. lia.
Qed.

(** C6, as stated, fails for a null input pointer: the builder returns 0
    and does not touch the cell behind [out_index_count], so the index
    count the caller reads there is whatever the cell held before, here
    7, which is no multiple of 6. *)
Lemma mesh_null_input_stale_index_count :
  (forall libm_sin libm_cos : float -> float,
     build_calligraphy_mesh libm_sin libm_cos None 3 1 1 0 1 8 12
       (mkMeshOut (Some (repeat zero_vertex 8)) (Some (repeat 0 12)) (Some 7))
     = Done (0, mkMeshOut (Some (repeat zero_vertex 8)) (Some (repeat 0 12))
                  (Some 7)))
  /\ 7 mod 6 <> 0.
Proof.
  split; [| vm_compute; discriminate].
  intros libm_sin libm_cos. apply mesh_null_spec. left. reflexivity.
Qed.

(** C6, amended.  Given four pointers that are not null, arrays of the
    stated sizes and a nib angle whose table index is defined, the mesh
    builder emits [k] segments, the first [k] non-degenerate ones that
    fit both capacities: it returns [4 * k] and stores [6 * k] behind
    [out_index_count]; what it writes is, for each emitted segment in
    stroke order, the four vertices of that segment's quad and one group
    of six indices, at the front of the two arrays, and nothing else;
    every index written is below [4 * k]; and both counts stay within the
    capacities.  With a null pointer argument it returns 0 and writes
    nothing, the cell behind [out_index_count] included. *)
Theorem mesh_counts_and_indices
    (libm_sin libm_cos : float -> float) (point_count : Z)
    (stroke_width opacity nib_angle_deg nib_width_factor : float)
    (max_vertices max_indices : Z) :
  (forall (l : list PointData) (vs : list Vertex2D) (ixs : list Z)
          (count0 : Z) (nib_dir : Vector2D.t),
      point_count <= Z.of_nat (length l) ->
      max_vertices <= Z.of_nat (length vs) ->
      max_indices <= Z.of_nat (length ixs) ->
      FastTrig.nib_direction libm_sin libm_cos nib_angle_deg = Done nib_dir ->
      let thickness_base :=
        (stroke_width * std_clamp nib_width_factor 0.3 2.5)%float in
      let kept := mesh_pairs l point_count max_vertices max_indices in
      let k := length kept in
      exists (quads : list (list Vertex2D)) (runs : list (list Z)),
        build_calligraphy_mesh libm_sin libm_cos (Some l) point_count
          stroke_width opacity nib_angle_deg nib_width_factor max_vertices
          max_indices (mkMeshOut (Some vs) (Some ixs) (Some count0))
        = Done (4 * Z.of_nat k,
                mkMeshOut (Some (concat quads ++ skipn (4 * k) vs))
                  (Some (concat runs ++ skipn (6 * k) ixs))
                  (Some (6 * Z.of_nat k)))
        /\ Forall2
             (fun ab q =>
                q = quad nib_dir thickness_base opacity ab
                /\ length q = 4%nat)
             kept quads
        /\ length runs = k
        /\ Forall
             (fun r =>
                length r = 6%nat
                /\ Forall (fun v => 0 <= v < 4 * Z.of_nat k) r)
             runs
        /\ (k = O \/ (4 * Z.of_nat k <= max_vertices
                      /\ 6 * Z.of_nat k <= max_indices)))
  /\ (forall (points : ptr PointData) (m : mesh_out),
         some_null points m ->
         build_calligraphy_mesh libm_sin libm_cos points point_count
           stroke_width opacity nib_angle_deg nib_width_factor max_vertices
           max_indices m
         = Done (0, m)).
Proof.
  split; [| intros points m; apply mesh_null_spec].
  intros l vs ixs count0 nib_dir Hin Hvcap Hicap Hnib thickness_base kept k.
  destruct (Z.ltb_spec point_count 2) as [Hp|Hp];
    [| destruct (Z.ltb_spec max_vertices 4) as [Hv|Hv];
       [| destruct (Z.ltb_spec max_indices 6) as [Hi|Hi]]].
  1-3: exists [], [];
    assert (Hkept : kept = [])
      by (apply mesh_pairs_shape; lia);
    subst k; rewrite Hkept;
    pose proof (mesh_shape_spec libm_sin libm_cos (Some l)
                  point_count stroke_width opacity nib_angle_deg
                  nib_width_factor max_vertices max_indices
                  (mkMeshOut (Some vs) (Some ixs) (Some count0))) as H;
    rewrite H;
    [ repeat split; auto
    | unfold some_null; cbn; intros [E | [E | [E | E]]]; discriminate
    | lia ].
  exists (map (quad nib_dir thickness_base opacity) kept),
    (map (fun j => quad_indices (to_unsigned (0 + 4 * Z.of_nat j))) (seq 0 k)).
  rewrite <- flat_map_concat_map, <- index_run_groups.
  split; [apply mesh_spec; (assumption || lia)|].
  split; [| split; [| split]].
  - clearbody kept. clear k. induction kept as [|ab kept IH]; constructor.
    + split; reflexivity.
    + exact IH.
  - rewrite length_map, length_seq. reflexivity.
  - pose proof (index_run_bound k 0 ltac:(lia)) as B.
    rewrite Z.add_0_l, index_run_groups in B.
    rewrite Forall_concat in B.
    rewrite Forall_forall in B |- *. intros r Hr. split; [| exact (B r Hr)].
    apply in_map_iff in Hr. destruct Hr as (j & <- & _). reflexivity.
  - right. apply mesh_pairs_fit; lia.
Qed.

Lemma mesh_counts_and_indices_witness :
  let thickness_base := (1 * std_clamp 1 0.3 2.5)%float in
  let kept := mesh_pairs three_on_axis 3 9 13 in
  let k := length kept in
  (exists (quads : list (list Vertex2D)) (runs : list (list Z)),
      build_calligraphy_mesh sin_near_zero cos_near_zero (Some three_on_axis)
        3 1 1 0 1 9 13
        (mkMeshOut (Some (repeat zero_vertex 9)) (Some (repeat 77 13))
           (Some 5))
      = Done (4 * Z.of_nat k,
              mkMeshOut
                (Some (concat quads ++ skipn (4 * k) (repeat zero_vertex 9)))
                (Some (concat runs ++ skipn (6 * k) (repeat 77 13)))
                (Some (6 * Z.of_nat k)))
      /\ Forall2
           (fun ab q =>
              q = quad (Vector2D.make 1 0) thickness_base 1 ab
              /\ length q = 4%nat)
           kept quads
      /\ length runs = k
      /\ Forall
           (fun r =>
              length r = 6%nat
              /\ Forall (fun v => 0 <= v < 4 * Z.of_nat k) r)
           runs
      /\ (k = O \/ (4 * Z.of_nat k <= 9 /\ 6 * Z.of_nat k <= 13)))
  /\ build_calligraphy_mesh sin_near_zero cos_near_zero None 3 1 1 0 1 9 13
       (mkMeshOut (Some (repeat zero_vertex 9)) (Some (repeat 77 13))
          (Some 5))
     = Done (0, mkMeshOut (Some (repeat zero_vertex 9))
                  (Some (repeat 77 13)) (Some 5)).
Proof.
  destruct (mesh_counts_and_indices sin_near_zero cos_near_zero 3 1 1 0 1
              9 13) as [Hwritten Hnull].
  split.
  - apply (Hwritten three_on_axis (repeat zero_vertex 9) (repeat 77 13) 5
             (Vector2D.make 1 0)).
    + simpl. lia.
    + simpl. lia.
    + simpl. lia.
    + vm_compute. reflexivity.
  - apply Hnull. left. reflexivity.
Defined.

(* ------------------------------------------------------------------ *)
(** ** Thickness: the floor and the overflow *)

Lemma finite_shape_is_finite (v : float) :
  (exists s, Prim2SF v = S754_zero s)
  \/ (exists s m e, Prim2SF v = S754_finite s m e) ->
  is_finite v = true.
Proof.
  unfold is_finite, is_nan, is_infinity. rewrite !eqb_spec, abs_spec.
  unfold SFeqb. intros [[s E] | (s & m & e & E)]; rewrite E.
  - destruct s; reflexivity.
  - rewrite SFcompare_refl by discriminate. reflexivity.
Qed.

Lemma floored_product_spec (p : float) : floored_product p (std_max 0.6 p).
Proof.
  unfold floored_product. split; [reflexivity|].
  split; [apply std_max_floor; reflexivity|].
  unfold std_max. destruct (0.6 <? p)%float eqn:E.
  - split; [tauto|]. intros Hp. apply finite_shape_is_finite.
    rewrite ltb_spec in E. unfold SFltb in E.
    destruct (Prim2SF p) as [s | s | | s m e] eqn:Ep.
    + left. exists s. reflexivity.
    + exfalso. destruct s; [vm_compute in E; discriminate|].
      apply Hp. apply Prim2SF_inj. rewrite Ep. reflexivity.
    + vm_compute in E. discriminate.
    + right. exists s, m, e. reflexivity.
  - split; [| intros _; vm_compute; reflexivity].
    split.
    + intros H. apply (f_equal Prim2SF) in H. vm_compute in H. discriminate.
    + intros ->. vm_compute in E. discriminate.
Qed.

Lemma descriptor_thickness (nib_dir : Vector2D.t)
    (thickness_base opacity : float) (ab : PointData * PointData) :
  s_thickness (descriptor nib_dir thickness_base opacity ab)
  = std_max 0.6 (thickness_product nib_dir thickness_base ab).
Proof. reflexivity. Qed.

Lemma quad_from_thickness (nib_dir : Vector2D.t)
    (thickness_base opacity : float) (ab : PointData * PointData) :
  map position (quad nib_dir thickness_base opacity ab)
  = corners_of_descriptor
      (mkSegment (p_x (fst ab)) (p_y (fst ab)) (p_x (snd ab)) (p_y (snd ab))
         (std_max 0.6 (thickness_product nib_dir thickness_base ab)) opacity).
Proof. reflexivity. Qed.

(** C7, amended.  For every input, finite or not, given valid arrays and
    a defined nib direction: the thickness of the descriptor that the
    segment calculator emits for a segment, and the thickness from which
    the mesh builder places the four corners of the quad of a segment, is
    the product [thickness_base * (0.35 + 0.9 * cross) * pressure] of that
    segment floored at 0.6.  It is at least 0.6 and never NaN; it is
    +infinity exactly when the product is +infinity, and finite
    otherwise. *)
Theorem thickness_at_least_floor
    (libm_sin libm_cos : float -> float) (l : list PointData)
    (point_count : Z) (stroke_width opacity nib_angle_deg
    nib_width_factor : float) (nib_dir : Vector2D.t) :
  2 <= point_count <= Z.of_nat (length l) ->
  FastTrig.nib_direction libm_sin libm_cos nib_angle_deg = Done nib_dir ->
  let thickness_base :=
    (stroke_width * std_clamp nib_width_factor 0.3 2.5)%float in
  (forall (sbuf : list CalligraphySegment) (max_segments : Z),
      1 <= max_segments <= Z.of_nat (length sbuf) ->
      let kept :=
        firstn (Z.to_nat max_segments)
          (live_pairs (firstn (Z.to_nat point_count) l)) in
      exists segs : list CalligraphySegment,
        calculate_calligraphy_segments libm_sin libm_cos (Some l) point_count
          stroke_width opacity nib_angle_deg nib_width_factor (Some sbuf)
          max_segments
        = Done (Z.of_nat (length segs),
                Some (segs ++ skipn (length segs) sbuf))
        /\ Forall2
             (fun ab s =>
                floored_product (thickness_product nib_dir thickness_base ab)
                  (s_thickness s))
             kept segs)
  /\ (forall (vs : list Vertex2D) (ixs : list Z) (count0 max_vertices
             max_indices : Z),
         4 <= max_vertices <= Z.of_nat (length vs) ->
         6 <= max_indices <= Z.of_nat (length ixs) ->
         let kept := mesh_pairs l point_count max_vertices max_indices in
         exists (quads : list (list Vertex2D)) (m : mesh_out),
           build_calligraphy_mesh libm_sin libm_cos (Some l) point_count
             stroke_width opacity nib_angle_deg nib_width_factor max_vertices
             max_indices (mkMeshOut (Some vs) (Some ixs) (Some count0))
           = Done (4 * Z.of_nat (length kept), m)
           /\ out_vertices m
              = Some (concat quads ++ skipn (4 * length kept) vs)
           /\ Forall2
                (fun ab q =>
                   exists thickness : float,
                     floored_product
                       (thickness_product nib_dir thickness_base ab) thickness
                     /\ map position q
                        = corners_of_descriptor
                            (mkSegment (p_x (fst ab)) (p_y (fst ab))
                               (p_x (snd ab)) (p_y (snd ab)) thickness
                               opacity))
                kept quads).
Proof.
  intros Hin Hnib thickness_base. split.
  - intros sbuf max_segments Hcap kept.
    exists (descriptors nib_dir stroke_width opacity nib_width_factor l
              point_count max_segments).
    split; [apply calculate_spec; assumption|].
    unfold descriptors. fold thickness_base kept. clearbody kept.
    induction kept as [|ab kept IH]; constructor.
    + rewrite descriptor_thickness. apply floored_product_spec.
    + exact IH.
  - intros vs ixs count0 max_vertices max_indices Hv Hi kept.
    pose proof (mesh_spec libm_sin libm_cos l point_count stroke_width opacity
                  nib_angle_deg nib_width_factor max_vertices max_indices
                  vs ixs count0 nib_dir Hin Hv Hi Hnib) as H.
    cbv zeta in H. fold kept thickness_base in H.
    exists (map (quad nib_dir thickness_base opacity) kept). eexists.
    split; [exact H|]. cbn [out_vertices].
    split; [rewrite flat_map_concat_map; reflexivity|].
    clear H. clearbody kept. induction kept as [|ab kept IH]; constructor.
    + exists (std_max 0.6 (thickness_product nib_dir thickness_base ab)).
      split; [apply floored_product_spec | apply quad_from_thickness].
    + exact IH.
Qed.

Lemma thickness_at_least_floor_witness :
  let nib_dir := Vector2D.make 1 0 in
  let thickness_base := (1e308 * std_clamp 2.5 0.3 2.5)%float in
  (let kept := firstn (Z.to_nat 2) (live_pairs (firstn (Z.to_nat 3)
                                                  three_on_axis)) in
   exists segs : list CalligraphySegment,
     calculate_calligraphy_segments sin_near_zero cos_near_zero
       (Some three_on_axis) 3 1e308 1 0 2.5 (Some (repeat zero_segment 2)) 2
     = Done (Z.of_nat (length segs),
             Some (segs ++ skipn (length segs) (repeat zero_segment 2)))
     /\ Forall2
          (fun ab s =>
             floored_product (thickness_product nib_dir thickness_base ab)
               (s_thickness s))
          kept segs)
  /\ (let kept := mesh_pairs three_on_axis 3 8 12 in
      exists (quads : list (list Vertex2D)) (m : mesh_out),
        build_calligraphy_mesh sin_near_zero cos_near_zero
          (Some three_on_axis) 3 1e308 1 0 2.5 8 12
          (mkMeshOut (Some (repeat zero_vertex 8)) (Some (repeat 0 12))
             (Some 0))
        = Done (4 * Z.of_nat (length kept), m)
        /\ out_vertices m
           = Some (concat quads
                     ++ skipn (4 * length kept) (repeat zero_vertex 8))
        /\ Forall2
             (fun ab q =>
                exists thickness : float,
                  floored_product
                    (thickness_product nib_dir thickness_base ab) thickness
                  /\ map position q
                     = corners_of_descriptor
                         (mkSegment (p_x (fst ab)) (p_y (fst ab))
                            (p_x (snd ab)) (p_y (snd ab)) thickness 1))
             kept quads).
Proof.
  destruct (thickness_at_least_floor sin_near_zero cos_near_zero
              three_on_axis 3 1e308 1 0 2.5 (Vector2D.make 1 0))
    as [Hs Hm].
  - simpl. lia.
  - vm_compute. reflexivity.
  - split.
    + apply Hs. simpl. lia.
    + apply Hm; simpl; lia.
Defined.

(* ------------------------------------------------------------------ *)
(** ** Resampling: the end points, the spacing and the capacity *)

(** Once every remaining sample has a slot, more room changes nothing. *)
Lemma spaced_walk_enough (spacing2 : float) (rem : list PointData) :
  forall last r1 r2,
    (length rem <= r1)%nat -> (length rem <= r2)%nat ->
    spaced_walk spacing2 last rem r1 = spaced_walk spacing2 last rem r2.
Proof.
  induction rem as [|p rem IH]; intros last r1 r2 H1 H2.
  - destruct r1, r2; reflexivity.
  - cbn [length] in H1, H2.
    destruct r1 as [|r1]; [lia|]. destruct r2 as [|r2]; [lia|].
    cbn [spaced_walk].
    destruct (spacing2 <=? _)%float.
    + f_equal. apply IH; lia.
    + apply IH; lia.
Qed.

(** With less room the walk keeps a prefix of what it keeps with room for
    every sample. *)
Lemma spaced_walk_firstn (spacing2 : float) (rem : list PointData) :
  forall last room,
    spaced_walk spacing2 last rem room
    = firstn room (spaced_walk spacing2 last rem (length rem)).
Proof.
  induction rem as [|p rem IH]; intros last room.
  - destruct room; reflexivity.
  - destruct room as [|room]; [reflexivity|].
    cbn [spaced_walk length].
    destruct (spacing2 <=? _)%float.
    + cbn [firstn]. f_equal. apply IH.
    + rewrite (spaced_walk_enough spacing2 rem last (S (length rem))
                 (length rem)) by lia.
      apply IH.
Qed.

(** A walk that keeps as many samples as it visits keeps them all. *)
Lemma spaced_walk_all (spacing2 : float) (rem : list PointData) :
  forall last room,
    length (spaced_walk spacing2 last rem room) = length rem ->
    spaced_walk spacing2 last rem room = rem.
Proof.
  induction rem as [|p rem IH]; intros last room Hlen.
  - destruct room; reflexivity.
  - destruct room as [|room]; [cbn in Hlen; lia|].
    cbn [spaced_walk] in *.
    destruct (spacing2 <=? _)%float.
    + cbn [length] in Hlen. f_equal. apply IH. lia.
    + pose proof (spaced_walk_length spacing2 rem last (S room)) as [_ H].
      cbn [length] in Hlen. lia.
Qed.

Lemma resampled_last (spacing : float) (p0 : PointData)
    (rest : list PointData) (max_output : Z) :
  rest <> [] -> 1 <= max_output ->
  let em := resampled spacing p0 rest max_output in
  Z.of_nat (S (length rest)) <= max_output
  \/ Z.of_nat (length em) < max_output ->
  nth_error em (length em - 1) = Some (last rest p0).
Proof.
  intros Hrest Hcap em Hroom. subst em. unfold resampled in *.
  set (walk := spaced_walk _ p0 rest _) in *.
  destruct (spaced_walk_length (spacing * spacing)%float rest p0
              (Z.to_nat (max_output - 1))) as [Hw1 Hw2].
  fold walk in Hw1, Hw2.
  destruct (Z.ltb_spec (Z.of_nat (S (length walk))) max_output) as [Hlt|Hge].
  - rewrite app_comm_cons. apply nth_error_last_app.
  - rewrite app_nil_r in *. cbn [length] in *.
    assert (Hall : length walk = length rest) by lia.
    subst walk. rewrite (spaced_walk_all _ _ _ _ Hall).
    replace (S (length rest) - 1)%nat with (length rest) by lia.
    destruct (exists_last Hrest) as [front [pN E]]. rewrite E.
    rewrite last_last, app_comm_cons, length_app. cbn [length].
    rewrite nth_error_app2 by (cbn [length]; lia).
    replace (length front + 1 - length (p0 :: front))%nat with O
      by (cbn [length]; lia).
    reflexivity.
Qed.

(** With room for one sample more than the input has, the walk visits
    every sample and the last sample is appended. *)
Lemma resampled_full (spacing : float) (p0 : PointData)
    (rest : list PointData) (max_output : Z) :
  Z.of_nat (S (length rest)) < max_output ->
  resampled spacing p0 rest max_output
  = p0 :: spaced_walk (spacing * spacing)%float p0 rest (length rest)
       ++ [last rest p0].
Proof.
  intros Hroom. unfold resampled.
  rewrite (spaced_walk_enough _ rest p0 (Z.to_nat (max_output - 1))
             (length rest)) by lia.
  destruct (spaced_walk_length (spacing * spacing)%float rest p0
              (length rest)) as [Hw _].
  destruct (Z.ltb_spec
              (Z.of_nat (S (length (spaced_walk (spacing * spacing)%float p0
                                      rest (length rest)))))
              max_output); [reflexivity | lia].
Qed.

(** A smaller capacity cuts the output of a sufficient capacity short. *)
Lemma resampled_prefix (spacing : float) (p0 : PointData)
    (rest : list PointData) (max_output : Z) :
  1 <= max_output ->
  resampled spacing p0 rest max_output
  = firstn (Z.to_nat max_output)
      (p0 :: spaced_walk (spacing * spacing)%float p0 rest (length rest)
          ++ [last rest p0]).
Proof.
  intros Hcap. unfold resampled.
  rewrite (spaced_walk_firstn _ rest p0 (Z.to_nat (max_output - 1))).
  set (walk := spaced_walk _ p0 rest (length rest)).
  replace (Z.to_nat max_output) with (S (Z.to_nat (max_output - 1))) by lia.
  set (room := Z.to_nat (max_output - 1)).
  assert (Hm : max_output = Z.of_nat (S room)) by (subst room; lia).
  cbn [firstn]. f_equal. rewrite firstn_app.
  destruct (Nat.le_gt_cases room (length walk)) as [Hle | Hgt].
  - replace (room - length walk)%nat with O by lia.
    cbn [firstn]. rewrite length_firstn.
    destruct (Z.ltb_spec (Z.of_nat (S (Nat.min room (length walk))))
                max_output); [lia | reflexivity].
  - rewrite (firstn_all2 walk) by lia.
    destruct (Z.ltb_spec (Z.of_nat (S (length walk))) max_output); [| lia].
    f_equal. destruct (room - length walk)%nat as [|d] eqn:Ed; [lia|].
    cbn [firstn]. rewrite firstn_nil. reflexivity.
Qed.

(** C4, amended.  For a non-empty input and a capacity of at least 1, the
    first input sample is emitted first; the last input sample is emitted
    last whenever the capacity is at least the input count or the
    returned count is below the capacity; and every consecutive pair of
    emitted samples, except possibly the last pair, is at least the
    spacing apart (squared distance at least the squared spacing).
    Nothing but the emitted samples is written.  Every capacity above the
    input count gives one and the same output [full], and the output for
    a smaller capacity is [full] cut short after [max_output] samples:
    that is the one way the last input sample gets lost. *)
Theorem resample_endpoints_and_spacing
    (l : list PointData) (input_count : Z) (spacing : float)
    (buf : list PointData) (max_output : Z) :
  1 <= input_count <= Z.of_nat (length l) ->
  1 <= max_output <= Z.of_nat (length buf) ->
  exists em full : list PointData,
    resample_stroke_points (Some l) input_count spacing (Some buf) max_output
    = Done (Z.of_nat (length em), Some (em ++ skipn (length em) buf))
    /\ (1 <= length em)%nat
    /\ Z.of_nat (length em) <= max_output
    /\ nth_error em 0 = nth_error l 0
    /\ (input_count <= max_output \/ Z.of_nat (length em) < max_output ->
        nth_error em (length em - 1)
        = nth_error l (Z.to_nat (input_count - 1)))
    /\ (forall i a b,
          nth_error em i = Some a -> nth_error em (S i) = Some b ->
          (S (S i) < length em)%nat ->
          ((spacing * spacing) <=? dist2 (p_x a) (p_y a) (p_x b) (p_y b))%float
          = true)
    /\ (forall (buf' : list PointData) (max_output' : Z),
          input_count < max_output' <= Z.of_nat (length buf') ->
          resample_stroke_points (Some l) input_count spacing (Some buf')
            max_output'
          = Done (Z.of_nat (length full),
                  Some (full ++ skipn (length full) buf')))
    /\ em = firstn (Z.to_nat max_output) full.
Proof.
  intros Hin Hcap.
  destruct (split_input l input_count Hin) as (p0 & rest & back & -> & ->).
  destruct rest as [|p1 rest].
  - (* a single sample *)
    exists [p0], [p0].
    assert (Hone : forall (b : list PointData) (m : Z),
               1 <= m <= Z.of_nat (length b) ->
               resample_stroke_points (Some (p0 :: [] ++ back))
                 (Z.of_nat 1) spacing (Some b) m
               = Done (Z.of_nat 1, Some ([p0] ++ skipn 1 b))).
    { intros b m Hm. destruct b as [|b0 b]; [simpl in Hm; lia|].
      unfold resample_stroke_points. cbn [is_null orb length].
      destruct (Z.leb_spec (Z.of_nat 1) 0); [lia|].
      destruct (Z.leb_spec m 0); [lia|].
      cbn [orb]. change (Z.of_nat 1 =? 1) with true. cbv iota.
      rewrite load_head. cbn [bind]. rewrite store_head. reflexivity. }
    cbn [length] in *.
    split; [apply Hone; exact Hcap|].
    repeat split; try reflexivity; try (simpl; lia).
    + intros buf' max_output' Hm. apply Hone. lia.
    + replace (Z.to_nat max_output) with (S (Z.to_nat (max_output - 1)))
        by lia.
      cbn [firstn]. rewrite firstn_nil. reflexivity.
  - set (rest' := p1 :: rest).
    assert (Hne : rest' <> []) by discriminate.
    exists (resampled spacing p0 rest' max_output),
      (p0 :: spaced_walk (spacing * spacing)%float p0 rest' (length rest')
          ++ [last rest' p0]).
    destruct (resampled_props spacing p0 rest' max_output Hne (proj1 Hcap))
      as (H1 & H2 & H3 & _ & H5).
    split; [apply resample_spec; assumption|].
    split; [exact H1|]. split; [exact H2|]. split; [exact H3|].
    split; [| split; [exact H5 | split]].
    + intros Hroom.
      rewrite (resampled_last spacing p0 rest' max_output Hne (proj1 Hcap))
        by exact Hroom.
      destruct (exists_last Hne) as [front [pN E]]. rewrite E.
      rewrite last_last.
      replace (p0 :: (front ++ [pN]) ++ back)
        with ((p0 :: front) ++ pN :: back)
        by (simpl; rewrite <- app_assoc; reflexivity).
      rewrite nth_error_app2 by list_len.
      replace (Z.to_nat (Z.of_nat (S (length (front ++ [pN]))) - 1)
               - length (p0 :: front))%nat with O by list_len.
      reflexivity.
    + intros buf' max_output' Hm.
      rewrite <- (resampled_full spacing p0 rest' max_output') by lia.
      apply resample_spec; [exact Hne | lia].
    + apply resampled_prefix. lia.
Qed.

Lemma resample_endpoints_and_spacing_witness :
  exists em full : list PointData,
    resample_stroke_points (Some [pt 0 0 1 0; pt 1 0 1 1; pt 20 0 1 2]) 3 5
      (Some (repeat zero_point 3)) 3
    = Done (Z.of_nat (length em),
            Some (em ++ skipn (length em) (repeat zero_point 3)))
    /\ (1 <= length em)%nat
    /\ Z.of_nat (length em) <= 3
    /\ nth_error em 0 = nth_error [pt 0 0 1 0; pt 1 0 1 1; pt 20 0 1 2] 0
    /\ (3 <= 3 \/ Z.of_nat (length em) < 3 ->
        nth_error em (length em - 1)
        = nth_error [pt 0 0 1 0; pt 1 0 1 1; pt 20 0 1 2]
            (Z.to_nat (3 - 1)))
    /\ (forall i a b,
          nth_error em i = Some a -> nth_error em (S i) = Some b ->
          (S (S i) < length em)%nat ->
          ((5 * 5) <=? dist2 (p_x a) (p_y a) (p_x b) (p_y b))%float = true)
    /\ (forall (buf' : list PointData) (max_output' : Z),
          3 < max_output' <= Z.of_nat (length buf') ->
          resample_stroke_points
            (Some [pt 0 0 1 0; pt 1 0 1 1; pt 20 0 1 2]) 3 5 (Some buf')
            max_output'
          = Done (Z.of_nat (length full),
                  Some (full ++ skipn (length full) buf')))
    /\ em = firstn (Z.to_nat 3) full.
Proof.
  apply (resample_endpoints_and_spacing
           [pt 0 0 1 0; pt 1 0 1 1; pt 20 0 1 2] 3 5
           (repeat zero_point 3) 3); simpl; lia.
Defined.

(* ------------------------------------------------------------------ *)
(** ** Velocities: the floor on the elapsed time and the sign *)

Lemma round_keeps_sign (m e : Z) (l : location) :
  sign_clear (binary_round_aux prec emax false m e l).
Proof.
  unfold binary_round_aux.
  destruct (shr_fexp prec emax m e l) as [mrs' e'].
  destruct (shr_fexp prec emax _ e' loc_Exact) as [mrs'' e''].
  destruct (shr_m mrs''); [reflexivity | | exact I].
  destruct (e'' <=? emax - prec); reflexivity.
Qed.

Lemma square_sign_clear (x : float) : sign_clear (Prim2SF (x * x)).
Proof.
  rewrite mul_spec. unfold SF64mul, SFmul.
  destruct (Prim2SF x) as [s | s | | s m e]; cbn [sign_clear];
    rewrite ?xorb_nilpotent; try reflexivity; try exact I.
  apply round_keeps_sign.
Qed.

Lemma add_sign_clear (x y : float) :
  sign_clear (Prim2SF x) -> sign_clear (Prim2SF y) ->
  sign_clear (Prim2SF (x + y)).
Proof.
  rewrite add_spec. unfold SF64add, SFadd.
  destruct (Prim2SF x) as [sx | sx | | sx mx ex];
    destruct (Prim2SF y) as [sy | sy | | sy my ey];
    cbn [sign_clear]; intros Hx Hy; subst; try reflexivity; try exact I.
  cbn [cond_Zopp Z.add]. unfold binary_normalize, binary_round.
  destruct (shl_align _ _ _) as [mz ez]. apply round_keeps_sign.
Qed.

Lemma sqrt_sign_clear (x : float) :
  sign_clear (Prim2SF x) -> sign_clear (Prim2SF (sqrt x)).
Proof.
  rewrite sqrt_spec. unfold SF64sqrt, SFsqrt.
  destruct (Prim2SF x) as [s | s | | s m e]; cbn [sign_clear]; intros Hx;
    subst; try reflexivity; try exact I.
  destruct (SFsqrt_core_binary prec emax (Z.pos m) e) as [[mz ez] lz].
  apply round_keeps_sign.
Qed.

Lemma div_sign_clear (x y : float) :
  sign_clear (Prim2SF x) -> sign_clear (Prim2SF y) ->
  sign_clear (Prim2SF (x / y)).
Proof.
  rewrite div_spec. unfold SF64div, SFdiv.
  destruct (Prim2SF x) as [sx | sx | | sx mx ex];
    destruct (Prim2SF y) as [sy | sy | | sy my ey];
    cbn [sign_clear]; intros Hx Hy; subst; try reflexivity; try exact I.
  destruct (SFdiv_core_binary prec emax (Z.pos mx) ex (Z.pos my) ey)
    as [[mz ez] lz].
  apply round_keeps_sign.
Qed.

(** A squared distance is never negative, and never the negative zero. *)
Lemma dist2_sign_clear (x1 y1 x2 y2 : float) :
  sign_clear (Prim2SF (dist2 x1 y1 x2 y2)).
Proof.
  unfold dist2. cbv zeta. apply add_sign_clear; apply square_sign_clear.
Qed.

(** What is at least 1e-6 has a clear sign bit. *)
Lemma floor_sign_clear (dt : float) :
  (1e-6 <=? dt)%float = true -> sign_clear (Prim2SF dt).
Proof.
  rewrite leb_spec. unfold SFleb.
  remember (Prim2SF 1e-6) as lo eqn:E. vm_compute in E. subst lo.
  destruct (Prim2SF dt) as [s | s | | s m e]; cbn [sign_clear];
    try (intros _; exact I); destruct s; try reflexivity;
    cbn [SFcompare]; discriminate.
Qed.

Lemma sign_clear_not_negative (v : float) :
  sign_clear (Prim2SF v) -> (v <? 0)%float = false.
Proof.
  rewrite ltb_spec. unfold SFltb. change (Prim2SF 0) with (S754_zero false).
  destruct (Prim2SF v) as [s | s | | s m e]; cbn [sign_clear]; intros Hv;
    subst; reflexivity.
Qed.

(** X2. Given valid arrays, every velocity [compute_stroke_velocity]
    writes is the distance between two consecutive samples divided by
    their time difference floored to 1e-6: the divisor is at least 1e-6
    and is not NaN whatever the two timestamps are (equal, decreasing,
    NaN), so no velocity comes from a division by zero or by a negative
    time, and no velocity is negative.  For two consecutive samples with
    the same finite timestamp the velocity is the distance over 1e-6. *)
Theorem velocity_time_floor
    (l : list PointData) (point_count : Z) (buf : list float)
    (max_output : Z) :
  2 <= point_count <= Z.of_nat (length l) ->
  1 <= max_output <= Z.of_nat (length buf) ->
  exists em : list float,
    compute_stroke_velocity (Some l) point_count (Some buf) max_output
    = Done (Z.of_nat (length em), Some (em ++ skipn (length em) buf))
    /\ (forall (k : nat) (a b : PointData),
          (k < length em)%nat ->
          nth_error l k = Some a -> nth_error l (S k) = Some b ->
          let d := sqrt (dist2 (p_x a) (p_y a) (p_x b) (p_y b)) in
          let dt := std_max 1e-6 (p_timestamp b - p_timestamp a)%float in
          nth_error em k = Some (d / dt)%float
          /\ (1e-6 <=? dt)%float = true
          /\ is_nan dt = false
          /\ (d / dt <? 0)%float = false)
    /\ (forall (k : nat) (a b : PointData),
          (k < length em)%nat ->
          nth_error l k = Some a -> nth_error l (S k) = Some b ->
          p_timestamp b = p_timestamp a ->
          is_finite (p_timestamp a) = true ->
          nth_error em k
          = Some (sqrt (dist2 (p_x a) (p_y a) (p_x b) (p_y b)) / 1e-6)%float).
Proof.
  intros Hin Hcap.
  set (kept := firstn (Z.to_nat max_output)
                 (pairs (firstn (Z.to_nat point_count) l))).
  exists (map velocity_of kept).
  split; [apply velocity_spec; assumption|].
  split.
  - intros k a b Hk Ha Hb d dt. rewrite length_map in Hk.
    rewrite nth_error_map.
    subst kept. rewrite (kept_pairs_nth l _ _ k a b Hk Ha Hb).
    cbn [option_map]. unfold velocity_of. cbn [fst snd]. fold d dt.
    split; [reflexivity|].
    destruct (std_max_floor 1e-6 (p_timestamp b - p_timestamp a)%float
                eq_refl) as [Hfloor Hnan].
    fold dt in Hfloor, Hnan.
    split; [exact Hfloor|]. split; [exact Hnan|].
    apply sign_clear_not_negative. apply div_sign_clear.
    + subst d. apply sqrt_sign_clear. apply dist2_sign_clear.
    + apply floor_sign_clear. exact Hfloor.
  - intros k a b Hk Ha Hb Ht Hfin. rewrite length_map in Hk.
    rewrite nth_error_map.
    subst kept. rewrite (kept_pairs_nth l _ _ k a b Hk Ha Hb).
    cbn [option_map]. unfold velocity_of. cbn [fst snd].
    rewrite Ht, (sub_self _ Hfin).
    change (std_max 1e-6 0) with 1e-6%float. reflexivity.
Qed.

Lemma velocity_time_floor_witness :
  exists em : list float,
    compute_stroke_velocity
      (Some [pt 0 0 1 5; pt 3 4 1 5; pt 3 4 1 4]) 3
      (Some (repeat 0%float 2)) 2
    = Done (Z.of_nat (length em),
            Some (em ++ skipn (length em) (repeat 0%float 2)))
    /\ (forall (k : nat) (a b : PointData),
          (k < length em)%nat ->
          nth_error [pt 0 0 1 5; pt 3 4 1 5; pt 3 4 1 4] k = Some a ->
          nth_error [pt 0 0 1 5; pt 3 4 1 5; pt 3 4 1 4] (S k) = Some b ->
          let d := sqrt (dist2 (p_x a) (p_y a) (p_x b) (p_y b)) in
          let dt := std_max 1e-6 (p_timestamp b - p_timestamp a)%float in
          nth_error em k = Some (d / dt)%float
          /\ (1e-6 <=? dt)%float = true
          /\ is_nan dt = false
          /\ (d / dt <? 0)%float = false)
    /\ (forall (k : nat) (a b : PointData),
          (k < length em)%nat ->
          nth_error [pt 0 0 1 5; pt 3 4 1 5; pt 3 4 1 4] k = Some a ->
          nth_error [pt 0 0 1 5; pt 3 4 1 5; pt 3 4 1 4] (S k) = Some b ->
          p_timestamp b = p_timestamp a ->
          is_finite (p_timestamp a) = true ->
          nth_error em k
          = Some (sqrt (dist2 (p_x a) (p_y a) (p_x b) (p_y b)) / 1e-6)%float).
Proof.
  apply (velocity_time_floor [pt 0 0 1 5; pt 3 4 1 5; pt 3 4 1 4] 3
           (repeat 0%float 2) 2); simpl; lia.
Defined.

(* ------------------------------------------------------------------ *)
(** ** Exact values and the comparison of doubles *)














(* ------------------------------------------------------------------ *)
(** ** Simplification of three collinear samples *)


Ltac exact_value := vm_compute; reflexivity.



(** The chord has to be longer than 1e-6: for a shorter chord the distance
    to the first end point is taken instead.  The samples (0,0),
    (2^-30, 0), (2^-29, 0) are collinear, the middle one lies between the
    end points, nothing is rounded, and with epsilon 1e-40 all three are
    returned. *)
Lemma simplify_short_chord_keeps_middle :
  on_segment (pt 0 0 1 0) (pt 0x1p-30 0 1 1) (pt 0x1p-29 0 1 2)
  /\ simplify_stroke_rdp
       (Some [pt 0 0 1 0; pt 0x1p-30 0 1 1; pt 0x1p-29 0 1 2]) 3 1e-40
       (Some (repeat zero_point 3)) 3
     = Done (3, Some [pt 0 0 1 0; pt 0x1p-30 0 1 1; pt 0x1p-29 0 1 2]).
Proof.
  split; [| vm_compute; reflexivity].
  do 6 eexists. repeat split; first [exact_value | vm_compute; discriminate].
Qed.
